(** * color-extractor-js: the extraction core, embedded and verified

    A shallow embedding of [src/core/ColorExtractor.ts], [src/core/Palette.ts],
    [src/core/ImageDecoder.ts] and [src/core/Color.ts].

    JavaScript numbers are IEEE 754 binary64 values: they are modelled by
    Rocq's primitive floats, whose operations are the same correctly rounded
    ones.  Numbers that the program only uses as integers (packed colors,
    pixel counts, array lengths and indices, the requested color count) are
    modelled by [Z] and [nat].  [Math.pow] has no counterpart among the
    primitive float operations and its precision is left to the engine by
    the language standard: it is a parameter of the development. *)

From Stdlib Require Import ZArith List Bool Lia Floats Sorting.Permutation Sorting.Sorted.
From Stdlib Require Strings.Byte.
From stdpp Require Import base option list gmap.

Set Warnings "-inexact-float".
Local Open Scope Z_scope.

(** ** Numbers *)

Module Number.

(** An integer as a double: the nearest one, ties to even, and an
    infinity beyond the largest double.  An integer that a number can hold
    is that double. *)
Definition ofZ (z : Z) : float := SF2Prim (binary_normalize prec emax z 0 false).

(** [ToInt32] on an integral number. *)
Definition ToInt32 (z : Z) : Z := (z + 2 ^ 31) mod 2 ^ 32 - 2 ^ 31.

(** [x >> n] and [x & y] on integral numbers. *)
Definition sar (x n : Z) : Z := Z.shiftr (ToInt32 x) (n mod 32).
Definition band (x y : Z) : Z := ToInt32 (Z.land (ToInt32 x) (ToInt32 y)).

(** [x << n] and [x | y] on integral numbers. *)
Definition shl (x n : Z) : Z := ToInt32 (Z.shiftl (ToInt32 x) (n mod 32)).
Definition bor (x y : Z) : Z := ToInt32 (Z.lor (ToInt32 x) (ToInt32 y)).

(** Truthiness of a number: [0], [-0] and [NaN] are falsy. *)
Definition truthy (x : float) : bool :=
  negb (PrimFloat.eqb x 0 || PrimFloat.is_nan x).

(** [x || y] on numbers. *)
Definition or (x y : float) : float := if truthy x then x else y.

(** The text a template literal prints for [Math.floor x].  Printing is
    injective on integral doubles except that [-0] prints as ["0"], and
    every NaN prints as ["NaN"]; a text is represented by the value it
    denotes. *)
Inductive FloorText :=
| TextNaN
| TextInfinity (negative : bool)
| TextInteger (z : Z).

Definition floorText (x : float) : FloorText :=
  match Prim2SF x with
  | S754_nan => TextNaN
  | S754_infinity s => TextInfinity s
  | S754_zero _ => TextInteger 0
  | S754_finite s m e => TextInteger (Z.shiftl (cond_Zopp s (Z.pos m)) e)
  end.

(** The integer that a bit operation or a store into a typed array makes
    of [Math.floor x]: [NaN] and the infinities convert to [0]. *)
Definition floorInteger (x : float) : Z :=
  match floorText x with
  | TextInteger z => z
  | _ => 0
  end.

#[global] Instance FloorText_eq_dec : EqDecision FloorText.
Proof. solve_decision. Defined.

#[global] Instance FloorText_countable : Countable FloorText.
Proof.
  refine (inj_countable'
    (fun t => match t with
              | TextNaN => None
              | TextInfinity s => Some (inl s)
              | TextInteger z => Some (inr z)
              end)
    (fun o => match o with
              | None => TextNaN
              | Some (inl s) => TextInfinity s
              | Some (inr z) => TextInteger z
              end) _).
  intros []; reflexivity.
Defined.

End Number.

(** ** Types ([src/types/index.ts]) *)

Module LabColor.
Record t := mk { L : float; a : float; b : float }.
End LabColor.

Record ExtractorOptions := mkOptions {
  useCache : bool;
  maxCacheSize : Z;
  batchSize : Z
}.

Module PaletteEntry.
Record t := mk { color : Z; count : Z }.
End PaletteEntry.

Module RgbColor.
Record t := mk { r : Z; g : Z; b : Z }.
End RgbColor.

(** ** Constants of [ColorExtractor.ts] *)

Definition RGB_MAX : Z := 255.
Definition SRGB_THRESHOLD : float := 0.03928%float.
Definition SRGB_FACTOR : float := 12.92%float.

Module XYZ_CONSTANTS.
Definition WHITE_POINT_X : float := 0.95047%float.
Definition WHITE_POINT_Y : float := 1%float.
Definition WHITE_POINT_Z : float := 1.08883%float.
Definition THRESHOLD : float := (216 / 24389)%float.
Definition FACTOR : float := (841 / 108)%float.
Definition OFFSET : float := (4 / 29)%float.
End XYZ_CONSTANTS.

Module LAB_CONVERSION_MATRIX.
Definition X : float * float * float := (0.4124564, 0.3575761, 0.1804375)%float.
Definition Y : float * float * float := (0.2126729, 0.7151522, 0.0721750)%float.
Definition Z : float * float * float := (0.0193339, 0.1191920, 0.9503041)%float.
End LAB_CONVERSION_MATRIX.

Definition DEFAULT_OPTIONS : ExtractorOptions :=
  {| useCache := true; maxCacheSize := 10000; batchSize := 1000 |}.

(** ** The color space converter *)

Section Converter.

(** [Math.pow]. *)
Variable Math_pow : float -> float -> float.

Definition rgbToSrgb (value : float) : float :=
  if (value <=? SRGB_THRESHOLD)%float
  then (value / SRGB_FACTOR)%float
  else Math_pow ((value + 0.055) / 1.055)%float 2.4%float.

Definition xyzToLabStep (value : float) : float :=
  if (XYZ_CONSTANTS.THRESHOLD <? value)%float
  then Math_pow value (1 / 3)%float
  else (XYZ_CONSTANTS.FACTOR * value + XYZ_CONSTANTS.OFFSET)%float.

Definition xyzToLab (x y z : float) : LabColor.t :=
  let fx := xyzToLabStep (x / XYZ_CONSTANTS.WHITE_POINT_X)%float in
  let fy := xyzToLabStep (y / XYZ_CONSTANTS.WHITE_POINT_Y)%float in
  let fz := xyzToLabStep (z / XYZ_CONSTANTS.WHITE_POINT_Z)%float in
  {| LabColor.L := (116 * fy - 16)%float;
     LabColor.a := (500 * (fx - fy))%float;
     LabColor.b := (200 * (fy - fz))%float |}.

Definition convertToLab (color : Z) : LabColor.t :=
  let r := Number.band (Number.sar color 16) RGB_MAX in
  let g := Number.band (Number.sar color 8) RGB_MAX in
  let b := Number.band color RGB_MAX in
  let sR := rgbToSrgb (Number.ofZ r / Number.ofZ RGB_MAX)%float in
  let sG := rgbToSrgb (Number.ofZ g / Number.ofZ RGB_MAX)%float in
  let sB := rgbToSrgb (Number.ofZ b / Number.ofZ RGB_MAX)%float in
  let '(x0, x1, x2) := LAB_CONVERSION_MATRIX.X in
  let '(y0, y1, y2) := LAB_CONVERSION_MATRIX.Y in
  let '(z0, z1, z2) := LAB_CONVERSION_MATRIX.Z in
  let x := (x0 * sR + x1 * sG + x2 * sB)%float in
  let y := (y0 * sR + y1 * sG + y2 * sB)%float in
  let z := (z0 * sR + z1 * sG + z2 * sB)%float in
  xyzToLab x y z.

End Converter.

Definition calculateDeltaE (lab1 lab2 : LabColor.t) : float :=
  let deltaL := (LabColor.L lab2 - LabColor.L lab1)%float in
  let deltaA := (LabColor.a lab2 - LabColor.a lab1)%float in
  let deltaB := (LabColor.b lab2 - LabColor.b lab1)%float in
  if (50 <? PrimFloat.abs deltaL)%float then 100%float
  else PrimFloat.sqrt (deltaL * deltaL + deltaA * deltaA + deltaB * deltaB)%float.

Abbreviation GridKey := (Number.FloorText * Number.FloorText * Number.FloorText)%type.

Definition getGridKey (labColor : LabColor.t) (gridSize : float) : GridKey :=
  let lKey := Number.floorText (LabColor.L labColor / gridSize)%float in
  let aKey := Number.floorText ((LabColor.a labColor + 128) / gridSize)%float in
  let bKey := Number.floorText ((LabColor.b labColor + 128) / gridSize)%float in
  (lKey, aKey, bKey).


(** ** Arrays *)

Module Array.

(** [arr.slice(0, end)] for an integral [end]: a negative [end] counts
    from the end of the array. *)
Definition slice0 {A} (arr : list A) (end_ : Z) : list A :=
  if end_ <? 0
  then firstn (Z.to_nat (Z.max (Z.of_nat (length arr) + end_) 0)) arr
  else firstn (Z.to_nat end_) arr.

(** [arr.sort(comparator)].  The sort is stable; [after x y] says that
    [comparator(x, y) > 0], that is, [x] has to come after [y].  For a
    consistent comparator the result of a stable sort does not depend on
    the algorithm; it is computed here by insertion, from the right. *)
Section Sort.
Context {A : Type} (after : A -> A -> bool).

Fixpoint insert (x : A) (sorted : list A) : list A :=
  match sorted with
  | [] => [x]
  | y :: rest => if after x y then y :: insert x rest else x :: sorted
  end.

Fixpoint sort (arr : list A) : list A :=
  match arr with
  | [] => []
  | x :: rest => insert x (sort rest)
  end.
End Sort.

End Array.

(** ** The image decoder ([ImageDecoder.ts]) *)

Inductive Exception :=
| Error_InvalidDataLength (expected got : Z)
| TypeError_undefined.

Inductive Completion (A : Type) :=
| Normal (value : A)
| Throw (e : Exception).
Arguments Normal {A} value.
Arguments Throw {A} e.

Module ImageData.
Record t := mk { width : Z; height : Z; data : list Byte.byte }.
End ImageData.

(** What the functions that build or read an image throw. *)
Inductive DecoderException :=
| RangeError_InvalidTypedArrayLength (length : Z)
| Error_CoordinatesOutOfBounds (x y : Z).

(** [Uint8Array]: a buffer of fixed length.  Reading outside of it gives
    [undefined], writing outside of it does nothing, and a number is
    stored modulo 256.  A negative length is refused; a length that the
    engine cannot allocate is not modelled. *)
Module Uint8Array.

Definition toNumber (b : Byte.byte) : Z := Z.of_N (Byte.to_N b).

Definition ToUint8 (z : Z) : Byte.byte :=
  default Byte.x00 (Byte.of_N (Z.to_N (z mod 256))).

Definition new (length : Z) : DecoderException + list Byte.byte :=
  if length <? 0 then inl (RangeError_InvalidTypedArrayLength length)
  else inr (replicate (Z.to_nat length) Byte.x00).

Definition get (data : list Byte.byte) (index : Z) : option Z :=
  if index <? 0 then None else toNumber <$> data !! Z.to_nat index.

Definition set (data : list Byte.byte) (index value : Z) : list Byte.byte :=
  if index <? 0 then data else <[Z.to_nat index := ToUint8 value]> data.

(** The values of [i] in [for (let i = 0; i < length; i += step)]. *)
Definition strides (length step : Z) : list Z :=
  (fun k => k * step) <$> seqZ 0 ((length + step - 1) / step).

End Uint8Array.

Module ImageDecoder.

Definition RGBA_CHANNELS : Z := 4.

Definition fromRawData (width height : Z) (data : list Byte.byte)
  : Completion ImageData.t :=
  let expectedLength := width * height * RGBA_CHANNELS in
  if negb (Z.eqb (Z.of_nat (List.length data)) expectedLength)
  then Throw (Error_InvalidDataLength expectedLength (Z.of_nat (List.length data)))
  else Normal (ImageData.mk width height data).

Definition MAX_RGB_VALUE : Z := 255.

(** The coordinates stay far below 2^53, where the sum of two integral
    numbers is exact. *)
Definition createTestImage (width height : Z) : DecoderException + ImageData.t :=
  match Uint8Array.new (width * height * RGBA_CHANNELS) with
  | inl e => inl e
  | inr data =>
      let row (y : Z) (data : list Byte.byte) (x : Z) : list Byte.byte :=
        let index := (y * width + x) * RGBA_CHANNELS in
        let data :=
          Uint8Array.set data index
            (Number.floorInteger
               (Number.ofZ x / Number.ofZ width * Number.ofZ MAX_RGB_VALUE)%float) in
        let data :=
          Uint8Array.set data (index + 1)
            (Number.floorInteger
               (Number.ofZ y / Number.ofZ height * Number.ofZ MAX_RGB_VALUE)%float) in
        let data :=
          Uint8Array.set data (index + 2)
            (Number.floorInteger
               (Number.ofZ (x + y) / Number.ofZ (width + height)
                * Number.ofZ MAX_RGB_VALUE)%float) in
        Uint8Array.set data (index + 3) MAX_RGB_VALUE in
      let data :=
        foldl (fun data y => foldl (row y) data (seqZ 0 width)) data (seqZ 0 height) in
      inr (ImageData.mk width height data)
  end.

Definition createSolidImage (width height r g b a : Z)
  : DecoderException + ImageData.t :=
  match Uint8Array.new (width * height * RGBA_CHANNELS) with
  | inl e => inl e
  | inr data =>
      let body (data : list Byte.byte) (i : Z) : list Byte.byte :=
        let data := Uint8Array.set data i r in
        let data := Uint8Array.set data (i + 1) g in
        let data := Uint8Array.set data (i + 2) b in
        Uint8Array.set data (i + 3) a in
      let data :=
        foldl body data (Uint8Array.strides (Z.of_nat (List.length data)) RGBA_CHANNELS) in
      inr (ImageData.mk width height data)
  end.

Definition getPixel (imageData : ImageData.t) (x y : Z)
  : DecoderException + (option Z * option Z * option Z * option Z) :=
  if (x <? 0) || (y <? 0) || (ImageData.width imageData <=? x)
     || (ImageData.height imageData <=? y)
  then inl (Error_CoordinatesOutOfBounds x y)
  else
    let index := (y * ImageData.width imageData + x) * RGBA_CHANNELS in
    let data := ImageData.data imageData in
    inr (Uint8Array.get data index, Uint8Array.get data (index + 1),
         Uint8Array.get data (index + 2), Uint8Array.get data (index + 3)).

End ImageDecoder.

(** ** The palette ([Palette.ts]) *)

(** The two revisions of [Palette.ts] differ in the iterator: the earlier
    one yields the entries sorted by count, the later one in insertion
    order. *)
Inductive PaletteRevision := IterateByCount | IterateByInsertion.

Module Palette.

(** [colors : Map<number, number>], as the sequence of its entries in
    insertion order. *)
Record t := mk { colors : list (Z * Z) }.

(** A map holds a key once. *)
Definition wf (p : t) : Prop := NoDup (map fst (colors p)).

Definition length (p : t) : Z := Z.of_nat (List.length (colors p)).

(** [colors.set(color, (colors.get(color) || 0) + 1)]: a present key keeps
    its place. *)
Fixpoint increment (color : Z) (entries : list (Z * Z)) : list (Z * Z) :=
  match entries with
  | [] => [(color, 1)]
  | (c, n) :: rest =>
      if Z.eqb c color then (c, n + 1) :: rest else (c, n) :: increment color rest
  end.

Definition getMostUsedColors (p : t) (limit : option Z) : list PaletteEntry.t :=
  let entries := map (fun '(color, count) => PaletteEntry.mk color count) (colors p) in
  let entries :=
    Array.sort (fun x y => 0 <? PaletteEntry.count y - PaletteEntry.count x) entries in
  match limit with
  | Some n => if Z.eqb n 0 then entries else Array.slice0 entries n
  | None => entries
  end.

Definition getColorCount (p : t) (color : Z) : Z :=
  match List.find (fun e => Z.eqb (fst e) color) (colors p) with
  | Some (_, n) => n
  | None => 0
  end.

Definition hasColor (p : t) (color : Z) : bool :=
  existsb (fun e => Z.eqb (fst e) color) (colors p).

Definition getAllColors (p : t) : list Z := map fst (colors p).

(** [Symbol.iterator], in either revision. *)
Definition iterator (rev : PaletteRevision) (p : t) : list (Z * Z) :=
  match rev with
  | IterateByCount => Array.sort (fun x y => 0 <? snd y - snd x) (colors p)
  | IterateByInsertion => colors p
  end.

Definition RGBA_CHANNELS : Z := 4.
Definition ALPHA_OPAQUE : Z := 255.

(** [(r << 16) | (g << 8) | b]. *)
Definition pack (r g b : Z) : Z :=
  Number.bor (Number.bor (Number.shl r 16) (Number.shl g 8)) b.

(** [bgR], [bgG] and [bgB]: the bytes of the background color. *)
Definition background (backgroundColor : Z) : Z * Z * Z :=
  (Number.band (Number.sar backgroundColor 16) RGB_MAX,
   Number.band (Number.sar backgroundColor 8) RGB_MAX,
   Number.band backgroundColor RGB_MAX).

(** An element read from the buffer as an operand of a bit operation or
    of an arithmetic one: [undefined] converts to [0] in the first case
    and to [NaN] in the second. *)
Definition int32Of (element : option Z) : Z := default 0 element.
Definition numberOf (element : option Z) : float :=
  match element with
  | Some z => Number.ofZ z
  | None => nan
  end.

(** [fromImageData] of the earlier revision, the one that iterates by
    count: the body of its loop, at index [i] of the buffer. *)
Definition countEarlier (data : list Byte.byte) (backgroundColor : option Z)
    (entries : list (Z * Z)) (i : Z) : list (Z * Z) :=
  let r := Uint8Array.get data i in
  let g := Uint8Array.get data (i + 1) in
  let b := Uint8Array.get data (i + 2) in
  let a := Uint8Array.get data (i + 3) in
  if decide (a = Some 0) then
    match backgroundColor with
    | None => entries
    | Some backgroundColor =>
        let '(bgR, bgG, bgB) := background backgroundColor in
        increment (pack bgR bgG bgB) entries
    end
  else increment (pack (int32Of r) (int32Of g) (int32Of b)) entries.

(** [fromImageData] of the later revision: the body of its loop, at
    pixel [i]; [bg] holds [bgR], [bgG] and [bgB]. *)
Definition countLater (data : list Byte.byte) (backgroundColor : option Z)
    (bg : Z * Z * Z) (entries : list (Z * Z)) (i : Z) : list (Z * Z) :=
  let '(bgR, bgG, bgB) := bg in
  let given := match backgroundColor with Some _ => true | None => false end in
  let pixelIndex := i * RGBA_CHANNELS in
  let r := Uint8Array.get data pixelIndex in
  let g := Uint8Array.get data (pixelIndex + 1) in
  let b := Uint8Array.get data (pixelIndex + 2) in
  let alpha := Uint8Array.get data (pixelIndex + 3) in
  if bool_decide (alpha = Some 0) && negb given then entries
  else
    let below := match alpha with Some z => z <? ALPHA_OPAQUE | None => false end in
    let rgb :=
      if below && given then
        let alphaRatio := (numberOf alpha / Number.ofZ RGB_MAX)%float in
        let invAlphaRatio := (1 - alphaRatio)%float in
        let blend (channel : option Z) (bgChannel : Z) : Z :=
          Number.floorInteger
            (numberOf channel * alphaRatio + Number.ofZ bgChannel * invAlphaRatio)%float in
        Some (blend r bgR, blend g bgG, blend b bgB)
      else if below then None
      else Some (int32Of r, int32Of g, int32Of b) in
    match rgb with
    | None => entries
    | Some (r, g, b) => increment (pack r g b) entries
    end.

Definition fromImageData (rev : PaletteRevision) (imageData : ImageData.t)
    (backgroundColor : option Z) : t :=
  let data := ImageData.data imageData in
  match rev with
  | IterateByCount =>
      mk (foldl (countEarlier data backgroundColor) []
            (Uint8Array.strides (Z.of_nat (List.length data)) RGBA_CHANNELS))
  | IterateByInsertion =>
      if (ImageData.width imageData =? 0) || (ImageData.height imageData =? 0) then mk []
      else
        let pixelCount := ImageData.width imageData * ImageData.height imageData in
        let bg :=
          match backgroundColor with
          | Some backgroundColor => background backgroundColor
          | None => (0, 0, 0)
          end in
        mk (foldl (countLater data backgroundColor bg) [] (seqZ 0 pixelCount))
  end.

(** The two builders of the later revision; a promise that rejects is a
    thrown exception. *)
Definition fromTestImage (width height : Z) (backgroundColor : option Z)
  : DecoderException + t :=
  match ImageDecoder.createTestImage width height with
  | inl e => inl e
  | inr imageData => inr (fromImageData IterateByInsertion imageData backgroundColor)
  end.

Definition fromSolidColor (width height r g b a : Z) : DecoderException + t :=
  match ImageDecoder.createSolidImage width height r g b a with
  | inl e => inl e
  | inr imageData => inr (fromImageData IterateByInsertion imageData None)
  end.

End Palette.

(** ** Colors ([Color.ts]) *)

(** Strings are sequences of UTF-16 code units. *)
Module JSString.

Definition t := list Z.

(** [s.padStart(targetLength, fill)] for a one-unit [fill]. *)
Definition padStart (s : t) (targetLength : Z) (fill : Z) : t :=
  replicate (Z.to_nat (targetLength - Z.of_nat (List.length s))) fill ++ s.

(** [s.toUpperCase()] on the units that [Number.prototype.toString]
    produces: digits, lower-case Latin letters and the minus sign. *)
Definition toUpperCase (s : t) : t :=
  map (fun u => if (97 <=? u) && (u <=? 122) then u - 32 else u) s.

(** [s.replace(pattern, '')] for a one-unit [pattern]: the first
    occurrence goes. *)
Fixpoint removeFirst (pattern : Z) (s : t) : t :=
  match s with
  | [] => []
  | u :: rest => if u =? pattern then rest else u :: removeFirst pattern rest
  end.

End JSString.

Module NumberText.

(** The digit of a value below 36, as [Number.prototype.toString] writes
    it. *)
Definition digit (d : Z) : Z := if d <? 10 then 48 + d else 87 + d.

(** The digits of a positive integer in a radix. *)
Fixpoint digits (fuel : nat) (radix n : Z) (acc : list Z) : list Z :=
  match fuel with
  | O => acc
  | S fuel =>
      if n <? radix then digit n :: acc
      else digits fuel radix (n / radix) (digit (n mod radix) :: acc)
  end.

(** [n.toString(radix)] for an integral [n]; a number has at most as
    many digits as bits, which bounds the loop. *)
Definition toString (n radix : Z) : list Z :=
  if n <? 0 then 45 :: digits (S (Z.to_nat (Z.log2 (- n)))) radix (- n) []
  else if n =? 0 then [48]
  else digits (S (Z.to_nat (Z.log2 n))) radix n [].

(** The white space that [parseInt] skips. *)
Definition isWhiteSpace (u : Z) : bool :=
  bool_decide
    (u ∈ [9; 10; 11; 12; 13; 32; 160; 5760; 8192; 8193; 8194; 8195; 8196; 8197; 8198;
          8199; 8200; 8201; 8202; 8232; 8233; 8239; 8287; 12288; 65279]).

Fixpoint trimStart (s : list Z) : list Z :=
  match s with
  | u :: rest => if isWhiteSpace u then trimStart rest else s
  | [] => []
  end.

(** The value of a unit as a digit, if it is one. *)
Definition digitValue (u : Z) : option Z :=
  if (48 <=? u) && (u <=? 57) then Some (u - 48)
  else if (97 <=? u) && (u <=? 122) then Some (u - 87)
  else if (65 <=? u) && (u <=? 90) then Some (u - 55)
  else None.

(** The longest prefix of digits of the radix, as a number; [count] is
    the number of digits read. *)
Fixpoint readDigits (radix : Z) (s : list Z) (value : Z) (count : nat) : Z * nat :=
  match s with
  | u :: rest =>
      match digitValue u with
      | Some d => if d <? radix then readDigits radix rest (value * radix + d) (S count)
                  else (value, count)
      | None => (value, count)
      end
  | [] => (value, count)
  end.

(** [parseInt(s, 16)]; [None] is [NaN].  The value is the one that the
    digits denote, which the engine returns exactly up to 2^53. *)
Definition parseInt16 (s : list Z) : option Z :=
  let s := trimStart s in
  let '(sign, s) :=
    match s with
    | u :: rest =>
        if u =? 45 then (-1, rest) else if u =? 43 then (1, rest) else (1, s)
    | [] => (1, s)
    end in
  let s :=
    match s with
    | u :: v :: rest => if (u =? 48) && ((v =? 120) || (v =? 88)) then rest else s
    | _ => s
    end in
  let '(value, count) := readDigits 16 s 0 0 in
  if Nat.eqb count 0 then None else Some (sign * value).

End NumberText.

Module Color.

Definition HEX_RADIX : Z := 16.
Definition RED_SHIFT : Z := 16.
Definition GREEN_SHIFT : Z := 8.
Definition HEX_PAD_LENGTH : Z := 6.

(** [toHex]; the other revision names it [fromIntToHex] and always
    writes the hash. *)
Definition toHex (color : Z) (includeHash : bool) : JSString.t :=
  let hex :=
    JSString.padStart (JSString.toUpperCase (NumberText.toString color HEX_RADIX))
      HEX_PAD_LENGTH 48 in
  if includeHash then 35 :: hex else hex.

(** [fromHex], which the other revision names [fromHexToInt]. *)
Definition fromHex (hex : JSString.t) : option Z :=
  let cleanHex := JSString.removeFirst 35 hex in
  NumberText.parseInt16 cleanHex.

(** [toRgb], which the other revision names [fromIntToRgb]. *)
Definition toRgb (color : Z) : RgbColor.t :=
  {| RgbColor.r := Number.band (Number.sar color RED_SHIFT) RGB_MAX;
     RgbColor.g := Number.band (Number.sar color GREEN_SHIFT) RGB_MAX;
     RgbColor.b := Number.band color RGB_MAX |}.

(** [fromRgb], which the other revision names [fromRgbToInt]. *)
Definition fromRgb (rgb : RgbColor.t) : Z :=
  Number.bor
    (Number.bor (Number.shl (RgbColor.r rgb) RED_SHIFT)
       (Number.shl (RgbColor.g rgb) GREEN_SHIFT))
    (RgbColor.b rgb).

End Color.

(** ** The extractor ([ColorExtractor.ts]) *)

Module ColorExtractor.

(** The fields of an instance. *)
Record t := mk {
  palette : Palette.t;
  sortedColors : option (list Z);
  labCache : gmap Z LabColor.t;
  options : ExtractorOptions
}.

Definition set_sortedColors (v : option (list Z)) (this : t) : t :=
  mk (palette this) v (labCache this) (options this).

Definition set_labCache (v : gmap Z LabColor.t) (this : t) : t :=
  mk (palette this) (sortedColors this) v (options this).

(** [new ColorExtractor(palette, options)]; the caller's options have
    been merged over [DEFAULT_OPTIONS]. *)
Definition new (palette : Palette.t) (options : ExtractorOptions) : t :=
  mk palette None ∅ options.

(** Methods read and write the instance and may throw. *)
Definition M (A : Type) : Type := t -> Completion (A * t).

Definition ret {A} (x : A) : M A := fun this => Normal (x, this).

Definition bind {A B} (m : M A) (k : A -> M B) : M B :=
  fun this =>
    match m this with
    | Normal (x, this') => k x this'
    | Throw e => Throw e
    end.

Definition throw {A} (e : Exception) : M A := fun _ => Throw e.

Definition get : M t := fun this => Normal (this, this).

Definition modify (f : t -> t) : M unit := fun this => Normal (tt, f this).

Declare Scope method_scope.
Delimit Scope method_scope with method.
Notation "x <- m ;; k" := (bind m (fun x => k))
  (at level 62, m at next level, right associativity) : method_scope.
Notation "m ;;; k" := (bind m (fun _ => k))
  (at level 62, right associativity) : method_scope.
Local Open Scope method_scope.

Record PriorityRecord := mkPriority { color : Z; priority : float }.

(** The state of the loop of [mergeColors]. *)
Record MergeState := mkMerge {
  result : list Z;
  labColors : list LabColor.t;
  spatialGrid : gmap GridKey (list nat)
}.

Section Methods.

Variable Math_pow : float -> float -> float.
Variable rev : PaletteRevision.

Definition getLabColor (color : Z) : M LabColor.t :=
  this <- get;;
  if negb (useCache (options this)) then ret (convertToLab Math_pow color)
  else
    match labCache this !! color with
    | Some labColor => ret labColor
    | None =>
        (if maxCacheSize (options this) <=? Z.of_nat (size (labCache this))
         then modify (set_labCache ∅) else ret tt);;;
        let labColor := convertToLab Math_pow color in
        modify (fun this => set_labCache (<[color := labColor]> (labCache this)) this);;;
        ret labColor
    end.

(** The loop of [initialize]; the pause after every [batchSize] entries
    gives the scheduler a turn and touches no field. *)
Fixpoint priorities (entries : list (Z * Z)) : M (list PriorityRecord) :=
  match entries with
  | [] => ret []
  | (color, count) :: rest =>
      labColor <- getLabColor color;;
      let chromaDistance :=
        Number.or
          (PrimFloat.sqrt (LabColor.a labColor * LabColor.a labColor
                           + LabColor.b labColor * LabColor.b labColor))%float
          1%float in
      let lightnessWeight := (1 - LabColor.L labColor * 0.005)%float in
      let frequencyWeight := PrimFloat.sqrt (Number.ofZ count) in
      let item :=
        mkPriority color (chromaDistance * lightnessWeight * frequencyWeight)%float in
      items <- priorities rest;;
      ret (item :: items)
  end.

Definition initialize : M unit :=
  this <- get;;
  let entries := Palette.iterator rev (palette this) in
  if Nat.eqb (List.length entries) 0 then modify (set_sortedColors (Some []))
  else
    items <- priorities entries;;
    let sorted :=
      Array.sort (fun x y => (0 <? priority y - priority x)%float) items in
    modify (set_sortedColors (Some (map color sorted))).

Definition gridSize : float := 20%float.

(** [mergeColors] is written over the distance it calls, so that it
    can be compared with a variant that calls another one. *)
Section Merge.

Variable distance : LabColor.t -> LabColor.t -> float.

(** The inner loop: is some accepted color of the bucket closer than
    [maxDelta]?  Reading a field of a missing element of [labColors]
    throws. *)
Fixpoint merged (colorLab : LabColor.t) (labColors : list LabColor.t)
    (maxDelta : float) (nearbyIndices : list nat) : M bool :=
  match nearbyIndices with
  | [] => ret false
  | nearbyIndex :: rest =>
      match labColors !! nearbyIndex with
      | None => throw TypeError_undefined
      | Some lab2 =>
          if (distance colorLab lab2 <? maxDelta)%float then ret true
          else merged colorLab labColors maxDelta rest
      end
  end.

(** The outer loop. *)
Fixpoint mergeLoop (actualLimit : Z) (maxDelta : float) (colors : list Z)
    (st : MergeState) : M MergeState :=
  match colors with
  | [] => ret st
  | color :: rest =>
      if actualLimit <=? Z.of_nat (List.length (result st)) then ret st
      else
        colorLab <- getLabColor color;;
        let gridKey := getGridKey colorLab gridSize in
        let nearbyIndices := default [] (spatialGrid st !! gridKey) in
        isMerged <- merged colorLab (labColors st) maxDelta nearbyIndices;;
        if isMerged then mergeLoop actualLimit maxDelta rest st
        else
          let resultIndex := List.length (result st) in
          let grid :=
            match spatialGrid st !! gridKey with
            | Some _ => spatialGrid st
            | None => <[gridKey := []]> (spatialGrid st)
            end in
          let grid :=
            <[gridKey := default [] (grid !! gridKey) ++ [resultIndex]]> grid in
          mergeLoop actualLimit maxDelta rest
            (mkMerge (result st ++ [color]) (labColors st ++ [colorLab]) grid)
  end.

Definition mergeColorsWith (colors : list Z) (limit : Z) (maxDelta : float)
  : M (list Z) :=
  let actualLimit := Z.min (Z.of_nat (List.length colors)) limit in
  if actualLimit <=? 1 then ret (Array.slice0 colors actualLimit)
  else
    st <- mergeLoop actualLimit maxDelta colors (mkMerge [] [] ∅);;
    ret (result st).

End Merge.

Definition mergeColors : list Z -> Z -> float -> M (list Z) :=
  mergeColorsWith calculateDeltaE.

Definition extract (colorCount : Z) : M (list Z) :=
  if Z.eqb colorCount 0 then ret []
  else
    this <- get;;
    (match sortedColors this with
     | None => initialize
     | Some _ => ret tt
     end);;;
    this <- get;;
    match sortedColors this with
    | None => throw TypeError_undefined
    | Some colors =>
        mergeColors colors colorCount (100 / Number.ofZ colorCount)%float
    end.

Definition clearCache : M unit :=
  modify (fun this => set_sortedColors None (set_labCache ∅ this)).

End Methods.

End ColorExtractor.


(** ** The conversion as the specification words it

    Section 4.1 of the specification, step by step; to be compared with
    [convertToLab]. *)

Module Reference.

Section Reference.

Variable Math_pow : float -> float -> float.

(** Step 1: the three bytes, red in the highest one, each scaled to
    [0, 1]. *)
Definition unpack (c : Z) : Z * Z * Z :=
  ((c / 65536) mod 256, (c / 256) mod 256, c mod 256).

Definition normalize (byte : Z) : float := (Number.ofZ byte / 255)%float.

(** Step 2: the transfer function from sRGB to linear light. *)
Definition linearize (v : float) : float :=
  if (v <=? 0.03928)%float then (v / 12.92)%float
  else Math_pow ((v + 0.055) / 1.055)%float 2.4%float.

(** Step 3: one row of the matrix of the D65 primaries. *)
Definition row (k : float * float * float) (r g b : float) : float :=
  let '(kr, kg, kb) := k in (kr * r + kg * g + kb * b)%float.

Definition matrix : (float * float * float) * (float * float * float) * (float * float * float) :=
  ((0.4124564, 0.3575761, 0.1804375),
   (0.2126729, 0.7151522, 0.0721750),
   (0.0193339, 0.1191920, 0.9503041))%float.

(** Step 4: the D65 white point. *)
Definition white : float * float * float := (0.95047, 1, 1.08883)%float.

(** Step 5: the nonlinearity of CIE Lab. *)
Definition f (t : float) : float :=
  if (216 / 24389 <? t)%float then Math_pow t (1 / 3)%float
  else (841 / 108 * t + 4 / 29)%float.

(** Step 6. *)
Definition toLab (c : Z) : LabColor.t :=
  let '(R, G, B) := unpack c in
  let r := linearize (normalize R) in
  let g := linearize (normalize G) in
  let b := linearize (normalize B) in
  let '(rowX, rowY, rowZ) := matrix in
  let '(Xn, Yn, Zn) := white in
  let fx := f (row rowX r g b / Xn)%float in
  let fy := f (row rowY r g b / Yn)%float in
  let fz := f (row rowZ r g b / Zn)%float in
  LabColor.mk (116 * fy - 16)%float (500 * (fx - fy))%float (200 * (fy - fz))%float.

End Reference.

End Reference.

(** * Doubles

    Facts about the comparison and the subtraction of doubles, derived
    from the specification of the primitive operations. *)

Module FloatFacts.

(** The place of a number in the order of the doubles: its class (the
    infinities outermost, zero in the middle), then exponent and mantissa,
    counted downwards on the negative side.  [NaN] has no place. *)
Definition place (x : spec_float) : option (Z * Z * Z) :=
  match x with
  | S754_nan => None
  | S754_infinity false => Some (2, 0, 0)
  | S754_infinity true => Some (-2, 0, 0)
  | S754_zero _ => Some (0, 0, 0)
  | S754_finite false m e => Some (1, e, Z.pos m)
  | S754_finite true m e => Some (-1, - e, Z.neg m)
  end.

Definition before (p q : Z * Z * Z) : Prop :=
  let '(a, b, c) := p in
  let '(a', b', c') := q in
  a < a' \/ (a = a' /\ (b < b' \/ (b = b' /\ c < c'))).

Definition placed (x : float) : Prop := PrimFloat.is_nan x = false.

Lemma SFcompare_place x y :
  SFcompare x y =
  match place x, place y with
  | Some (a, b, c), Some (a', b', c') =>
      Some match a ?= a' with
           | Eq => match b ?= b' with Eq => c ?= c' | r => r end
           | r => r
           end
  | _, _ => None
  end.
Proof.
  destruct x as [[] | [] | | [] m e], y as [[] | [] | | [] m' e']; try reflexivity; cbn.
  rewrite Z.compare_opp, (Z.compare_antisym e e').
  now destruct (e ?= e').
Qed.

Lemma SFltb_before x y p q :
  place x = Some p -> place y = Some q -> (SFltb x y = true <-> before p q).
Proof.
  intros Hx Hy; unfold SFltb; rewrite SFcompare_place, Hx, Hy.
  destruct p as [[a b] c], q as [[a' b'] c']; unfold before.
  destruct (Z.compare_spec a a'), (Z.compare_spec b b'), (Z.compare_spec c c');
    split; intros Hb; try discriminate; try reflexivity; lia.
Qed.

Lemma SFeqb_place x y p q :
  place x = Some p -> place y = Some q -> (SFeqb x y = true <-> p = q).
Proof.
  intros Hx Hy; unfold SFeqb; rewrite SFcompare_place, Hx, Hy.
  destruct p as [[a b] c], q as [[a' b'] c'].
  destruct (Z.compare_spec a a'), (Z.compare_spec b b'), (Z.compare_spec c c');
    split; intros Hb; try discriminate; try reflexivity;
    try (inversion Hb; lia); subst; reflexivity.
Qed.

Lemma placed_place x : placed x -> exists p, place (Prim2SF x) = Some p.
Proof.
  unfold placed, PrimFloat.is_nan; intros H.
  rewrite FloatAxioms.eqb_spec in H; unfold SFeqb in H.
  destruct (Prim2SF x) as [[] | [] | | [] m e]; cbn in *; try discriminate; eauto.
Qed.

Lemma before_irrefl p : ~ before p p.
Proof. destruct p as [[a b] c]; unfold before; lia. Qed.

Lemma before_trans p q r : before p q -> before q r -> before p r.
Proof. destruct p as [[? ?] ?], q as [[? ?] ?], r as [[? ?] ?]; unfold before; lia. Qed.

Lemma before_total p q : before p q \/ p = q \/ before q p.
Proof.
  destruct p as [[a b] c], q as [[a' b'] c']; unfold before.
  destruct (Z.lt_total a a') as [? | [-> | ?]]; [lia | | lia].
  destruct (Z.lt_total b b') as [? | [-> | ?]]; [lia | | lia].
  destruct (Z.lt_total c c') as [? | [-> | ?]]; [lia | | lia].
  auto.
Qed.

Lemma ltb_irrefl x : (x <? x)%float = false.
Proof.
  rewrite FloatAxioms.ltb_spec; unfold SFltb; rewrite SFcompare_place.
  destruct (place (Prim2SF x)) as [[[a b] c] |]; [| reflexivity].
  now rewrite !Z.compare_refl.
Qed.

Lemma ltb_trans x y z :
  placed x -> placed y -> placed z ->
  (x <? y)%float = true -> (y <? z)%float = true -> (x <? z)%float = true.
Proof.
  intros (p & Hp)%placed_place (q & Hq)%placed_place (r & Hr)%placed_place.
  rewrite !FloatAxioms.ltb_spec, (SFltb_before _ _ _ _ Hp Hq), (SFltb_before _ _ _ _ Hq Hr),
    (SFltb_before _ _ _ _ Hp Hr).
  apply before_trans.
Qed.

Lemma ltb_cotrans x y z :
  placed x -> placed y -> placed z ->
  (x <? z)%float = true -> (x <? y)%float = true \/ (y <? z)%float = true.
Proof.
  intros (p & Hp)%placed_place (q & Hq)%placed_place (r & Hr)%placed_place.
  rewrite !FloatAxioms.ltb_spec, (SFltb_before _ _ _ _ Hp Hq), (SFltb_before _ _ _ _ Hq Hr),
    (SFltb_before _ _ _ _ Hp Hr).
  intros Hpr; destruct (before_total p q) as [? | [-> | Hqp]]; auto.
  right; eapply before_trans; eauto.
Qed.

(** Two numbers neither of which is below the other are equal. *)
Lemma eqb_neither x y :
  placed x -> placed y ->
  (x =? y)%float = negb (x <? y)%float && negb (y <? x)%float.
Proof.
  intros (p & Hp)%placed_place (q & Hq)%placed_place.
  apply eq_true_iff_eq.
  rewrite andb_true_iff, !negb_true_iff, <- !not_true_iff_false.
  rewrite FloatAxioms.eqb_spec, !FloatAxioms.ltb_spec, (SFeqb_place _ _ _ _ Hp Hq),
    (SFltb_before _ _ _ _ Hp Hq), (SFltb_before _ _ _ _ Hq Hp).
  split.
  - intros ->; split; apply before_irrefl.
  - intros [H1 H2]; destruct (before_total p q) as [? | [? | ?]]; tauto.
Qed.

(** ** Subtraction

    [b - a] is positive exactly when [a] is below [b]: the difference of
    two doubles never rounds to zero. *)

Abbreviation digits m := (Z.pos (digits2_pos m)).

Lemma digits_bounds m : 2 ^ (digits m - 1) <= Z.pos m < 2 ^ digits m.
Proof.
  induction m as [p IH | p IH |]; cbn [digits2_pos].
  - rewrite Pos2Z.inj_succ, Pos2Z.inj_xI.
    replace (Z.succ (digits p) - 1) with (Z.succ (digits p - 1)) by lia.
    rewrite !Z.pow_succ_r by lia.
    set (u := 2 ^ (digits p - 1)) in *; set (v := 2 ^ digits p) in *; clearbody u v; lia.
  - rewrite Pos2Z.inj_succ, (Pos2Z.inj_xO p).
    replace (Z.succ (digits p) - 1) with (Z.succ (digits p - 1)) by lia.
    rewrite !Z.pow_succ_r by lia.
    set (u := 2 ^ (digits p - 1)) in *; set (v := 2 ^ digits p) in *; clearbody u v; lia.
  - cbn; lia.
Qed.

(** A canonical mantissa for its exponent, in the binary64 format. *)
Definition canonical (m : positive) (e : Z) : Prop :=
  Z.max (digits m + e - 53) (-1074) = e /\ e <= 971.

Lemma valid_canonical s m e :
  valid_binary (S754_finite s m e) = true -> canonical m e.
Proof.
  cbn; unfold bounded, canonical_mantissa, fexp, canonical.
  intros [H1 H2]%andb_true_iff; apply Z.eqb_eq in H1; apply Z.leb_le in H2.
  exact (conj H1 H2).
Qed.

Lemma iter_xO m d : Z.pos (Pos.iter xO m d) = Z.pos m * 2 ^ Z.pos d.
Proof.
  induction d as [| d IH] using Pos.peano_ind.
  - cbn; lia.
  - rewrite Pos.iter_succ, Pos2Z.inj_xO, IH, Pos2Z.inj_succ, Z.pow_succ_r by lia; lia.
Qed.

Lemma shl_align_value m e e' :
  e' <= e -> Z.pos (fst (shl_align m e e')) = Z.pos m * 2 ^ (e - e').
Proof.
  intros He; unfold shl_align.
  destruct (e' - e) as [| d | d] eqn:Hd; cbn [fst]; try lia.
  - replace (e - e') with 0 by lia; lia.
  - rewrite iter_xO; f_equal; f_equal; lia.
Qed.

Lemma shr_1_m mrs : 0 <= shr_m mrs -> shr_m (shr_1 mrs) = shr_m mrs / 2.
Proof.
  destruct mrs as [[| [p | p |] | p] r s]; cbn [shr_m shr_1]; intros H; try lia.
  - reflexivity.
  - rewrite Pos2Z.inj_xI, Z.mul_comm, Z.div_add_l by lia; reflexivity.
  - rewrite (Pos2Z.inj_xO p), Z.mul_comm, Z.div_mul by lia; reflexivity.
  - reflexivity.
Qed.

Lemma iter_shr_m p : forall mrs,
  0 <= shr_m mrs -> shr_m (SpecFloat.iter_pos shr_1 p mrs) = shr_m mrs / 2 ^ Z.pos p.
Proof.
  induction p as [p IH | p IH |]; intros mrs Hm; cbn [SpecFloat.iter_pos].
  - assert (H1 : 0 <= shr_m (shr_1 mrs)) by (rewrite shr_1_m by assumption; apply Z.div_pos; lia).
    assert (H2 : 0 <= shr_m (SpecFloat.iter_pos shr_1 p (shr_1 mrs)))
      by (rewrite IH by assumption; apply Z.div_pos; [| apply Z.pow_pos_nonneg]; lia).
    rewrite IH, IH, shr_1_m by assumption.
    rewrite !Z.div_div by (try apply Z.pow_pos_nonneg; lia).
    f_equal; rewrite Pos2Z.inj_xI, Z.pow_add_r, Z.pow_mul_r, Z.pow_1_r by lia.
    replace (2 ^ 2) with 4 by reflexivity.
    replace (4 ^ Z.pos p) with (2 ^ Z.pos p * 2 ^ Z.pos p); [lia |].
    rewrite <- Z.pow_mul_l; reflexivity.
  - assert (H2 : 0 <= shr_m (SpecFloat.iter_pos shr_1 p mrs))
      by (rewrite IH by assumption; apply Z.div_pos; [| apply Z.pow_pos_nonneg]; lia).
    rewrite IH, IH by assumption.
    rewrite !Z.div_div by (try apply Z.pow_pos_nonneg; lia).
    f_equal; rewrite (Pos2Z.inj_xO p), Z.pow_mul_r by lia.
    replace (2 ^ 2) with 4 by reflexivity.
    rewrite <- Z.pow_mul_l; reflexivity.
  - rewrite shr_1_m by assumption; reflexivity.
Qed.

Lemma shr_record_of_loc_m m l : shr_m (shr_record_of_loc m l) = m.
Proof. now destruct l as [| []]. Qed.

Lemma shr_fexp_pos m e l :
  -1074 <= e ->
  0 < shr_m (fst (shr_fexp prec emax (Z.pos m) e l))
  /\ -1074 <= snd (shr_fexp prec emax (Z.pos m) e l).
Proof.
  intros He; unfold shr_fexp, shr, fexp, SpecFloat.emin, prec, emax; cbn [Zdigits2].
  destruct (Z.max (digits m + e - 53) (3 - 1024 - 53) - e) as [| p | p] eqn:Hn;
    cbn [fst snd]; rewrite ?shr_record_of_loc_m; try lia.
  rewrite iter_shr_m by (rewrite shr_record_of_loc_m; lia).
  rewrite shr_record_of_loc_m; split; [| lia].
  apply Z.div_str_pos; split; [apply Z.pow_pos_nonneg; lia |].
  etransitivity; [| apply (digits_bounds m)].
  apply Z.pow_le_mono_r; lia.
Qed.

Lemma round_nearest_even_ge m l : m <= round_nearest_even m l.
Proof. destruct l as [| []]; cbn; try lia; destruct (Z.even m); lia. Qed.

(** Rounding a positive number gives a positive number. *)
Lemma binary_round_aux_pos s m e l :
  -1074 <= e ->
  (exists m' e', binary_round_aux prec emax s (Z.pos m) e l = S754_finite s m' e')
  \/ binary_round_aux prec emax s (Z.pos m) e l = S754_infinity s.
Proof.
  intros He; unfold binary_round_aux.
  pose proof (shr_fexp_pos m e l He) as [Hm1 He1].
  destruct (shr_fexp prec emax (Z.pos m) e l) as [mrs1 e1]; cbn [fst snd] in *.
  pose proof (round_nearest_even_ge (shr_m mrs1) (loc_of_shr_record mrs1)) as Hr.
  destruct (round_nearest_even (shr_m mrs1) (loc_of_shr_record mrs1)) as [| m2 | m2]; try lia.
  pose proof (shr_fexp_pos m2 e1 loc_Exact He1) as [Hm2 He2].
  destruct (shr_fexp prec emax (Z.pos m2) e1 loc_Exact) as [mrs2 e2]; cbn [fst snd] in *.
  destruct (shr_m mrs2) as [| m3 | m3]; try lia.
  destruct (e2 <=? emax - prec); eauto.
Qed.

Lemma binary_round_pos s m e :
  -1074 <= e ->
  (exists m' e', binary_round prec emax s m e = S754_finite s m' e')
  \/ binary_round prec emax s m e = S754_infinity s.
Proof.
  intros He; unfold binary_round, shl_align.
  destruct (fexp prec emax (digits m + e) - e) eqn:Hn; apply binary_round_aux_pos; try lia.
  unfold fexp, SpecFloat.emin, prec, emax; lia.
Qed.

(** Aligned mantissas compare as the numbers do. *)
Lemma canonical_aligned_lt m e m' e' :
  canonical m e -> canonical m' e' -> e < e' -> Z.pos m < Z.pos m' * 2 ^ (e' - e).
Proof.
  intros [Hc _] [Hc' _] Hlt.
  pose proof (digits_bounds m) as [_ Hm].
  pose proof (digits_bounds m') as [Hm' _].
  assert (Hd : digits m <= 53) by lia.
  assert (Hd' : digits m' = 53) by lia.
  rewrite Hd' in Hm'.
  assert (Z.pos m < 2 ^ 53)
    by (eapply Z.lt_le_trans; [exact Hm | apply Z.pow_le_mono_r; lia]).
  assert (2 ^ 1 <= 2 ^ (e' - e)) by (apply Z.pow_le_mono_r; lia).
  change (2 ^ 1) with 2 in *; change (2 ^ (53 - 1)) with 4503599627370496 in *.
  change (2 ^ 53) with 9007199254740992 in *.
  set (k := 2 ^ (e' - e)) in *; clearbody k; nia.
Qed.

Lemma aligned_order m e m' e' :
  canonical m e -> canonical m' e' ->
  (Z.pos m * 2 ^ (e - Z.min e' e) < Z.pos m' * 2 ^ (e' - Z.min e' e)
   <-> e < e' \/ (e = e' /\ Z.pos m < Z.pos m')).
Proof.
  intros Hc Hc'.
  destruct (Z.lt_total e e') as [Hlt | [-> | Hgt]].
  - rewrite Z.min_r, Z.sub_diag, Z.mul_1_r by lia.
    pose proof (canonical_aligned_lt m e m' e' Hc Hc' Hlt); intuition lia.
  - rewrite Z.min_id, Z.sub_diag, !Z.mul_1_r; intuition lia.
  - rewrite Z.min_l, Z.sub_diag, Z.mul_1_r by lia.
    pose proof (canonical_aligned_lt m' e' m e Hc' Hc Hgt); intuition lia.
Qed.

Lemma SFltb_zero_normalize d e :
  -1074 <= e ->
  SFltb (S754_zero false) (binary_normalize prec emax d e false) = (0 <? d).
Proof.
  intros He; destruct d as [| p | p]; cbn [binary_normalize]; try reflexivity.
  - destruct (binary_round_pos false p e He) as [(m' & e' & ->) | ->]; reflexivity.
  - destruct (binary_round_pos true p e He) as [(m' & e' & ->) | ->]; reflexivity.
Qed.

Lemma SFsub_pos x y :
  valid_binary x = true -> valid_binary y = true ->
  x <> S754_nan -> y <> S754_nan ->
  SFltb (S754_zero false) (SF64sub y x) = SFltb x y.
Proof.
  intros Hx Hy Hnx Hny.
  destruct x as [[] | [] | | s m e], y as [[] | [] | | s' m' e'];
    try reflexivity; try congruence; try (now destruct s); try (now destruct s').
  apply valid_canonical in Hx, Hy.
  unfold SF64sub, SFsub.
  rewrite SFltb_zero_normalize by (destruct Hx, Hy; lia).
  rewrite !shl_align_value by lia.
  apply eq_true_iff_eq; rewrite Z.ltb_lt.
  pose proof (aligned_order m e m' e' Hx Hy) as H1.
  pose proof (aligned_order m' e' m e Hy Hx) as H2.
  rewrite (Z.min_comm e e') in H2.
  assert (0 < Z.pos m * 2 ^ (e - Z.min e' e))
    by (apply Z.mul_pos_pos; [| apply Z.pow_pos_nonneg]; lia).
  assert (0 < Z.pos m' * 2 ^ (e' - Z.min e' e))
    by (apply Z.mul_pos_pos; [| apply Z.pow_pos_nonneg]; lia).
  set (A := Z.pos m * 2 ^ (e - Z.min e' e)) in *.
  set (A' := Z.pos m' * 2 ^ (e' - Z.min e' e)) in *.
  clearbody A A'.
  destruct s, s';
    (erewrite SFltb_before by (cbn [place]; reflexivity));
    cbn [cond_Zopp before]; lia.
Qed.

Lemma Prim2SF_placed x : PrimFloat.is_nan x = false -> Prim2SF x <> S754_nan.
Proof.
  unfold PrimFloat.is_nan; rewrite FloatAxioms.eqb_spec; intros H Hn.
  rewrite Hn in H; discriminate.
Qed.

(** The comparator [(a, b) => b - a] is positive exactly when [a < b]. *)
Lemma sub_pos x y :
  PrimFloat.is_nan x = false -> PrimFloat.is_nan y = false ->
  (0 <? y - x)%float = (x <? y)%float.
Proof.
  intros Hx Hy.
  rewrite !FloatAxioms.ltb_spec, sub_spec.
  apply SFsub_pos; auto using Prim2SF_valid, Prim2SF_placed.
Qed.

(** ** Symmetry

    [a - b] and [b - a] have the same magnitude, hence the same square. *)

Lemma SFabs_round_aux s s' m e l :
  SFabs (binary_round_aux prec emax s m e l) = SFabs (binary_round_aux prec emax s' m e l).
Proof.
  unfold binary_round_aux.
  destruct (shr_fexp prec emax m e l) as [mrs1 e1].
  destruct (shr_fexp prec emax _ e1 loc_Exact) as [mrs2 e2].
  destruct (shr_m mrs2); try reflexivity.
  now destruct (e2 <=? emax - prec).
Qed.

Lemma SFabs_round s s' m e :
  SFabs (binary_round prec emax s m e) = SFabs (binary_round prec emax s' m e).
Proof.
  unfold binary_round.
  destruct (shl_align m e _) as [mz ez]; apply SFabs_round_aux.
Qed.

Lemma SFabs_normalize d e :
  SFabs (binary_normalize prec emax d e false) = SFabs (binary_normalize prec emax (- d) e false).
Proof. destruct d; cbn [binary_normalize Z.opp]; try reflexivity; apply SFabs_round. Qed.

Lemma SFabs_sub x y : SFabs (SF64sub x y) = SFabs (SF64sub y x).
Proof.
  destruct x as [[] | [] | | s m e], y as [[] | [] | | s' m' e']; try reflexivity.
  unfold SF64sub, SFsub.
  rewrite (Z.min_comm e' e), SFabs_normalize.
  f_equal; f_equal; lia.
Qed.

Lemma SFmul_abs d : SF64mul d d = SF64mul (SFabs d) (SFabs d).
Proof. now destruct d as [[] | [] | | []]. Qed.

Lemma abs_sub x y : abs (x - y) = abs (y - x).
Proof. apply Prim2SF_inj; rewrite !abs_spec, !sub_spec; apply SFabs_sub. Qed.

Lemma square_sub x y : ((x - y) * (x - y) = (y - x) * (y - x))%float.
Proof.
  apply Prim2SF_inj; rewrite !mul_spec, !sub_spec.
  now rewrite SFmul_abs, SFabs_sub, <- SFmul_abs.
Qed.

(** ** Rounding, bracketed

    Magnitudes are counted in units of [2 ^ -1074], the spacing of the
    smallest doubles: a mantissa [m] at exponent [e] weighs
    [m * 2 ^ (e + 1074)]. *)

Lemma fexp_eq z : fexp prec emax z = Z.max (z - 53) (-1074).
Proof. reflexivity. Qed.

Lemma floor_scale m k :
  0 <= m -> 0 <= k ->
  m / 2 ^ k * 2 ^ k <= m /\ m + 1 <= (m / 2 ^ k + 1) * 2 ^ k.
Proof.
  intros Hm Hk.
  assert (Hp : 0 < 2 ^ k) by (apply Z.pow_pos_nonneg; lia).
  pose proof (Z.div_mod m (2 ^ k) ltac:(lia)) as Hdm.
  pose proof (Z.mod_pos_bound m (2 ^ k) Hp) as Hmod.
  set (q := m / 2 ^ k) in *; set (r := m mod 2 ^ k) in *; set (K := 2 ^ k) in *.
  clearbody q r K; nia.
Qed.

Lemma shr_fexp_spec m e l :
  0 <= m ->
  snd (shr_fexp prec emax m e l) = Z.max e (fexp prec emax (Zdigits2 m + e))
  /\ shr_m (fst (shr_fexp prec emax m e l)) = m / 2 ^ (snd (shr_fexp prec emax m e l) - e).
Proof.
  intros Hm; unfold shr_fexp, shr.
  set (F := fexp prec emax (Zdigits2 m + e)).
  destruct (F - e) as [| p | p] eqn:Hn; cbn [fst snd].
  - rewrite shr_record_of_loc_m, Z.sub_diag, Z.div_1_r; split; lia.
  - rewrite iter_shr_m by (rewrite shr_record_of_loc_m; lia).
    rewrite shr_record_of_loc_m; split; [lia |].
    f_equal; f_equal; lia.
  - rewrite shr_record_of_loc_m, Z.sub_diag, Z.div_1_r; split; lia.
Qed.

Lemma Zdigits2_le m e t :
  0 <= m -> -1074 <= e <= t ->
  m * 2 ^ (e + 1074) < 2 ^ (t + 1074) -> Zdigits2 m + e <= t.
Proof.
  intros Hm He Hlt; destruct m as [| p | p]; cbn [Zdigits2]; try lia.
  pose proof (digits_bounds p) as [Hd _].
  assert (H : 2 ^ (digits p - 1 + (e + 1074)) < 2 ^ (t + 1074)).
  { rewrite Z.pow_add_r by lia.
    eapply Z.le_lt_trans; [| exact Hlt].
    apply Z.mul_le_mono_nonneg_r; [apply Z.pow_nonneg; lia | exact Hd]. }
  apply Z.pow_lt_mono_r_iff in H; lia.
Qed.

Lemma round_nearest_even_le m l : round_nearest_even m l <= m + 1.
Proof. destruct l as [| []]; cbn; try lia; destruct (Z.even m); lia. Qed.

Lemma round_bracket s m e l t :
  0 <= m -> -1074 <= e -> e <= t - 52 -> t - 52 <= 971 ->
  m * 2 ^ (e + 1074) < 2 ^ (t + 1074) ->
  exists M e3,
    binary_round_aux prec emax s m e l
    = match M with
      | Z0 => S754_zero s
      | Zpos m3 => S754_finite s m3 e3
      | Zneg _ => S754_nan
      end
    /\ 0 <= M /\ -1074 <= e3 <= t - 52
    /\ M * 2 ^ (e3 + 1074) <= m * 2 ^ (e + 1074) + 2 ^ (t - 52 + 1074)
    /\ (m + 1) * 2 ^ (e + 1074) <= (M + 1) * 2 ^ (e3 + 1074).
Proof.
  intros Hm He Het Ht Hlt; unfold binary_round_aux.
  pose proof (shr_fexp_spec m e l Hm) as [He1 Hm1].
  destruct (shr_fexp prec emax m e l) as [mrs1 e1]; cbn [fst snd] in *.
  pose proof (Zdigits2_le m e t Hm ltac:(lia) Hlt) as Hd.
  rewrite fexp_eq in He1.
  assert (Hk1 : 0 <= e1 - e) by lia.
  assert (He1t : e1 <= t - 52) by lia.
  destruct (floor_scale m (e1 - e) Hm Hk1) as [Hlo1 Hhi1]; rewrite <- Hm1 in Hlo1, Hhi1.
  assert (Hm1pos : 0 <= shr_m mrs1)
    by (rewrite Hm1; apply Z.div_pos; [lia | apply Z.pow_pos_nonneg; lia]).
  pose proof (round_nearest_even_ge (shr_m mrs1) (loc_of_shr_record mrs1)) as Hr1.
  pose proof (round_nearest_even_le (shr_m mrs1) (loc_of_shr_record mrs1)) as Hr2.
  set (m1 := shr_m mrs1) in *.
  set (m2 := round_nearest_even m1 (loc_of_shr_record mrs1)) in *.
  assert (Hm2 : 0 <= m2) by lia.
  assert (HA : 0 < 2 ^ (e + 1074)) by (apply Z.pow_pos_nonneg; lia).
  assert (HA1 : 2 ^ (e1 + 1074) = 2 ^ (e1 - e) * 2 ^ (e + 1074))
    by (rewrite <- Z.pow_add_r by lia; f_equal; lia).
  assert (HT1 : 2 ^ (e1 + 1074) <= 2 ^ (t - 52 + 1074)) by (apply Z.pow_le_mono_r; lia).
  assert (HTT : 2 * 2 ^ (t - 52 + 1074) <= 2 ^ (t + 1074)).
  { replace (t + 1074) with (52 + (t - 52 + 1074)) by lia.
    rewrite (Z.pow_add_r 2 52) by lia.
    assert (0 < 2 ^ (t - 52 + 1074)) by (apply Z.pow_pos_nonneg; lia).
    change (2 ^ 52) with 4503599627370496; lia. }
  assert (Hm2v : m2 * 2 ^ (e1 + 1074) <= m * 2 ^ (e + 1074) + 2 ^ (e1 + 1074)).
  { rewrite HA1.
    assert (0 < 2 ^ (e1 - e)) by (apply Z.pow_pos_nonneg; lia).
    set (A := 2 ^ (e + 1074)) in *; set (K := 2 ^ (e1 - e)) in *.
    clearbody m1 m2 A K.
    assert (m2 * (K * A) <= (m1 + 1) * (K * A))
      by (apply Z.mul_le_mono_nonneg_r; [apply Z.mul_nonneg_nonneg |]; lia).
    assert (m1 * K * A <= m * A) by (apply Z.mul_le_mono_nonneg_r; lia).
    clear - H0 H1; lia. }
  assert (Hm2lt : m2 * 2 ^ (e1 + 1074) < 2 ^ (t + 1 + 1074)).
  { replace (t + 1 + 1074) with (1 + (t + 1074)) by lia.
    rewrite (Z.pow_add_r 2 1) by lia; change (2 ^ 1) with 2; lia. }
  pose proof (shr_fexp_spec m2 e1 loc_Exact Hm2) as [He3 Hm3].
  destruct (shr_fexp prec emax m2 e1 loc_Exact) as [mrs3 e3]; cbn [fst snd] in *.
  pose proof (Zdigits2_le m2 e1 (t + 1) Hm2 ltac:(lia) Hm2lt) as Hd2.
  rewrite fexp_eq in He3.
  assert (Hk2 : 0 <= e3 - e1) by lia.
  destruct (floor_scale m2 (e3 - e1) Hm2 Hk2) as [Hlo3 Hhi3]; rewrite <- Hm3 in Hlo3, Hhi3.
  assert (HM : 0 <= shr_m mrs3)
    by (rewrite Hm3; apply Z.div_pos; [lia | apply Z.pow_pos_nonneg; lia]).
  assert (HA3 : 2 ^ (e3 + 1074) = 2 ^ (e3 - e1) * 2 ^ (e1 + 1074))
    by (rewrite <- Z.pow_add_r by lia; f_equal; lia).
  exists (shr_m mrs3), e3; split; [| split; [exact HM | split; [lia | split]]].
  - destruct (shr_m mrs3); try reflexivity.
    rewrite (proj2 (Z.leb_le e3 (emax - prec))); [reflexivity | unfold emax, prec; lia].
  - rewrite HA3.
    assert (0 < 2 ^ (e1 + 1074)) by (apply Z.pow_pos_nonneg; lia).
    set (M := shr_m mrs3) in *; set (A1 := 2 ^ (e1 + 1074)) in *.
    set (K2 := 2 ^ (e3 - e1)) in *; set (A := 2 ^ (e + 1074)) in *.
    set (T := 2 ^ (t - 52 + 1074)) in *.
    clearbody M A1 K2 A T m1 m2.
    assert (M * K2 * A1 <= m2 * A1) by (apply Z.mul_le_mono_nonneg_r; lia).
    clear - H0 Hm2v HT1; lia.
  - rewrite HA3, HA1.
    assert (0 < 2 ^ (e1 - e)) by (apply Z.pow_pos_nonneg; lia).
    assert (0 < 2 ^ (e3 - e1)) by (apply Z.pow_pos_nonneg; lia).
    set (M := shr_m mrs3) in *; set (K1 := 2 ^ (e1 - e)) in *.
    set (K2 := 2 ^ (e3 - e1)) in *; set (A := 2 ^ (e + 1074)) in *.
    clearbody M K1 K2 A m1 m2.
    assert (Hs1 : (m + 1) * A <= (m1 + 1) * K1 * A)
      by (apply Z.mul_le_mono_nonneg_r; lia).
    assert (Hs2 : (m1 + 1) * (K1 * A) <= (m2 + 1) * (K1 * A))
      by (apply Z.mul_le_mono_nonneg_r; [apply Z.mul_nonneg_nonneg |]; lia).
    assert (Hs3 : (m2 + 1) * (K1 * A) <= (M + 1) * K2 * (K1 * A))
      by (apply Z.mul_le_mono_nonneg_r; [apply Z.mul_nonneg_nonneg |]; lia).
    clear - Hs1 Hs2 Hs3; lia.
Qed.

(** The weight of a double: its value in units of [2 ^ -1074]. *)
Definition weight (x : spec_float) : Z :=
  match x with
  | S754_finite s m e => cond_Zopp s (Z.pos m * 2 ^ (e + 1074))
  | _ => 0
  end.

(** Zero or finite. *)
Definition ordinary (x : spec_float) : Prop :=
  match x with
  | S754_zero _ | S754_finite _ _ _ => True
  | _ => False
  end.

Lemma shiftl_scaled z e : -1074 <= e -> Z.shiftl z e = z * 2 ^ (e + 1074) / 2 ^ 1074.
Proof.
  intros He; destruct (Z_lt_le_dec e 0) as [Hneg | Hpos].
  - rewrite Z.shiftl_div_pow2 by lia.
    replace (2 ^ 1074) with (2 ^ (- e) * 2 ^ (e + 1074))
      by (rewrite <- Z.pow_add_r by lia; f_equal; lia).
    rewrite Z.div_mul_cancel_r; [reflexivity | |]; apply Z.pow_nonzero; lia.
  - rewrite Z.shiftl_mul_pow2, Z.pow_add_r, Z.mul_assoc by lia.
    rewrite Z.div_mul; [reflexivity | apply Z.pow_nonzero; lia].
Qed.

Lemma cond_Zopp_mul s a b : cond_Zopp s a * b = cond_Zopp s (a * b).
Proof. destruct s; cbn; lia. Qed.

Lemma floorText_weight x :
  ordinary (Prim2SF x) ->
  Number.floorText x = Number.TextInteger (weight (Prim2SF x) / 2 ^ 1074).
Proof.
  unfold Number.floorText; pose proof (Prim2SF_valid x) as Hv.
  destruct (Prim2SF x) as [s | s | | s m e]; cbn [ordinary weight]; try contradiction; intros _.
  - now rewrite Z.div_0_l by (apply Z.pow_nonzero; lia).
  - apply valid_canonical in Hv as [Hc _].
    rewrite shiftl_scaled, cond_Zopp_mul by lia; reflexivity.
Qed.

(** Of magnitude at most [2 ^ 20]. *)
Definition moderate (x : float) : Prop := (abs x <=? 1048576)%float = true.

Definition small (x : spec_float) : Prop :=
  match x with
  | S754_zero _ => True
  | S754_finite _ m e => e <= -32 /\ Z.pos m * 2 ^ (e + 1074) <= 2 ^ (20 + 1074)
  | _ => False
  end.

Lemma SFleb_before x y p q :
  place x = Some p -> place y = Some q -> (SFleb x y = true <-> ~ before q p).
Proof.
  intros Hx Hy; unfold SFleb; rewrite SFcompare_place, Hx, Hy.
  destruct p as [[a b] c], q as [[a' b'] c']; unfold before.
  destruct (Z.compare_spec a a'), (Z.compare_spec b b'), (Z.compare_spec c c');
    split; intros Hb; try discriminate; try reflexivity; lia.
Qed.

Lemma pow_split a b : 0 <= a -> 0 <= b -> 2 ^ (a + b) = 2 ^ a * 2 ^ b.
Proof. intros; apply Z.pow_add_r; assumption. Qed.

Lemma moderate_small x : moderate x -> small (Prim2SF x).
Proof.
  unfold moderate; rewrite FloatAxioms.leb_spec, FloatAxioms.abs_spec.
  change (Prim2SF 1048576) with (S754_finite false 4503599627370496 (-32)).
  pose proof (Prim2SF_valid x) as Hv.
  destruct (Prim2SF x) as [s | s | | s m e]; cbn [small SFabs]; auto;
    try (intros H; discriminate H).
  apply valid_canonical in Hv as [Hc _].
  rewrite (SFleb_before (S754_finite false m e) (S754_finite false 4503599627370496 (-32))
             (1, e, Z.pos m) (1, -32, 4503599627370496) eq_refl eq_refl).
  unfold before; intros Hle.
  pose proof (digits_bounds m) as [_ Hm].
  assert (Hd : Z.pos m < 2 ^ 53)
    by (eapply Z.lt_le_trans; [exact Hm | apply Z.pow_le_mono_r; lia]).
  split; [lia |].
  destruct (Z.eq_dec e (-32)) as [He | He].
  - assert (Hm52 : Z.pos m <= 2 ^ 52) by (change (2 ^ 52) with 4503599627370496; lia).
    clear Hle Hd Hm Hc.
    replace (20 + 1074) with (52 + (e + 1074)) by lia.
    rewrite (pow_split 52) by lia.
    apply Z.mul_le_mono_nonneg_r; [apply Z.pow_nonneg; lia | exact Hm52].
  - assert (He' : e + 1074 <= -33 + 1074) by lia.
    clear Hle Hm Hc He.
    replace (20 + 1074) with (53 + (-33 + 1074)) by lia.
    rewrite (pow_split 53) by lia.
    apply Z.mul_le_mono_nonneg; [lia | lia | apply Z.pow_nonneg; lia |].
    apply Z.pow_le_mono_r; lia.
Qed.

(** *** Division by the grid size *)

Definition twenty : spec_float := S754_finite false 5629499534213120 (-48).

Lemma SFdiv_core_20 m e :
  -1074 <= e <= -32 ->
  Z.pos m * 2 ^ (e + 1074) <= 2 ^ (20 + 1074) ->
  exists q e' l,
    SFdiv_core_binary prec emax (Z.pos m) e 5629499534213120 (-48) = (q, e', l)
    /\ 0 <= q /\ -1074 <= e' <= -36
    /\ q * 2 ^ (e' + 1074) < 2 ^ (16 + 1074)
    /\ 20 * (q * 2 ^ (e' + 1074)) <= Z.pos m * 2 ^ (e + 1074)
    /\ Z.pos m * 2 ^ (e + 1074) < 20 * ((q + 1) * 2 ^ (e' + 1074)).
Proof.
  intros He Hw; unfold SFdiv_core_binary.
  change (Zdigits2 5629499534213120) with 53; cbn [Zdigits2].
  rewrite fexp_eq.
  assert (Hd : digits m + e <= 21).
  { apply (Zdigits2_le (Z.pos m) e 21); [lia | lia |].
    eapply Z.le_lt_trans; [exact Hw | apply Z.pow_lt_mono_r; lia]. }
  set (e' := Z.min (Z.max (digits m + e - (53 + -48) - 53) (-1074)) (e - -48)).
  assert (He' : -1074 <= e' <= -36) by (unfold e'; lia).
  assert (Hs : 0 <= e - -48 - e') by (unfold e'; lia).
  set (m' := match e - -48 - e' with
             | Z0 => Z.pos m
             | Zpos _ => Z.shiftl (Z.pos m) (e - -48 - e')
             | Zneg _ => 0
             end).
  assert (Hm' : m' = Z.pos m * 2 ^ (e - -48 - e')).
  { unfold m'; destruct (e - -48 - e') as [| p | p] eqn:Hsv; try lia.
    rewrite Z.shiftl_mul_pow2 by lia; reflexivity. }
  clearbody m'.
  pose proof (Z_div_mod m' 5629499534213120 ltac:(lia)) as Hdm.
  destruct (Z.div_eucl m' 5629499534213120) as [q r].
  exists q, e', (new_location 5629499534213120 r).
  split; [reflexivity |].
  destruct Hdm as [Hdm Hr].
  assert (HS : 0 < 2 ^ (e - -48 - e')) by (apply Z.pow_pos_nonneg; lia).
  assert (HA : 0 < 2 ^ (e' + 1074)) by (apply Z.pow_pos_nonneg; lia).
  assert (Hq : 0 <= q) by nia.
  assert (Hsplit : 2 ^ (e + 1074) * 2 ^ 48 = 2 ^ (e - -48 - e') * 2 ^ (e' + 1074)).
  { rewrite <- !Z.pow_add_r by lia; f_equal; lia. }
  assert (H16 : 2 ^ (20 + 1074) = 16 * 2 ^ (16 + 1074)).
  { replace (20 + 1074) with (4 + (16 + 1074)) by lia.
    rewrite (Z.pow_add_r 2 4) by lia; reflexivity. }
  assert (H20 : 5629499534213120 = 20 * 2 ^ 48) by reflexivity.
  assert (HP : 0 < 2 ^ 48) by reflexivity.
  assert (HT : 0 < 2 ^ (16 + 1074)) by (apply Z.pow_pos_nonneg; lia).
  set (P := 2 ^ 48) in *; set (K := 2 ^ (e - -48 - e')) in *.
  set (A := 2 ^ (e' + 1074)) in *; set (W := Z.pos m * 2 ^ (e + 1074)) in *.
  set (T := 2 ^ (16 + 1074)) in *.
  assert (HW : W * P = m' * A) by (unfold W; rewrite Hm'; nia).
  set (B := 2 ^ (20 + 1074)) in *.
  clearbody P K A W T B.
  assert (Hlo : 20 * (q * A) <= W) by nia.
  assert (Hhi : W < 20 * ((q + 1) * A)) by nia.
  repeat split; try lia; nia.
Qed.

Lemma weight_of_round s M e3 :
  weight match M with
         | Z0 => S754_zero s
         | Zpos m3 => S754_finite s m3 e3
         | Zneg _ => S754_nan
         end
  = cond_Zopp s (Z.max M 0 * 2 ^ (e3 + 1074)).
Proof. destruct M, s; reflexivity. Qed.

Lemma ordinary_of_round s M e3 :
  0 <= M ->
  ordinary match M with
           | Z0 => S754_zero s
           | Zpos m3 => S754_finite s m3 e3
           | Zneg _ => S754_nan
           end.
Proof. destruct M; cbn; [auto | auto | lia]. Qed.

(** The quotient by 20 of a small double is within [20 * 2 ^ -36] of
    a twentieth of it. *)
Lemma div20_bracket x :
  valid_binary x = true -> small x ->
  ordinary (SF64div x twenty)
  /\ Z.abs (20 * weight (SF64div x twenty) - weight x) <= 20 * 2 ^ 1038.
Proof.
  intros Hv Hsmall.
  assert (HT : 0 < 2 ^ 1038) by (apply Z.pow_pos_nonneg; lia).
  destruct x as [s | s | | s m e]; cbn [small] in Hsmall; try contradiction.
  - cbn; split; [auto | lia].
  - destruct Hsmall as [He Hw].
    apply valid_canonical in Hv as [Hc _].
    destruct (SFdiv_core_20 m e ltac:(lia) Hw)
      as (q & e' & l & Hcore & Hq & He' & Hlt & Hlo & Hhi).
    unfold SF64div, SFdiv, twenty; rewrite Hcore.
    destruct (round_bracket (xorb s false) q e' l 16 Hq ltac:(lia) ltac:(lia) ltac:(lia) Hlt)
      as (M & e3 & -> & HM & He3 & HU & HL).
    split; [now apply ordinary_of_round |].
    rewrite weight_of_round, xorb_false_r, Z.max_l by assumption.
    change (16 - 52 + 1074) with 1038 in HU.
    assert (HA3 : 2 ^ (e3 + 1074) <= 2 ^ 1038) by (apply Z.pow_le_mono_r; lia).
    cbn [weight].
    set (W := Z.pos m * 2 ^ (e + 1074)) in *; set (A := 2 ^ (e' + 1074)) in *.
    set (A3 := 2 ^ (e3 + 1074)) in *; set (T := 2 ^ 1038) in *.
    clearbody W A A3 T.
    destruct s; cbn [cond_Zopp]; nia.
Qed.

(** *** Subtraction *)

Lemma shl_align_snd m e e' : snd (shl_align m e e') = Z.min e e'.
Proof. unfold shl_align; destruct (e' - e) eqn:H; cbn [snd]; lia. Qed.

Lemma shl_align_weight m e e' :
  -1074 <= e' ->
  Z.pos (fst (shl_align m e e')) * 2 ^ (snd (shl_align m e e') + 1074)
  = Z.pos m * 2 ^ (e + 1074).
Proof.
  intros He'; unfold shl_align.
  destruct (e' - e) as [| d | d] eqn:H; cbn [fst snd]; try reflexivity.
  rewrite iter_xO, <- Z.mul_assoc, <- Z.pow_add_r by lia.
  f_equal; f_equal; lia.
Qed.

Lemma binary_round_bracket s m e t :
  -1074 <= e -> e <= t -> t - 52 <= 971 -> -1074 <= t - 52 ->
  Z.pos m * 2 ^ (e + 1074) < 2 ^ (t + 1074) ->
  ordinary (binary_round prec emax s m e)
  /\ Z.abs (weight (binary_round prec emax s m e))
     <= Z.pos m * 2 ^ (e + 1074) + 2 ^ (t - 52 + 1074).
Proof.
  intros He Het Ht Ht' Hlt; unfold binary_round.
  pose proof (shl_align_snd m e (fexp prec emax (digits m + e))) as Hsnd.
  pose proof (shl_align_weight m e (fexp prec emax (digits m + e))) as Hw.
  pose proof (Zdigits2_le (Z.pos m) e t ltac:(lia) ltac:(lia) Hlt) as Hd.
  cbn [Zdigits2] in Hd; rewrite fexp_eq in *.
  destruct (shl_align m e _) as [mz ez]; cbn [fst snd] in *.
  specialize (Hw ltac:(lia)).
  destruct (round_bracket s (Z.pos mz) ez loc_Exact t ltac:(lia) ltac:(lia) ltac:(lia) Ht
              ltac:(rewrite Hw; exact Hlt))
    as (M & e3 & -> & HM & He3 & HU & _).
  split; [now apply ordinary_of_round |].
  rewrite weight_of_round, Z.max_l, <- Hw by assumption.
  assert (0 <= M * 2 ^ (e3 + 1074)) by (apply Z.mul_nonneg_nonneg; [| apply Z.pow_nonneg]; lia).
  destruct s; cbn [cond_Zopp]; lia.
Qed.

(** The difference of two small doubles that are less than 32 apart is
    within [2 ^ -47] of their difference. *)
Lemma sub_bracket x y :
  valid_binary x = true -> valid_binary y = true -> small x -> small y ->
  Z.abs (weight y - weight x) < 2 ^ (5 + 1074) ->
  ordinary (SF64sub y x)
  /\ Z.abs (weight (SF64sub y x)) <= Z.abs (weight y - weight x) + 2 ^ 1027.
Proof.
  intros Hvx Hvy Hx Hy Hnear.
  assert (HT : 0 < 2 ^ 1027) by (apply Z.pow_pos_nonneg; lia).
  destruct x as [sx | sx | | sx mx ex], y as [sy | sy | | sy my ey];
    cbn [small] in Hx, Hy; try contradiction.
  - split; [now destruct sx, sy | destruct sx, sy; cbn; lia].
  - split; [exact I | cbn [SF64sub SFsub weight] in *; lia].
  - split; [exact I |]. cbn [SF64sub SFsub weight] in *.
    destruct sx; cbn [negb cond_Zopp]; lia.
  - apply valid_canonical in Hvx as [Hcx _], Hvy as [Hcy _].
    destruct Hx as [Hex Hwx], Hy as [Hey Hwy].
    unfold SF64sub, SFsub.
    assert (Hez : -1074 <= Z.min ey ex <= -32) by lia.
    set (ez := Z.min ey ex) in *.
    set (d := cond_Zopp sy (Z.pos (fst (shl_align my ey ez)))
              - cond_Zopp sx (Z.pos (fst (shl_align mx ex ez)))).
    assert (Hd : d * 2 ^ (ez + 1074)
                 = weight (S754_finite sy my ey) - weight (S754_finite sx mx ex)).
    { unfold d; cbn [weight].
      rewrite Z.mul_sub_distr_r, !cond_Zopp_mul.
      pose proof (shl_align_weight my ey ez ltac:(lia)) as Hay.
      pose proof (shl_align_weight mx ex ez ltac:(lia)) as Hax.
      rewrite shl_align_snd in Hay, Hax.
      rewrite Z.min_r in Hay by (unfold ez; lia).
      rewrite Z.min_r in Hax by (unfold ez; lia).
      now rewrite Hay, Hax. }
    rewrite <- Hd in *; clearbody d.
    destruct d as [| p | p]; cbn [binary_normalize].
    + split; [exact I | cbn; lia].
    + destruct (binary_round_bracket false p ez 5 ltac:(lia) ltac:(lia) ltac:(lia) ltac:(lia)
                  ltac:(lia)) as [Hord Hb].
      split; [exact Hord |].
      change (5 - 52 + 1074) with 1027 in Hb; lia.
    + assert (Hp : Z.abs (Z.neg p * 2 ^ (ez + 1074)) = Z.pos p * 2 ^ (ez + 1074)).
      { rewrite Z.abs_mul; f_equal; apply Z.abs_eq, Z.pow_nonneg; lia. }
      rewrite Hp in *.
      destruct (binary_round_bracket true p ez 5 ltac:(lia) ltac:(lia) ltac:(lia) ltac:(lia)
                  Hnear) as [Hord Hb].
      split; [exact Hord |].
      change (5 - 52 + 1074) with 1027 in Hb; lia.
Qed.

(** *** The comparison with 50 *)

Definition fifty : spec_float := S754_finite false 7036874417766400 (-47).

Lemma aligned_weight_order m e m' e' :
  canonical m e -> canonical m' e' ->
  (Z.pos m * 2 ^ (e + 1074) < Z.pos m' * 2 ^ (e' + 1074)
   <-> e < e' \/ (e = e' /\ Z.pos m < Z.pos m')).
Proof.
  intros Hc Hc'; rewrite <- (aligned_order m e m' e' Hc Hc').
  destruct Hc as [Hc _], Hc' as [Hc' _].
  set (ez := Z.min e' e).
  assert (Hz : 0 < 2 ^ (ez + 1074)) by (apply Z.pow_pos_nonneg; unfold ez; lia).
  replace (e + 1074) with (e - ez + (ez + 1074)) by lia.
  replace (e' + 1074) with (e' - ez + (ez + 1074)) by lia.
  rewrite (Z.pow_add_r 2 (e - ez)), (Z.pow_add_r 2 (e' - ez)) by (unfold ez; lia).
  rewrite !Z.mul_assoc.
  symmetry; apply Z.mul_lt_mono_pos_r; exact Hz.
Qed.

Lemma below_fifty d :
  valid_binary d = true -> ordinary d ->
  Z.abs (weight d) < 50 * 2 ^ 1074 ->
  SFltb fifty (SFabs d) = false.
Proof.
  intros Hv Hord Hw.
  destruct d as [s | s | | s m e]; cbn [ordinary] in Hord; try contradiction;
    [reflexivity |].
  apply valid_canonical in Hv.
  assert (Hc50 : canonical 7036874417766400 (-47)) by (apply (valid_canonical false); reflexivity).
  apply not_true_iff_false; unfold fifty; cbn [SFabs].
  rewrite (SFltb_before (S754_finite false 7036874417766400 (-47)) (S754_finite false m e)
             (1, -47, 7036874417766400) (1, e, Z.pos m) eq_refl eq_refl).
  unfold before; intros [Hlt | [_ Hb]]; [lia |].
  apply (aligned_weight_order _ _ _ _ Hc50 Hv) in Hb.
  assert (H50 : 7036874417766400 * 2 ^ (-47 + 1074) = 50 * 2 ^ 1074).
  { change 7036874417766400 with (50 * 2 ^ 47).
    rewrite <- Z.mul_assoc, <- Z.pow_add_r by lia; reflexivity. }
  rewrite H50 in Hb.
  cbn [weight] in Hw.
  assert (0 <= Z.pos m * 2 ^ (e + 1074)) by (apply Z.mul_nonneg_nonneg; [| apply Z.pow_nonneg]; lia).
  set (W := Z.pos m * 2 ^ (e + 1074)) in *; set (N := 2 ^ 1074) in *; clearbody W N.
  destruct s; cbn [cond_Zopp] in Hw; lia.
Qed.

(** *** Two numbers of one cell of the grid are less than 50 apart *)

Lemma same_quotient a b n :
  0 < n -> a / n = b / n -> Z.abs (a - b) < n.
Proof.
  intros Hn Hq.
  pose proof (Z.div_mod a n ltac:(lia)) as Ha; pose proof (Z.div_mod b n ltac:(lia)) as Hb.
  pose proof (Z.mod_pos_bound a n Hn); pose proof (Z.mod_pos_bound b n Hn).
  rewrite Hq in Ha; set (q := b / n) in *; clearbody q; nia.
Qed.

Lemma same_cell_near x y :
  moderate x -> moderate y ->
  Number.floorText (x / 20) = Number.floorText (y / 20) ->
  (50 <? abs (y - x))%float = false.
Proof.
  intros Hx%moderate_small Hy%moderate_small Hcell.
  pose proof (Prim2SF_valid x) as Hvx; pose proof (Prim2SF_valid y) as Hvy.
  destruct (div20_bracket _ Hvx Hx) as [Hox Hbx].
  destruct (div20_bracket _ Hvy Hy) as [Hoy Hby].
  change twenty with (Prim2SF 20) in *; rewrite <- !FloatAxioms.div_spec in *.
  rewrite !floorText_weight in Hcell by assumption.
  injection Hcell as Hcell.
  assert (HN : 0 < 2 ^ 1074) by (apply Z.pow_pos_nonneg; lia).
  apply same_quotient in Hcell; [| exact HN].
  assert (HN36 : 2 ^ 1074 = 2 ^ 36 * 2 ^ 1038) by (rewrite <- Z.pow_add_r by lia; reflexivity).
  assert (HN47 : 2 ^ 1074 = 2 ^ 47 * 2 ^ 1027) by (rewrite <- Z.pow_add_r by lia; reflexivity).
  assert (H5 : 2 ^ (5 + 1074) = 32 * 2 ^ 1074) by (rewrite Z.pow_add_r by lia; reflexivity).
  assert (HT : 0 < 2 ^ 1038) by (apply Z.pow_pos_nonneg; lia).
  assert (HT' : 0 < 2 ^ 1027) by (apply Z.pow_pos_nonneg; lia).
  change (2 ^ 36) with 68719476736 in HN36; change (2 ^ 47) with 140737488355328 in HN47.
  assert (Hnear : Z.abs (weight (Prim2SF y) - weight (Prim2SF x)) < 22 * 2 ^ 1074).
  { set (N := 2 ^ 1074) in *; set (T := 2 ^ 1038) in *.
    set (wx := weight (Prim2SF x)) in *; set (wy := weight (Prim2SF y)) in *.
    set (fx := weight (Prim2SF (x / 20))) in *; set (fy := weight (Prim2SF (y / 20))) in *.
    clearbody N T wx wy fx fy; lia. }
  destruct (sub_bracket _ _ Hvx Hvy Hx Hy ltac:(lia)) as [Hod Hbd].
  rewrite FloatAxioms.ltb_spec, FloatAxioms.abs_spec.
  change (Prim2SF 50) with fifty.
  rewrite <- FloatAxioms.sub_spec in *.
  apply below_fifty; [rewrite FloatAxioms.sub_spec; rewrite <- FloatAxioms.sub_spec; apply Prim2SF_valid | exact Hod |].
  set (N := 2 ^ 1074) in *; set (T := 2 ^ 1027) in *.
  set (wd := weight (Prim2SF (y - x))) in *.
  set (w := Z.abs (weight (Prim2SF y) - weight (Prim2SF x))) in *.
  clearbody N T wd w; lia.
Qed.

End FloatFacts.

(** * Sorting

    What [Array.sort] gives for a comparator that is a strict weak order
    on the elements sorted: a permutation, in order, that keeps tied
    elements in the order they came. *)

Module ArrayFacts.

Section Sort.

Context {A : Type} (after : A -> A -> bool).

Lemma insert_perm x sorted : Array.insert after x sorted ≡ₚ x :: sorted.
Proof.
  induction sorted as [| y rest IH]; cbn; [reflexivity |].
  destruct (after x y); [| reflexivity].
  rewrite IH; apply Permutation_swap.
Qed.

Lemma sort_perm arr : Array.sort after arr ≡ₚ arr.
Proof.
  induction arr as [| x rest IH]; cbn; [reflexivity |].
  now rewrite insert_perm, IH.
Qed.

Lemma sort_nil_inv arr : Array.sort after arr = [] -> arr = [].
Proof. intros H; apply Permutation_nil; rewrite <- H; apply sort_perm. Qed.

(** Two elements are tied when the comparator orders them neither way. *)
Definition tied (x y : A) : bool := negb (after x y) && negb (after y x).

Variable P : A -> Prop.
Hypothesis after_irrefl : forall x, P x -> after x x = false.
Hypothesis after_trans : forall x y z, P x -> P y -> P z ->
  after x y = true -> after y z = true -> after x z = true.
Hypothesis after_cotrans : forall x y z, P x -> P y -> P z ->
  after x z = true -> after x y = true \/ after y z = true.

Lemma after_asym x y : P x -> P y -> after x y = true -> after y x = false.
Proof.
  intros Hx Hy Hxy; destruct (after y x) eqn:Hyx; [| reflexivity].
  rewrite <- (after_irrefl x Hx); symmetry; eauto.
Qed.

Lemma Forall_insert x sorted (Q : A -> Prop) :
  Q x -> Forall Q sorted -> Forall Q (Array.insert after x sorted).
Proof. intros Hx Hs; rewrite insert_perm; now constructor. Qed.

Lemma Forall_sort arr (Q : A -> Prop) : Forall Q arr -> Forall Q (Array.sort after arr).
Proof. intros H; now rewrite sort_perm. Qed.

Lemma insert_sorted x sorted :
  P x -> Forall P sorted ->
  StronglySorted (fun u v => after u v = false) sorted ->
  StronglySorted (fun u v => after u v = false) (Array.insert after x sorted).
Proof.
  intros Hx HP Hs; induction Hs as [| y rest Hs IH Hy]; cbn.
  - repeat constructor.
  - inversion_clear HP as [| ? ? HPy HPrest].
    destruct (after x y) eqn:Hxy.
    + constructor; [now apply IH |].
      apply Forall_insert; [now apply after_asym | assumption].
    + constructor; [now constructor |].
      constructor; [assumption |].
      rewrite Forall_forall in Hy, HPrest |- *; intros z Hz.
      destruct (after x z) eqn:Hxz; [| reflexivity].
      destruct (after_cotrans x y z Hx HPy (HPrest z Hz) Hxz) as [H | H];
        [congruence | rewrite (Hy z Hz) in H; discriminate].
Qed.

Lemma sort_sorted arr :
  Forall P arr -> StronglySorted (fun u v => after u v = false) (Array.sort after arr).
Proof.
  induction 1 as [| x rest Hx Hrest IH]; cbn; [constructor |].
  apply insert_sorted; [assumption | now apply Forall_sort | assumption].
Qed.

Lemma tied_trans x y z : P x -> P y -> P z ->
  tied x y = true -> tied x z = true -> tied y z = true.
Proof.
  unfold tied; intros Hx Hy Hz Hxy Hxz.
  apply andb_true_iff in Hxy as [Hxy Hyx], Hxz as [Hxz Hzx].
  apply negb_true_iff in Hxy, Hyx, Hxz, Hzx.
  apply andb_true_iff; split; apply negb_true_iff.
  - destruct (after y z) eqn:H; [| reflexivity].
    destruct (after_cotrans y x z Hy Hx Hz H); congruence.
  - destruct (after z y) eqn:H; [| reflexivity].
    destruct (after_cotrans z x y Hz Hx Hy H); congruence.
Qed.

Lemma insert_stable pivot x sorted :
  P pivot -> P x -> Forall P sorted ->
  List.filter (tied pivot) (Array.insert after x sorted)
  = List.filter (tied pivot) (x :: sorted).
Proof.
  intros Hp Hx; induction 1 as [| y rest Hy Hrest IH]; [reflexivity |].
  cbn [Array.insert]; destruct (after x y) eqn:Hxy; [| reflexivity].
  cbn [List.filter] in *; rewrite IH.
  destruct (tied pivot x) eqn:Htx, (tied pivot y) eqn:Hty; try reflexivity.
  pose proof (tied_trans pivot x y Hp Hx Hy Htx Hty) as H.
  unfold tied in H; rewrite Hxy in H; discriminate.
Qed.

Lemma sort_stable pivot arr :
  P pivot -> Forall P arr ->
  List.filter (tied pivot) (Array.sort after arr) = List.filter (tied pivot) arr.
Proof.
  intros Hp; induction 1 as [| x rest Hx Hrest IH]; [reflexivity |].
  cbn [Array.sort]; rewrite insert_stable by (auto using Forall_sort).
  cbn [List.filter]; now rewrite IH.
Qed.

End Sort.

End ArrayFacts.

Arguments convertToLab : simpl never.
Arguments calculateDeltaE : simpl never.
Arguments getGridKey : simpl never.

(** * What the methods compute

    Every method is related to a function of the palette alone: the cache
    only ever holds conversions, so reading it gives what [convertToLab]
    gives. *)

Module ExtractorFacts.
Import ColorExtractor.

Section Facts.

Variable Math_pow : float -> float -> float.
Variable rev : PaletteRevision.

Local Abbreviation toLab := (convertToLab Math_pow).

(** The cache holds conversions only. *)
Definition CacheOk (this : t) : Prop :=
  forall c lab, labCache this !! c = Some lab -> lab = toLab c.

(** A method touched nothing but the cache. *)
Definition frame (this this' : t) : Prop :=
  palette this' = palette this /\ sortedColors this' = sortedColors this
  /\ options this' = options this /\ CacheOk this'.

Lemma frame_refl this : CacheOk this -> frame this this.
Proof. unfold frame; auto. Qed.

Lemma frame_trans this1 this2 this3 :
  frame this1 this2 -> frame this2 this3 -> frame this1 this3.
Proof.
  unfold frame; intros (? & ? & ? & ?) (? & ? & ? & ?).
  repeat split; try congruence; assumption.
Qed.

Lemma CacheOk_empty this : CacheOk (set_labCache ∅ this).
Proof. intros c lab; cbn; rewrite lookup_empty; discriminate. Qed.

Lemma CacheOk_insert this c :
  CacheOk this ->
  CacheOk (set_labCache (<[c := toLab c]> (labCache this)) this).
Proof.
  intros Hok c' lab; cbn.
  destruct (decide (c = c')) as [<- | Hne].
  - rewrite lookup_insert_eq; congruence.
  - rewrite lookup_insert_ne by assumption; apply Hok.
Qed.

Lemma getLabColor_spec c this :
  CacheOk this ->
  exists this', getLabColor Math_pow c this = Normal (toLab c, this')
                /\ frame this this'.
Proof.
  intros Hok; unfold getLabColor, bind, get.
  destruct (useCache (options this)); cbn.
  - destruct (labCache this !! c) as [lab |] eqn:Hget.
    + rewrite (Hok _ _ Hget); eexists; split; [reflexivity | now apply frame_refl].
    + destruct (maxCacheSize (options this) <=? Z.of_nat (size (labCache this)));
        cbn; eexists; (split; [reflexivity |]); repeat split.
      * apply (CacheOk_insert (set_labCache ∅ this)), CacheOk_empty.
      * now apply CacheOk_insert.
  - eexists; split; [reflexivity | now apply frame_refl].
Qed.

(** The priority record of one palette entry. *)
Definition priorityOf (entry : Z * Z) : PriorityRecord :=
  let labColor := toLab (fst entry) in
  let chromaDistance :=
    Number.or
      (PrimFloat.sqrt (LabColor.a labColor * LabColor.a labColor
                       + LabColor.b labColor * LabColor.b labColor))%float
      1%float in
  let lightnessWeight := (1 - LabColor.L labColor * 0.005)%float in
  let frequencyWeight := PrimFloat.sqrt (Number.ofZ (snd entry)) in
  mkPriority (fst entry) (chromaDistance * lightnessWeight * frequencyWeight)%float.

Lemma priorities_spec entries : forall this,
  CacheOk this ->
  exists this', priorities Math_pow entries this = Normal (map priorityOf entries, this')
                /\ frame this this'.
Proof.
  induction entries as [| [c n] rest IH]; intros this Hok; cbn.
  - eexists; split; [reflexivity | now apply frame_refl].
  - unfold bind at 1.
    destruct (getLabColor_spec c this Hok) as (this1 & -> & Hf1).
    unfold bind at 1.
    destruct (IH this1 (proj2 (proj2 (proj2 Hf1)))) as (this2 & -> & Hf2).
    eexists; split; [reflexivity | eapply frame_trans; eauto].
Qed.

(** The comparator of [initialize]: [b.priority - a.priority > 0]. *)
Definition byPriority (x y : PriorityRecord) : bool :=
  (0 <? priority y - priority x)%float.

(** The ranking that [initialize] stores. *)
Definition ranking (p : Palette.t) : list Z :=
  map color (Array.sort byPriority (map priorityOf (Palette.iterator rev p))).

Lemma initialize_spec this :
  CacheOk this ->
  exists this', initialize Math_pow rev this = Normal (tt, this')
                /\ palette this' = palette this /\ options this' = options this
                /\ sortedColors this' = Some (ranking (palette this))
                /\ CacheOk this'.
Proof.
  intros Hok; unfold initialize, ranking, bind, get.
  destruct (Palette.iterator rev (palette this)) as [| e es] eqn:Hit.
  - cbn; eexists; split; [reflexivity | auto].
  - change (List.length (e :: es) =? 0)%nat with false; cbv iota.
    destruct (priorities_spec (e :: es) this Hok) as (this1 & -> & Hp & _ & Ho & Hc).
    eexists; split; [reflexivity |]; cbn; auto.
Qed.

(** ** The merge pass *)

Section Merge.

Variable distance : LabColor.t -> LabColor.t -> float.

(** The indices, from [i] on, of the conversions with grid key [key]. *)
Fixpoint bucket (key : GridKey) (i : nat) (labs : list LabColor.t) : list nat :=
  match labs with
  | [] => []
  | lab :: rest =>
      if decide (getGridKey lab gridSize = key)
      then i :: bucket key (S i) rest
      else bucket key (S i) rest
  end.

Lemma bucket_app key labs : forall i lab,
  bucket key i (labs ++ [lab]) =
  bucket key i labs
    ++ (if decide (getGridKey lab gridSize = key) then [(i + List.length labs)%nat] else []).
Proof.
  induction labs as [| x rest IH]; intros i lab; cbn.
  - rewrite Nat.add_0_r; now destruct (decide _).
  - rewrite IH, Nat.add_succ_comm; now destruct (decide _).
Qed.

(** Is some accepted conversion of the bucket of [colorLab] closer
    than [maxDelta]? *)
Definition close (maxDelta : float) (colorLab : LabColor.t)
    (accepted : list LabColor.t) : bool :=
  existsb
    (fun lab2 =>
       bool_decide (getGridKey lab2 gridSize = getGridKey colorLab gridSize)
       && (distance colorLab lab2 <? maxDelta)%float)
    accepted.

Lemma merged_bucket colorLab maxDelta key suf : forall pre this,
  merged distance colorLab (pre ++ suf) maxDelta (bucket key (List.length pre) suf) this
  = Normal
      (existsb
         (fun lab2 => bool_decide (getGridKey lab2 gridSize = key)
                      && (distance colorLab lab2 <? maxDelta)%float) suf,
       this).
Proof.
  induction suf as [| x rest IH]; intros pre this; cbn; [reflexivity |].
  specialize (IH (pre ++ [x]) this).
  rewrite <- app_assoc, length_app, Nat.add_1_r in IH; cbn in IH.
  destruct (decide (getGridKey x gridSize = key)) as [Hk | Hk].
  - rewrite bool_decide_eq_true_2 by assumption; cbn.
    rewrite list_lookup_middle by reflexivity.
    destruct (distance colorLab x <? maxDelta)%float; [reflexivity | exact IH].
  - rewrite bool_decide_eq_false_2 by assumption; cbn; exact IH.
Qed.

(** The forward pass, as a function of the colors alone. *)
Fixpoint select (actualLimit : Z) (maxDelta : float) (colors accepted : list Z)
  : list Z :=
  match colors with
  | [] => accepted
  | color :: rest =>
      if actualLimit <=? Z.of_nat (List.length accepted) then accepted
      else if close maxDelta (toLab color) (map toLab accepted)
           then select actualLimit maxDelta rest accepted
           else select actualLimit maxDelta rest (accepted ++ [color])
  end.

(** The invariant of the loop: the three variables describe the same
    accepted colors. *)
Definition MergeInv (st : MergeState) : Prop :=
  labColors st = map toLab (result st)
  /\ forall key, default [] (spatialGrid st !! key) = bucket key 0 (labColors st).

Lemma MergeInv_init : MergeInv (mkMerge [] [] ∅).
Proof. split; [reflexivity | intros key; cbn; now rewrite lookup_empty]. Qed.

Lemma MergeInv_accept st c :
  MergeInv st ->
  let gridKey := getGridKey (toLab c) gridSize in
  let grid :=
    match spatialGrid st !! gridKey with
    | Some _ => spatialGrid st
    | None => <[gridKey := []]> (spatialGrid st)
    end in
  MergeInv
    (mkMerge (result st ++ [c]) (labColors st ++ [toLab c])
       (<[gridKey := default [] (grid !! gridKey) ++ [List.length (result st)]]> grid)).
Proof.
  intros [Hlabs Hgrid] gridKey grid; split; cbn.
  - now rewrite map_app, Hlabs.
  - intros key; rewrite bucket_app; cbn.
    assert (Hlen : List.length (labColors st) = List.length (result st))
      by now rewrite Hlabs, length_map.
    assert (Hsame : forall k, default [] (grid !! k) = default [] (spatialGrid st !! k)).
    { intros k; subst grid.
      destruct (spatialGrid st !! gridKey) eqn:Hg; [reflexivity |].
      destruct (decide (gridKey = k)) as [<- | Hne].
      - now rewrite lookup_insert_eq, Hg.
      - now rewrite lookup_insert_ne. }
    destruct (decide (getGridKey (toLab c) gridSize = key)) as [<- | Hne].
    + fold gridKey; rewrite lookup_insert_eq; cbn.
      now rewrite Hsame, Hgrid, Hlen.
    + rewrite lookup_insert_ne by assumption.
      now rewrite Hsame, Hgrid, app_nil_r.
Qed.

Lemma mergeLoop_spec actualLimit maxDelta colors : forall st this,
  CacheOk this -> MergeInv st ->
  exists st' this',
    mergeLoop Math_pow distance actualLimit maxDelta colors st this
    = Normal (st', this')
    /\ result st' = select actualLimit maxDelta colors (result st)
    /\ MergeInv st'
    /\ frame this this'.
Proof.
  induction colors as [| c rest IH]; intros st this Hok Hinv; cbn.
  - do 2 eexists; split; [reflexivity |].
    split; [reflexivity | split; [assumption | now apply frame_refl]].
  - destruct (actualLimit <=? Z.of_nat (List.length (result st))).
    { do 2 eexists; split; [reflexivity |].
      split; [reflexivity | split; [assumption | now apply frame_refl]]. }
    unfold bind at 1.
    destruct (getLabColor_spec c this Hok) as (this1 & -> & Hf1).
    unfold bind at 1.
    destruct Hinv as [Hlabs Hgrid].
    rewrite Hgrid.
    rewrite (merged_bucket (toLab c) maxDelta _ (labColors st) [] this1).
    rewrite <- Hlabs.
    change (existsb _ (labColors st)) with (close maxDelta (toLab c) (labColors st)).
    destruct (close maxDelta (toLab c) (labColors st)).
    + destruct (IH st this1) as (st' & this' & -> & Hres & Hinv' & Hf2);
        [apply Hf1 | now split |].
      do 2 eexists; split; [reflexivity |].
      split; [assumption | split; [assumption | eapply frame_trans; eauto]].
    + edestruct (IH _ this1 (proj2 (proj2 (proj2 Hf1)))
                   (MergeInv_accept st c (conj Hlabs Hgrid)))
        as (st' & this' & -> & Hres & Hinv' & Hf2).
      do 2 eexists; split; [reflexivity |].
      split; [exact Hres | split; [assumption | eapply frame_trans; eauto]].
Qed.

(** [mergeColors], as a function of the colors alone. *)
Definition merge (colors : list Z) (limit : Z) (maxDelta : float) : list Z :=
  let actualLimit := Z.min (Z.of_nat (List.length colors)) limit in
  if actualLimit <=? 1 then Array.slice0 colors actualLimit
  else select actualLimit maxDelta colors [].

Lemma mergeColorsWith_spec colors limit maxDelta this :
  CacheOk this ->
  exists this',
    mergeColorsWith Math_pow distance colors limit maxDelta this
    = Normal (merge colors limit maxDelta, this')
    /\ frame this this'.
Proof.
  intros Hok; unfold mergeColorsWith, merge.
  destruct (Z.min (Z.of_nat (List.length colors)) limit <=? 1).
  - eexists; split; [reflexivity | now apply frame_refl].
  - unfold bind.
    destruct (mergeLoop_spec (Z.min (Z.of_nat (List.length colors)) limit)
                maxDelta colors _ this Hok MergeInv_init)
      as (st' & this' & -> & Hres & _ & Hf).
    eexists; split; [cbn in Hres; rewrite Hres; reflexivity | assumption].
Qed.

(** *** The forward pass as a function *)

Lemma select_app actualLimit maxDelta pre : forall post accepted,
  select actualLimit maxDelta (pre ++ post) accepted
  = select actualLimit maxDelta post (select actualLimit maxDelta pre accepted).
Proof.
  induction pre as [| c pre IH]; intros post accepted; cbn; [reflexivity |].
  destruct (actualLimit <=? Z.of_nat (List.length accepted)) eqn:Hfull.
  - destruct post as [| d post]; cbn; [reflexivity | now rewrite Hfull].
  - destruct (close maxDelta (toLab c) (map toLab accepted)); apply IH.
Qed.

Lemma select_prefix actualLimit maxDelta colors : forall accepted,
  exists more, select actualLimit maxDelta colors accepted = accepted ++ more
               /\ forall c, c ∈ more -> c ∈ colors.
Proof.
  induction colors as [| c rest IH]; intros accepted; cbn.
  - exists []; split; [now rewrite app_nil_r | intros c Hc; inversion Hc].
  - destruct (actualLimit <=? Z.of_nat (List.length accepted)).
    { exists []; split; [now rewrite app_nil_r | intros d Hd; inversion Hd]. }
    destruct (close maxDelta (toLab c) (map toLab accepted)).
    + destruct (IH accepted) as (more & -> & Hin).
      exists more; split; [reflexivity | intros d Hd; right; auto].
    + destruct (IH (accepted ++ [c])) as (more & -> & Hin).
      exists (c :: more); split; [now rewrite <- app_assoc |].
      intros d Hd; apply elem_of_cons in Hd as [-> | Hd]; [left | right; auto].
Qed.

Lemma select_length actualLimit maxDelta colors : forall accepted,
  Z.of_nat (List.length (select actualLimit maxDelta colors accepted))
  <= Z.max actualLimit (Z.of_nat (List.length accepted)).
Proof.
  induction colors as [| c rest IH]; intros accepted; cbn; [lia |].
  destruct (actualLimit <=? Z.of_nat (List.length accepted)) eqn:Hfull; [lia |].
  apply Z.leb_gt in Hfull.
  destruct (close maxDelta (toLab c) (map toLab accepted)).
  - apply IH.
  - etransitivity; [apply IH |]; rewrite length_app; cbn; lia.
Qed.

Lemma merge_length colors limit maxDelta :
  0 <= limit ->
  Z.of_nat (List.length (merge colors limit maxDelta))
  <= Z.min (Z.of_nat (List.length colors)) limit.
Proof.
  intros Hlimit; unfold merge.
  destruct (Z.min (Z.of_nat (List.length colors)) limit <=? 1) eqn:Hsmall.
  - unfold Array.slice0.
    destruct (Z.min (Z.of_nat (List.length colors)) limit <? 0) eqn:Hneg;
      [apply Z.ltb_lt in Hneg; lia |].
    rewrite length_take; lia.
  - etransitivity; [apply select_length |]; cbn; lia.
Qed.

Lemma slice0_elem {A} (arr : list A) end_ x : x ∈ Array.slice0 arr end_ -> x ∈ arr.
Proof.
  unfold Array.slice0; destruct (end_ <? 0); intros H%elem_of_take; now destruct H as (? & ?%list_elem_of_lookup_2 & _).
Qed.

Lemma merge_elem colors limit maxDelta c :
  c ∈ merge colors limit maxDelta -> c ∈ colors.
Proof.
  unfold merge.
  destruct (Z.min (Z.of_nat (List.length colors)) limit <=? 1).
  - apply slice0_elem.
  - destruct (select_prefix (Z.min (Z.of_nat (List.length colors)) limit)
                maxDelta colors []) as (more & -> & Hin).
    exact (Hin c).
Qed.

End Merge.

(** ** [extract] and the life of an instance *)

Definition extracted (p : Palette.t) (colorCount : Z) : list Z :=
  if Z.eqb colorCount 0 then []
  else merge calculateDeltaE (ranking p) colorCount (100 / Number.ofZ colorCount)%float.

(** What holds of the fields between two calls. *)
Definition Inv (p : Palette.t) (o : ExtractorOptions) (this : t) : Prop :=
  palette this = p /\ options this = o /\ CacheOk this
  /\ (sortedColors this = None \/ sortedColors this = Some (ranking p)).

(** A call with a positive count hands the ranking to [mergeColors],
    having computed it if the instance had none. *)
Lemma extract_delegates p o this colorCount :
  Inv p o this -> colorCount <> 0 ->
  exists this1,
    Inv p o this1 /\ sortedColors this1 = Some (ranking p)
    /\ extract Math_pow rev colorCount this
       = mergeColors Math_pow (ranking p) colorCount (100 / Number.ofZ colorCount)%float this1.
Proof.
  intros (Hp & Ho & Hok & Hsorted) Hcount; unfold extract.
  rewrite (proj2 (Z.eqb_neq colorCount 0) Hcount).
  unfold bind at 1, get at 1; unfold bind at 1.
  assert (Hinit : exists this1,
             match sortedColors this with
             | Some _ => ret tt
             | None => initialize Math_pow rev
             end this = Normal (tt, this1)
             /\ palette this1 = p /\ options this1 = o
             /\ sortedColors this1 = Some (ranking p) /\ CacheOk this1).
  { destruct Hsorted as [Hs | Hs]; rewrite Hs.
    - destruct (initialize_spec this Hok) as (this1 & -> & Hp1 & Ho1 & Hs1 & Hc1).
      exists this1; repeat split; try congruence; assumption.
    - exists this; repeat split; auto. }
  destruct Hinit as (this1 & -> & Hp1 & Ho1 & Hs1 & Hc1).
  exists this1; split; [repeat split; auto |]; split; [assumption |].
  unfold bind, get; now rewrite Hs1.
Qed.

Lemma extract_spec p o this colorCount :
  Inv p o this ->
  exists this', extract Math_pow rev colorCount this
                = Normal (extracted p colorCount, this')
                /\ Inv p o this'.
Proof.
  intros Hinv; unfold extracted.
  destruct (Z.eqb_spec colorCount 0) as [-> | Hcount].
  { eexists; split; [reflexivity | assumption]. }
  destruct (extract_delegates p o this colorCount Hinv Hcount)
    as (this1 & (Hp1 & Ho1 & Hc1 & _) & Hs1 & ->).
  destruct (mergeColorsWith_spec calculateDeltaE (ranking p) colorCount
              (100 / Number.ofZ colorCount)%float this1 Hc1)
    as (this2 & Hrun & Hp2 & Hs2 & Ho2 & Hc2).
  unfold mergeColors; rewrite Hrun.
  eexists; split; [reflexivity |].
  repeat split; try congruence; try assumption; right; congruence.
Qed.

(** The instances a caller can hold: built by the constructor and
    then used through [extract] and [clearCache]. *)
Inductive Reachable (p : Palette.t) (o : ExtractorOptions) : t -> Prop :=
| Reachable_new : Reachable p o (new p o)
| Reachable_extract this colorCount colors this' :
    Reachable p o this ->
    extract Math_pow rev colorCount this = Normal (colors, this') ->
    Reachable p o this'
| Reachable_clearCache this this' :
    Reachable p o this ->
    clearCache this = Normal (tt, this') ->
    Reachable p o this'.

Lemma Reachable_Inv p o this : Reachable p o this -> Inv p o this.
Proof.
  induction 1 as [| this k colors this' _ IH Hrun | this this' _ IH Hrun].
  - repeat split; auto; intros c lab; cbn; rewrite lookup_empty; discriminate.
  - destruct (extract_spec p o this k IH) as (this1 & Hrun1 & Hinv).
    rewrite Hrun in Hrun1; now inversion Hrun1.
  - inversion Hrun; subst; destruct IH as (Hp & Ho & _ & _).
    repeat split; auto; apply CacheOk_empty.
Qed.

End Facts.

End ExtractorFacts.

(** * The ranking lists the palette *)

Module RankingFacts.
Import ColorExtractor ExtractorFacts.

Lemma iterator_perm rev p : Palette.iterator rev p ≡ₚ Palette.colors p.
Proof. destruct rev; cbn; [apply ArrayFacts.sort_perm | reflexivity]. Qed.

Lemma color_priorityOf Math_pow entries :
  map color (map (priorityOf Math_pow) entries) = map fst entries.
Proof. rewrite map_map; apply map_ext; now intros [c n]. Qed.

Lemma ranking_perm Math_pow rev p :
  ranking Math_pow rev p ≡ₚ Palette.getAllColors p.
Proof.
  unfold ranking, Palette.getAllColors.
  rewrite ArrayFacts.sort_perm, color_priorityOf.
  now rewrite iterator_perm.
Qed.

Lemma ranking_length Math_pow rev p :
  Z.of_nat (List.length (ranking Math_pow rev p)) = Palette.length p.
Proof.
  unfold Palette.length.
  rewrite (Permutation_length (ranking_perm Math_pow rev p)).
  unfold Palette.getAllColors; now rewrite length_map.
Qed.

End RankingFacts.

(** * Examples

    Colors whose channels are at most 10 stay on the linear branches of
    the conversion, which then never calls [Math.pow]: on palettes of such
    colors the methods can be run. *)

Definition Math_pow_unreached : float -> float -> float := fun _ _ => nan.

Definition darkPalette : Palette.t :=
  Palette.mk [(0x000000, 5); (0x00000A, 2); (0x0A0000, 3); (0x000A00, 9); (0x050505, 1)].

(** * The claims *)

Import ColorExtractor ExtractorFacts.

(** C1: on an instance built by the constructor and used through its
    methods, [extract] with a non-negative count returns normally; it
    returns at most [min (colorCount, palette.length)] colors, each of them a
    key of the palette, and none when the count is zero or the palette is
    empty. *)
Theorem extract_bounded Math_pow rev p o this colorCount :
  Reachable Math_pow rev p o this ->
  0 <= colorCount ->
  exists colors this',
    extract Math_pow rev colorCount this = Normal (colors, this')
    /\ Z.of_nat (List.length colors) <= Z.min colorCount (Palette.length p)
    /\ (forall c, c ∈ colors -> c ∈ Palette.getAllColors p)
    /\ (colorCount = 0 -> colors = [])
    /\ (Palette.colors p = [] -> colors = []).
Proof.
  intros Hreach Hcount.
  destruct (extract_spec Math_pow rev p o this colorCount (Reachable_Inv _ _ _ _ _ Hreach))
    as (this' & Hrun & _).
  exists (extracted Math_pow rev p colorCount), this'; split; [exact Hrun |].
  assert (Hlen : Z.of_nat (List.length (extracted Math_pow rev p colorCount))
                 <= Z.min colorCount (Palette.length p)).
  { unfold extracted; destruct (colorCount =? 0) eqn:H0.
    - cbn; unfold Palette.length; lia.
    - etransitivity; [apply merge_length; lia |].
      rewrite RankingFacts.ranking_length; lia. }
  split; [exact Hlen |]; split; [| split].
  - intros c Hc; unfold extracted in Hc; destruct (colorCount =? 0).
    + inversion Hc.
    + apply merge_elem in Hc.
      now rewrite (RankingFacts.ranking_perm Math_pow rev p) in Hc.
  - intros ->; reflexivity.
  - intros Hempty; unfold Palette.length in Hlen; rewrite Hempty in Hlen; cbn in Hlen.
    destruct (extracted Math_pow rev p colorCount); [reflexivity | cbn in Hlen; lia].
Qed.

Lemma extract_bounded_witness :
  exists colors this',
    extract Math_pow_unreached IterateByCount 3 (new darkPalette DEFAULT_OPTIONS)
    = Normal (colors, this')
    /\ Z.of_nat (List.length colors) <= Z.min 3 (Palette.length darkPalette)
    /\ (forall c, c ∈ colors -> c ∈ Palette.getAllColors darkPalette)
    /\ (3 = 0 -> colors = [])
    /\ (Palette.colors darkPalette = [] -> colors = []).
Proof.
  apply (extract_bounded Math_pow_unreached IterateByCount darkPalette DEFAULT_OPTIONS).
  - constructor.
  - lia.
Defined.

(** C7: the colors [extract] returns do not depend on the cache.  Two
    instances over the same palette, whatever their options and whatever
    calls they have served, return the same colors for the same count, and
    so does the same instance when asked again. *)
Theorem extract_cache_independent Math_pow rev p o1 o2 this1 this2 colorCount :
  Reachable Math_pow rev p o1 this1 ->
  Reachable Math_pow rev p o2 this2 ->
  exists colors this1' this1'' this2',
    extract Math_pow rev colorCount this1 = Normal (colors, this1')
    /\ extract Math_pow rev colorCount this1' = Normal (colors, this1'')
    /\ extract Math_pow rev colorCount this2 = Normal (colors, this2').
Proof.
  intros H1%Reachable_Inv H2%Reachable_Inv.
  destruct (extract_spec _ _ _ _ _ colorCount H1) as (this1' & Hrun1 & H1').
  destruct (extract_spec _ _ _ _ _ colorCount H1') as (this1'' & Hrun1' & _).
  destruct (extract_spec _ _ _ _ _ colorCount H2) as (this2' & Hrun2 & _).
  eauto 10.
Qed.

Lemma extract_cache_independent_witness :
  exists colors this1' this1'' this2',
    extract Math_pow_unreached IterateByCount 50 (new darkPalette DEFAULT_OPTIONS)
    = Normal (colors, this1')
    /\ extract Math_pow_unreached IterateByCount 50 this1' = Normal (colors, this1'')
    /\ extract Math_pow_unreached IterateByCount 50
         (new darkPalette {| useCache := false; maxCacheSize := 1; batchSize := 1000 |})
       = Normal (colors, this2').
Proof.
  apply (extract_cache_independent Math_pow_unreached IterateByCount darkPalette
           DEFAULT_OPTIONS {| useCache := false; maxCacheSize := 1; batchSize := 1000 |});
    constructor.
Defined.

(** C8: [fromRawData] throws exactly when the length of the buffer is not
    [width * height * 4], and otherwise returns its three arguments as
    they are. *)
Theorem fromRawData_checks_length width height data :
  ((exists e, ImageDecoder.fromRawData width height data = Throw e)
   <-> Z.of_nat (List.length data) <> width * height * 4)
  /\ (Z.of_nat (List.length data) = width * height * 4 ->
      ImageDecoder.fromRawData width height data
      = Normal (ImageData.mk width height data)).
Proof.
  unfold ImageDecoder.fromRawData, ImageDecoder.RGBA_CHANNELS.
  destruct (Z.eqb_spec (Z.of_nat (List.length data)) (width * height * 4)) as [Heq | Hne];
    cbn; split.
  - split; [intros [e He]; discriminate | contradiction].
  - reflexivity.
  - split; [auto | eauto].
  - contradiction.
Qed.

(** ** Bytes of a packed color *)

Lemma ToInt32_small z : 0 <= z < 2 ^ 31 -> Number.ToInt32 z = z.
Proof. intros Hz; unfold Number.ToInt32; rewrite Z.mod_small; lia. Qed.

Lemma byte_of_packed c n :
  0 <= c <= 0xFFFFFF -> 0 <= n < 32 ->
  Number.band (Number.sar c n) RGB_MAX = (c / 2 ^ n) mod 256.
Proof.
  intros Hc Hn; unfold Number.band, Number.sar, RGB_MAX.
  rewrite (Z.mod_small n) by lia.
  rewrite (ToInt32_small c), (ToInt32_small 255) by lia.
  rewrite Z.shiftr_div_pow2 by lia.
  assert (Hq : 0 <= c / 2 ^ n < 2 ^ 31).
  { split; [apply Z.div_pos; [lia | apply Z.pow_pos_nonneg; lia] |].
    apply Z.le_lt_trans with c; [| lia].
    apply Z.div_le_upper_bound; [apply Z.pow_pos_nonneg; lia |].
    assert (0 < 2 ^ n) by (apply Z.pow_pos_nonneg; lia); nia. }
  rewrite (ToInt32_small (c / 2 ^ n)) by assumption.
  change 255 with (Z.ones 8); rewrite Z.land_ones by lia.
  change (2 ^ 8) with 256.
  apply ToInt32_small.
  pose proof (Z.mod_pos_bound (c / 2 ^ n) 256); lia.
Qed.

Lemma low_byte_of_packed c :
  0 <= c <= 0xFFFFFF -> Number.band c RGB_MAX = c mod 256.
Proof.
  intros Hc; unfold Number.band, RGB_MAX.
  rewrite (ToInt32_small c), (ToInt32_small 255) by lia.
  change 255 with (Z.ones 8); rewrite Z.land_ones by lia.
  change (2 ^ 8) with 256.
  apply ToInt32_small.
  pose proof (Z.mod_pos_bound c 256); lia.
Qed.

(** C5: on every packed color, [convertToLab] is the pipeline of the
    specification: the bytes scaled by 255, the sRGB transfer function,
    the D65 matrix, the white point, the Lab nonlinearity, and
    [L = 116 fy - 16], [a = 500 (fx - fy)], [b = 200 (fy - fz)]. *)
Theorem convertToLab_reference Math_pow c :
  0 <= c <= 0xFFFFFF ->
  convertToLab Math_pow c = Reference.toLab Math_pow c.
Proof.
  intros Hc; unfold convertToLab, Reference.toLab, Reference.unpack.
  rewrite (byte_of_packed c 16), (byte_of_packed c 8), (low_byte_of_packed c) by lia.
  change (2 ^ 16) with 65536; change (2 ^ 8) with 256.
  reflexivity.
Qed.

Lemma convertToLab_reference_witness :
  convertToLab Math_pow_unreached 0x0A0508 = Reference.toLab Math_pow_unreached 0x0A0508.
Proof. apply (convertToLab_reference Math_pow_unreached 0x0A0508); lia. Defined.

(** ** The accepted colors keep their distance *)

Lemma calculateDeltaE_sym lab1 lab2 :
  calculateDeltaE lab1 lab2 = calculateDeltaE lab2 lab1.
Proof.
  unfold calculateDeltaE.
  rewrite (FloatFacts.abs_sub (LabColor.L lab2) (LabColor.L lab1)).
  rewrite (FloatFacts.square_sub (LabColor.L lab2) (LabColor.L lab1)).
  rewrite (FloatFacts.square_sub (LabColor.a lab2) (LabColor.a lab1)).
  rewrite (FloatFacts.square_sub (LabColor.b lab2) (LabColor.b lab1)).
  reflexivity.
Qed.

(** No two accepted colors of one grid bucket are at a computed distance
    below [maxDelta]. *)
Definition Separated (Math_pow : float -> float -> float) (maxDelta : float)
    (accepted : list Z) : Prop :=
  forall i j ci cj,
    i <> j -> accepted !! i = Some ci -> accepted !! j = Some cj ->
    getGridKey (convertToLab Math_pow ci) gridSize
    = getGridKey (convertToLab Math_pow cj) gridSize ->
    (calculateDeltaE (convertToLab Math_pow ci) (convertToLab Math_pow cj) <? maxDelta)%float
    = false.

Lemma close_false distance maxDelta colorLab accepted :
  close distance maxDelta colorLab accepted = false
  <-> forall lab2, lab2 ∈ accepted ->
        getGridKey lab2 gridSize = getGridKey colorLab gridSize ->
        (distance colorLab lab2 <? maxDelta)%float = false.
Proof.
  unfold close; induction accepted as [| x rest IH]; cbn.
  - split; [intros _ lab2 H; inversion H | reflexivity].
  - rewrite orb_false_iff, IH; split.
    + intros [Hx Hrest] lab2 [-> | Hin]%elem_of_cons Hkey; [| now apply Hrest].
      now rewrite bool_decide_eq_true_2 in Hx.
    + intros H; split.
      * destruct (decide (getGridKey x gridSize = getGridKey colorLab gridSize)) as [Hk | Hk].
        -- rewrite bool_decide_eq_true_2 by assumption; apply H; [left | assumption].
        -- now rewrite bool_decide_eq_false_2.
      * intros lab2 Hin; apply H; now right.
Qed.

Lemma Separated_few Math_pow maxDelta accepted :
  (List.length accepted <= 1)%nat -> Separated Math_pow maxDelta accepted.
Proof.
  intros Hlen i j ci cj Hij Hi%lookup_lt_Some Hj%lookup_lt_Some; lia.
Qed.

Lemma Separated_snoc Math_pow maxDelta accepted c :
  Separated Math_pow maxDelta accepted ->
  close calculateDeltaE maxDelta (convertToLab Math_pow c)
    (map (convertToLab Math_pow) accepted) = false ->
  Separated Math_pow maxDelta (accepted ++ [c]).
Proof.
  intros Hsep Hfar.
  pose proof (proj1 (close_false _ _ _ _) Hfar) as Hfar'; clear Hfar; rename Hfar' into Hfar.
  assert (Hnew : forall k ck, accepted !! k = Some ck ->
            getGridKey (convertToLab Math_pow ck) gridSize
            = getGridKey (convertToLab Math_pow c) gridSize ->
            (calculateDeltaE (convertToLab Math_pow c) (convertToLab Math_pow ck) <? maxDelta)%float
            = false).
  { intros k ck Hk Hkey; apply Hfar; [| assumption].
    apply list_elem_of_fmap; exists ck; split; [reflexivity |].
    eapply list_elem_of_lookup_2; eassumption. }
  intros i j ci cj Hij Hi Hj Hkey.
  apply lookup_snoc_Some in Hi as [[Hli Hi] | [Hli <-]],
        Hj as [[Hlj Hj] | [Hlj <-]].
  - eapply Hsep; eauto.
  - rewrite calculateDeltaE_sym; eapply Hnew; eauto.
  - eapply Hnew; eauto.
  - lia.
Qed.

Lemma select_separated Math_pow actualLimit maxDelta colors : forall accepted,
  Separated Math_pow maxDelta accepted ->
  Separated Math_pow maxDelta
    (select Math_pow calculateDeltaE actualLimit maxDelta colors accepted).
Proof.
  induction colors as [| c rest IH]; intros accepted Hsep; cbn; [assumption |].
  destruct (actualLimit <=? Z.of_nat (List.length accepted)); [assumption |].
  destruct (close calculateDeltaE maxDelta _ _) eqn:Hclose; [now apply IH |].
  now apply IH, Separated_snoc.
Qed.

Lemma slice0_length {A} (arr : list A) end_ :
  0 <= end_ -> Z.of_nat (List.length (Array.slice0 arr end_)) <= end_.
Proof.
  intros H; unfold Array.slice0.
  destruct (end_ <? 0) eqn:Hneg; [apply Z.ltb_lt in Hneg; lia |].
  rewrite length_take; lia.
Qed.

(** C2: the colors that [mergeColors] returns are separated: no two of
    them that share a grid key (of size 20) are at a computed distance
    strictly below [maxDelta], in either order.  The same holds of the
    accepted colors after every prefix of the forward pass. *)
Theorem mergeColors_separated Math_pow rev p o this colors limit maxDelta :
  Reachable Math_pow rev p o this ->
  0 <= limit ->
  exists accepted this',
    mergeColors Math_pow colors limit maxDelta this = Normal (accepted, this')
    /\ Separated Math_pow maxDelta accepted
    /\ forall pre post, colors = pre ++ post ->
       exists st this1,
         mergeLoop Math_pow calculateDeltaE (Z.min (Z.of_nat (List.length colors)) limit)
           maxDelta pre (mkMerge [] [] ∅) this
         = Normal (st, this1)
         /\ Separated Math_pow maxDelta (result st).
Proof.
  intros (_ & _ & Hok & _)%Reachable_Inv Hlimit.
  destruct (mergeColorsWith_spec Math_pow calculateDeltaE colors limit maxDelta this Hok)
    as (this' & Hrun & _).
  exists (merge Math_pow calculateDeltaE colors limit maxDelta), this'.
  split; [exact Hrun |]; split.
  - unfold merge.
    destruct (Z.min (Z.of_nat (List.length colors)) limit <=? 1) eqn:Hsmall.
    + apply Z.leb_le in Hsmall; apply Separated_few.
      pose proof (slice0_length colors (Z.min (Z.of_nat (List.length colors)) limit)); lia.
    + apply select_separated, Separated_few; cbn; lia.
  - intros pre post _.
    destruct (mergeLoop_spec Math_pow calculateDeltaE
                (Z.min (Z.of_nat (List.length colors)) limit) maxDelta pre
                (mkMerge [] [] ∅) this Hok (MergeInv_init Math_pow))
      as (st & this1 & Hloop & Hres & _).
    exists st, this1; split; [exact Hloop |].
    rewrite Hres; apply select_separated, Separated_few; cbn; lia.
Qed.

Lemma mergeColors_separated_witness :
  exists accepted this',
    mergeColors Math_pow_unreached [0x000A00; 0x00000A; 0x0A0000; 0x000000; 0x050505] 50 2
      (new darkPalette DEFAULT_OPTIONS)
    = Normal (accepted, this')
    /\ Separated Math_pow_unreached 2 accepted
    /\ forall pre post,
       [0x000A00; 0x00000A; 0x0A0000; 0x000000; 0x050505] = pre ++ post ->
       exists st this1,
         mergeLoop Math_pow_unreached calculateDeltaE (Z.min 5 50) 2 pre (mkMerge [] [] ∅)
           (new darkPalette DEFAULT_OPTIONS)
         = Normal (st, this1)
         /\ Separated Math_pow_unreached 2 (result st).
Proof.
  apply (mergeColors_separated Math_pow_unreached IterateByCount darkPalette DEFAULT_OPTIONS
           (new darkPalette DEFAULT_OPTIONS)
           [0x000A00; 0x00000A; 0x0A0000; 0x000000; 0x050505] 50 2).
  - constructor.
  - lia.
Defined.

(** ** The rule of the forward pass *)

(** Some accepted color of the bucket of [c] is at a computed distance
    strictly below [maxDelta]. *)
Definition Crowded (Math_pow : float -> float -> float) (maxDelta : float)
    (accepted : list Z) (c : Z) : Prop :=
  exists a, a ∈ accepted
    /\ getGridKey (convertToLab Math_pow a) gridSize
       = getGridKey (convertToLab Math_pow c) gridSize
    /\ (calculateDeltaE (convertToLab Math_pow c) (convertToLab Math_pow a) <? maxDelta)%float
       = true.

Lemma close_Crowded Math_pow maxDelta accepted c :
  close calculateDeltaE maxDelta (convertToLab Math_pow c)
    (map (convertToLab Math_pow) accepted) = true
  <-> Crowded Math_pow maxDelta accepted c.
Proof.
  unfold close, Crowded; rewrite existsb_exists; split.
  - intros (lab & Hin & Hlab).
    apply in_map_iff in Hin as (a & <- & Hin).
    apply andb_true_iff in Hlab as [Hkey%bool_decide_eq_true Hnear].
    exists a; repeat split; [now apply list_elem_of_In | assumption | assumption].
  - intros (a & Hin & Hkey & Hnear).
    exists (convertToLab Math_pow a); split.
    + apply in_map, list_elem_of_In, Hin.
    + now rewrite bool_decide_eq_true_2.
Qed.

Lemma select_one Math_pow actualLimit maxDelta accepted c :
  Z.of_nat (List.length accepted) < actualLimit ->
  select Math_pow calculateDeltaE actualLimit maxDelta [c] accepted
  = if close calculateDeltaE maxDelta (convertToLab Math_pow c)
         (map (convertToLab Math_pow) accepted)
    then accepted else accepted ++ [c].
Proof.
  intros Hroom; cbn.
  rewrite (proj2 (Z.leb_gt _ _) Hroom).
  now destruct (close _ _ _ _).
Qed.

(** C3: a call [extract(colorCount)] with [colorCount >= 1] runs
    [mergeColors] on the ranking with the threshold [100 / colorCount].  In
    its forward pass a candidate that is reached before the limit is
    dropped if and only if some accepted color of its bucket is at a
    computed distance strictly below the threshold; a candidate whose bucket
    holds only colors at exactly the threshold is accepted. *)
Theorem extract_drop_rule Math_pow rev p o this colorCount :
  Reachable Math_pow rev p o this ->
  1 <= colorCount ->
  let maxDelta := (100 / Number.ofZ colorCount)%float in
  let colors := ranking Math_pow rev p in
  let actualLimit := Z.min (Z.of_nat (List.length colors)) colorCount in
  exists returned this',
    extract Math_pow rev colorCount this = Normal (returned, this')
    /\ (exists this0,
          sortedColors this0 = Some colors
          /\ mergeColors Math_pow colors colorCount maxDelta this0 = Normal (returned, this'))
    /\ forall pre c post this0,
         colors = pre ++ c :: post -> 1 < actualLimit -> CacheOk Math_pow this0 ->
         exists st1 this1 st2 this2 st3 this3,
           mergeLoop Math_pow calculateDeltaE actualLimit maxDelta pre (mkMerge [] [] ∅) this0
           = Normal (st1, this1)
           /\ mergeLoop Math_pow calculateDeltaE actualLimit maxDelta [c] st1 this1
              = Normal (st2, this2)
           /\ mergeLoop Math_pow calculateDeltaE actualLimit maxDelta post st2 this2
              = Normal (st3, this3)
           /\ result st3 = returned
           /\ (Z.of_nat (List.length (result st1)) < actualLimit ->
               (Crowded Math_pow maxDelta (result st1) c -> result st2 = result st1)
               /\ (~ Crowded Math_pow maxDelta (result st1) c ->
                   result st2 = result st1 ++ [c])
               /\ ((forall a, a ∈ result st1 ->
                      getGridKey (convertToLab Math_pow a) gridSize
                      = getGridKey (convertToLab Math_pow c) gridSize ->
                      calculateDeltaE (convertToLab Math_pow c) (convertToLab Math_pow a)
                      = maxDelta) ->
                   result st2 = result st1 ++ [c])).
Proof.
  intros Hreach Hcount maxDelta colors actualLimit.
  pose proof (Reachable_Inv _ _ _ _ _ Hreach) as Hinv.
  destruct (extract_delegates Math_pow rev p o this colorCount Hinv ltac:(lia))
    as (this0 & (_ & _ & Hok0 & _) & Hsorted0 & Hext).
  destruct (mergeColorsWith_spec Math_pow calculateDeltaE colors colorCount maxDelta this0 Hok0)
    as (this' & Hrun & _).
  exists (merge Math_pow calculateDeltaE colors colorCount maxDelta), this'.
  split; [rewrite Hext; exact Hrun |].
  split; [exists this0; split; [exact Hsorted0 | exact Hrun] |].
  intros pre c post this1 Hsplit Hloop Hok1.
  destruct (mergeLoop_spec Math_pow calculateDeltaE actualLimit maxDelta pre
              (mkMerge [] [] ∅) this1 Hok1 (MergeInv_init Math_pow))
    as (st1 & this2 & Hrun1 & Hres1 & Hinv1 & (_ & _ & _ & Hok2)).
  destruct (mergeLoop_spec Math_pow calculateDeltaE actualLimit maxDelta [c]
              st1 this2 Hok2 Hinv1)
    as (st2 & this3 & Hrun2 & Hres2 & Hinv2 & (_ & _ & _ & Hok3)).
  destruct (mergeLoop_spec Math_pow calculateDeltaE actualLimit maxDelta post
              st2 this3 Hok3 Hinv2)
    as (st3 & this4 & Hrun3 & Hres3 & _).
  exists st1, this2, st2, this3, st3, this4.
  split; [exact Hrun1 |]; split; [exact Hrun2 |]; split; [exact Hrun3 |]; split.
  - rewrite Hres3, Hres2, Hres1; cbn [result].
    unfold merge; fold actualLimit.
    rewrite (proj2 (Z.leb_gt _ _) Hloop).
    fold colors; rewrite Hsplit.
    change (c :: post) with ([c] ++ post).
    now rewrite !select_app.
  - intros Hroom; rewrite Hres2, select_one by assumption.
    pose proof (close_Crowded Math_pow maxDelta (result st1) c) as Hiff.
    destruct (close calculateDeltaE maxDelta _ _) eqn:Hclose.
    + split; [reflexivity |]; split; [intros H; exfalso; apply H; now apply Hiff |].
      intros Hexact; exfalso.
      destruct (proj1 Hiff eq_refl) as (a & Hin & Hkey & Hnear).
      rewrite (Hexact a Hin Hkey), FloatFacts.ltb_irrefl in Hnear; discriminate.
    + split; [| split; reflexivity].
      intros H; apply Hiff in H; discriminate.
Qed.

Lemma extract_drop_rule_witness :
  1 <= 50
  /\ exists returned this' this0,
       extract Math_pow_unreached IterateByCount 50 (new darkPalette DEFAULT_OPTIONS)
       = Normal (returned, this')
       /\ mergeColors Math_pow_unreached (ranking Math_pow_unreached IterateByCount darkPalette)
            50 (100 / Number.ofZ 50)%float this0
          = Normal (returned, this').
Proof.
  split; [lia |].
  destruct (extract_drop_rule Math_pow_unreached IterateByCount darkPalette DEFAULT_OPTIONS
              (new darkPalette DEFAULT_OPTIONS) 50
              (Reachable_new _ _ _ _) ltac:(lia))
    as (returned & this' & Hrun & (this0 & _ & Hmerge) & _).
  exists returned, this', this0; split; assumption.
Defined.

(** ** More colors asked for than the palette holds *)

Definition returned {A} (c : Completion (A * ColorExtractor.t)) : option A :=
  match c with
  | Normal (x, _) => Some x
  | Throw _ => None
  end.

(** Black and the darkest blue: one grid bucket, a distance of about 0.4. *)
Definition twoDarks : Palette.t := Palette.mk [(0x000000, 1); (0x000001, 1)].

(** C4, as claimed, fails: asked for three colors of a palette of two
    close ones, [extract] returns one, whatever [Math.pow] and the order of
    iteration. *)
Lemma extract_beyond_palette_counterexample :
  Palette.colors twoDarks <> []
  /\ Palette.length twoDarks = 2
  /\ Palette.length twoDarks < 3
  /\ (forall Math_pow rev,
        returned (extract Math_pow rev 3 (new twoDarks DEFAULT_OPTIONS)) = Some [0x000000]).
Proof.
  split; [discriminate |]; split; [reflexivity |]; split; [reflexivity |].
  intros Math_pow []; vm_compute; reflexivity.
Qed.

Lemma select_length_le Math_pow distance actualLimit maxDelta colors : forall accepted,
  (List.length (select Math_pow distance actualLimit maxDelta colors accepted)
   <= List.length accepted + List.length colors)%nat.
Proof.
  induction colors as [| c rest IH]; intros accepted; cbn; [lia |].
  destruct (actualLimit <=? Z.of_nat (List.length accepted)); [lia |].
  destruct (close distance maxDelta _ _).
  - specialize (IH accepted); lia.
  - specialize (IH (accepted ++ [c])); rewrite length_app in IH; cbn in IH; lia.
Qed.

(** A pass that drops nothing returns what it was given. *)
Lemma select_full Math_pow distance actualLimit maxDelta colors : forall accepted,
  List.length (select Math_pow distance actualLimit maxDelta colors accepted)
  = (List.length accepted + List.length colors)%nat ->
  select Math_pow distance actualLimit maxDelta colors accepted = accepted ++ colors.
Proof.
  induction colors as [| c rest IH]; intros accepted; cbn; [now rewrite app_nil_r |].
  destruct (actualLimit <=? Z.of_nat (List.length accepted)); [lia |].
  destruct (close distance maxDelta _ _).
  - pose proof (select_length_le Math_pow distance actualLimit maxDelta rest accepted); lia.
  - intros Hlen; rewrite IH; [now rewrite <- app_assoc |].
    rewrite length_app; cbn; lia.
Qed.

(** A pass over separated colors, with room for all, drops nothing. *)
Lemma select_all Math_pow actualLimit maxDelta colors : forall accepted,
  Separated Math_pow maxDelta (accepted ++ colors) ->
  Z.of_nat (List.length accepted + List.length colors) <= actualLimit ->
  select Math_pow calculateDeltaE actualLimit maxDelta colors accepted = accepted ++ colors.
Proof.
  induction colors as [| c rest IH]; intros accepted Hsep Hroom; cbn;
    [now rewrite app_nil_r |].
  cbn in Hroom.
  rewrite (proj2 (Z.leb_gt actualLimit (Z.of_nat (List.length accepted)))) by lia.
  assert (Hfar : close calculateDeltaE maxDelta (convertToLab Math_pow c)
                   (map (convertToLab Math_pow) accepted) = false).
  { apply close_false; intros lab2 Hin Hkey.
    apply list_elem_of_fmap in Hin as (a & -> & Hin).
    apply list_elem_of_lookup in Hin as (i & Hi).
    apply (Hsep (List.length accepted) i c a).
    - apply lookup_lt_Some in Hi; lia.
    - now rewrite list_lookup_middle.
    - now rewrite lookup_app_l by (eapply lookup_lt_Some; eassumption).
    - now symmetry. }
  rewrite Hfar, IH.
  - now rewrite <- app_assoc.
  - now rewrite <- app_assoc.
  - rewrite length_app; cbn; lia.
Qed.

(** C4, amended: from a palette that is not empty, a count above the
    number of its colors brings back at least one color and at most that
    number; it brings back that number exactly when the ranking is
    separated, that is, when no two of its colors share a grid bucket at a
    computed distance strictly below [100 / colorCount]. *)
Theorem extract_beyond_palette Math_pow rev p o this colorCount :
  Reachable Math_pow rev p o this ->
  Palette.colors p <> [] ->
  Palette.length p < colorCount ->
  exists colors this',
    extract Math_pow rev colorCount this = Normal (colors, this')
    /\ 1 <= Z.of_nat (List.length colors) <= Palette.length p
    /\ (Z.of_nat (List.length colors) = Palette.length p
        <-> Separated Math_pow (100 / Number.ofZ colorCount)%float (ranking Math_pow rev p)).
Proof.
  intros Hreach Hne Hcount.
  destruct (extract_spec Math_pow rev p o this colorCount (Reachable_Inv _ _ _ _ _ Hreach))
    as (this' & Hrun & _).
  exists (extracted Math_pow rev p colorCount), this'; split; [exact Hrun |].
  pose proof (RankingFacts.ranking_length Math_pow rev p) as Hlen.
  assert (Hpos : 1 <= Palette.length p).
  { unfold Palette.length; destruct (Palette.colors p); [contradiction | cbn; lia]. }
  unfold extracted, merge.
  rewrite (proj2 (Z.eqb_neq colorCount 0)) by lia.
  set (md := (100 / Number.ofZ colorCount)%float).
  set (ranked := ranking Math_pow rev p) in *.
  rewrite Z.min_l by lia.
  destruct (Z.of_nat (List.length ranked) <=? 1) eqn:Hsmall.
  - apply Z.leb_le in Hsmall.
    assert (Hone : List.length ranked = 1%nat) by lia.
    destruct ranked as [| c [| d rest]]; try discriminate.
    change (Array.slice0 [c] (Z.of_nat (List.length [c]))) with [c].
    cbn [List.length] in *.
    split; [lia |]; split; [intros _; apply Separated_few; cbn; lia | lia].
  - apply Z.leb_gt in Hsmall.
    pose proof (select_length Math_pow calculateDeltaE (Z.of_nat (List.length ranked)) md ranked [])
      as Hupper; cbn [List.length] in Hupper.
    split; [split; [| lia] |].
    + destruct ranked as [| c rest]; [cbn in Hsmall; lia |].
      change (c :: rest) with ([c] ++ rest) at 2.
      rewrite select_app, select_one by (cbn; lia).
      cbn [map close existsb app].
      destruct (select_prefix Math_pow calculateDeltaE (Z.of_nat (List.length (c :: rest)))
                  md rest [c]) as (more & -> & _).
      rewrite length_app; cbn; lia.
    + split.
      * intros Hall.
        assert (Hfull : select Math_pow calculateDeltaE (Z.of_nat (List.length ranked)) md
                          ranked [] = [] ++ ranked)
          by (apply select_full; cbn [List.length Nat.add]; lia).
        cbn [app] in Hfull; rewrite <- Hfull.
        apply select_separated, Separated_few; cbn; lia.
      * intros Hsep; rewrite select_all; [cbn; lia | exact Hsep | cbn; lia].
Qed.

Lemma extract_beyond_palette_witness :
  Palette.colors darkPalette <> []
  /\ Palette.length darkPalette < 50
  /\ exists colors this',
       extract Math_pow_unreached IterateByCount 50 (new darkPalette DEFAULT_OPTIONS)
       = Normal (colors, this')
       /\ 1 <= Z.of_nat (List.length colors) <= Palette.length darkPalette
       /\ (Z.of_nat (List.length colors) = Palette.length darkPalette
           <-> Separated Math_pow_unreached (100 / Number.ofZ 50)%float
                 (ranking Math_pow_unreached IterateByCount darkPalette)).
Proof.
  split; [discriminate |]; split; [reflexivity |].
  apply (extract_beyond_palette Math_pow_unreached IterateByCount darkPalette DEFAULT_OPTIONS).
  - constructor.
  - discriminate.
  - reflexivity.
Defined.

(** ** Counts beyond 63 bits *)

(** The conversion of an integer to a number is total: exact where the
    integer is a double, rounded to the nearest even one elsewhere, an
    infinity past the largest double. *)
Lemma ofZ_values :
  Number.ofZ 0 = 0%float
  /\ Number.ofZ 255 = 255%float
  /\ Number.ofZ (-3) = (-3)%float
  /\ Number.ofZ (2 ^ 53 + 1) = 9007199254740992%float
  /\ Number.ofZ (2 ^ 53 + 3) = 9007199254740996%float
  /\ Number.ofZ (2 ^ 63) = 9223372036854775808%float
  /\ Number.ofZ (2 ^ 64) = 18446744073709551616%float
  /\ Number.ofZ (2 ^ 1024) = infinity
  /\ Number.ofZ (- 2 ^ 1024) = neg_infinity.
Proof. vm_compute. repeat split; reflexivity. Qed.

(** [extract(2 ** 63)] on black and the darkest blue: the threshold
    [100 / 2 ** 63] is about [1.08e-17], far below their distance, and both
    colors come back. *)
Lemma extract_large_count :
  forall Math_pow rev,
    returned (extract Math_pow rev (2 ^ 63) (new twoDarks DEFAULT_OPTIONS))
    = Some [0x000000; 0x000001].
Proof. intros Math_pow []; vm_compute; reflexivity. Qed.

(** ** The most used colors *)

Definition entriesOf (p : Palette.t) : list PaletteEntry.t :=
  map (fun '(color, count) => PaletteEntry.mk color count) (Palette.colors p).

Definition byCount (x y : PaletteEntry.t) : bool :=
  0 <? PaletteEntry.count y - PaletteEntry.count x.

Lemma byCount_sorted entries :
  StronglySorted (fun x y => PaletteEntry.count y <= PaletteEntry.count x)
    (Array.sort byCount entries).
Proof.
  assert (H : StronglySorted (fun x y => byCount x y = false) (Array.sort byCount entries)).
  { apply (ArrayFacts.sort_sorted byCount (fun _ => True)); unfold byCount.
    - intros x _; apply Z.ltb_ge; lia.
    - intros x y z _ _ _; rewrite !Z.ltb_lt; lia.
    - intros x y z _ _ _; rewrite !Z.ltb_lt; lia.
    - apply Forall_forall; auto. }
  induction H as [| x rest _ IH Hx]; constructor; [assumption |].
  eapply Forall_impl; [exact Hx |].
  unfold byCount; intros y Hy; apply Z.ltb_ge in Hy; lia.
Qed.

Lemma byCount_stable entries n :
  List.filter (fun e => PaletteEntry.count e =? n) (Array.sort byCount entries)
  = List.filter (fun e => PaletteEntry.count e =? n) entries.
Proof.
  assert (Hstable :
    List.filter (ArrayFacts.tied byCount (PaletteEntry.mk 0 n)) (Array.sort byCount entries)
    = List.filter (ArrayFacts.tied byCount (PaletteEntry.mk 0 n)) entries).
  { apply (ArrayFacts.sort_stable byCount (fun _ => True)); unfold byCount.
    - intros x y z _ _ _; rewrite !Z.ltb_lt; lia.
    - exact I.
    - apply Forall_forall; auto. }
  assert (Htied : forall e,
            (PaletteEntry.count e =? n) = ArrayFacts.tied byCount (PaletteEntry.mk 0 n) e).
  { intros e; unfold ArrayFacts.tied, byCount; cbn.
    destruct (Z.eqb_spec (PaletteEntry.count e) n), (Z.ltb_spec 0 (PaletteEntry.count e - n)),
      (Z.ltb_spec 0 (n - PaletteEntry.count e)); try reflexivity; lia. }
  rewrite !(filter_ext _ _ Htied); exact Hstable.
Qed.

(** C9 at the count zero: [getMostUsedColors(0)] takes the zero for an
    absent limit and returns every entry, not none. *)
Theorem getMostUsedColors_zero :
  (forall p, Palette.getMostUsedColors p (Some 0) = Palette.getMostUsedColors p None)
  /\ Palette.getMostUsedColors (Palette.mk [(0xFF0000, 4)]) (Some 0)
     = [PaletteEntry.mk 0xFF0000 4].
Proof. split; reflexivity. Qed.

(** C9 at the positive counts: [getMostUsedColors(K)] returns the first [K]
    entries of the palette sorted by count, largest first, entries of equal
    count in their order of insertion. *)
Theorem getMostUsedColors_top p K :
  1 <= K ->
  exists ranked,
    Palette.getMostUsedColors p (Some K) = firstn (Z.to_nat K) ranked
    /\ ranked ≡ₚ entriesOf p
    /\ StronglySorted (fun x y => PaletteEntry.count y <= PaletteEntry.count x) ranked
    /\ forall n, List.filter (fun e => PaletteEntry.count e =? n) ranked
                 = List.filter (fun e => PaletteEntry.count e =? n) (entriesOf p).
Proof.
  intros HK; exists (Array.sort byCount (entriesOf p)); split; [| split; [| split]].
  - unfold Palette.getMostUsedColors, Array.slice0.
    rewrite (proj2 (Z.eqb_neq K 0)), (proj2 (Z.ltb_ge K 0)) by lia; reflexivity.
  - apply ArrayFacts.sort_perm.
  - apply byCount_sorted.
  - apply byCount_stable.
Qed.

Lemma getMostUsedColors_top_witness :
  exists ranked,
    Palette.getMostUsedColors darkPalette (Some 2) = firstn (Z.to_nat 2) ranked
    /\ ranked ≡ₚ entriesOf darkPalette
    /\ StronglySorted (fun x y => PaletteEntry.count y <= PaletteEntry.count x) ranked
    /\ forall n, List.filter (fun e => PaletteEntry.count e =? n) ranked
                 = List.filter (fun e => PaletteEntry.count e =? n) (entriesOf darkPalette).
Proof. apply (getMostUsedColors_top darkPalette 2); lia. Defined.

(** ** The ranking by salience *)

(** The priority as section 4.2 of the specification words it; to be
    compared with what [initialize] computes. *)
Module Salience.

Definition chroma (Math_pow : float -> float -> float) (color : Z) : float :=
  let lab := convertToLab Math_pow color in
  PrimFloat.sqrt (LabColor.a lab * LabColor.a lab + LabColor.b lab * LabColor.b lab)%float.

Definition priority (Math_pow : float -> float -> float) (color count : Z) : float :=
  let lab := convertToLab Math_pow color in
  let chroma' :=
    if (chroma Math_pow color =? 0)%float then 1%float else chroma Math_pow color in
  (chroma' * (1 - LabColor.L lab * 0.005) * PrimFloat.sqrt (Number.ofZ count))%float.

Definition record (Math_pow : float -> float -> float) (entry : Z * Z) : PriorityRecord :=
  mkPriority (fst entry) (priority Math_pow (fst entry) (snd entry)).

(** The entry is ranked by a number. *)
Definition numeric (Math_pow : float -> float -> float) (entry : Z * Z) : Prop :=
  PrimFloat.is_nan (chroma Math_pow (fst entry)) = false
  /\ PrimFloat.is_nan (priority Math_pow (fst entry) (snd entry)) = false.

End Salience.

Lemma priorityOf_record Math_pow entry :
  PrimFloat.is_nan (Salience.chroma Math_pow (fst entry)) = false ->
  priorityOf Math_pow entry = Salience.record Math_pow entry.
Proof.
  unfold priorityOf, Salience.record, Salience.priority, Salience.chroma.
  set (lab := convertToLab Math_pow (fst entry)).
  set (chroma := PrimFloat.sqrt _).
  intros Hnum; unfold Number.or, Number.truthy; rewrite Hnum, orb_false_r.
  destruct (chroma =? 0)%float; reflexivity.
Qed.

Lemma eqb_nan x v : PrimFloat.is_nan v = true -> (x =? v)%float = false.
Proof.
  intros Hv.
  assert (Hnan : Prim2SF v = S754_nan).
  { unfold PrimFloat.is_nan in Hv; rewrite FloatAxioms.eqb_spec in Hv.
    unfold SFeqb in Hv; rewrite FloatFacts.SFcompare_place in Hv.
    destruct (Prim2SF v) as [[] | [] | | [] m e]; cbn in Hv;
      rewrite ?Z.compare_refl, ?Pos.compare_refl in Hv; try discriminate; reflexivity. }
  rewrite FloatAxioms.eqb_spec, Hnan; unfold SFeqb.
  now destruct (Prim2SF x) as [[] | [] | | [] m e].
Qed.

Definition ranked (r : PriorityRecord) : Prop := PrimFloat.is_nan (priority r) = false.

Lemma byPriority_ltb x y :
  ranked x -> ranked y -> byPriority x y = (priority x <? priority y)%float.
Proof. intros Hx Hy; unfold byPriority; now apply FloatFacts.sub_pos. Qed.

Lemma StronglySorted_impl {A} (R R' : A -> A -> Prop) (P : A -> Prop) l :
  (forall x y, P x -> P y -> R x y -> R' x y) ->
  Forall P l -> StronglySorted R l -> StronglySorted R' l.
Proof.
  intros Himpl HP Hs; induction Hs as [| x rest _ IH Hx]; constructor.
  - apply IH; now inversion HP.
  - inversion_clear HP as [| ? ? HPx HPrest].
    rewrite Forall_forall in Hx, HPrest |- *; intros y Hy; auto.
Qed.

Lemma byPriority_sorted records :
  Forall ranked records ->
  StronglySorted (fun x y => (priority x <? priority y)%float = false)
    (Array.sort byPriority records).
Proof.
  intros Hnum.
  apply (StronglySorted_impl (fun x y => byPriority x y = false) _ ranked).
  - intros x y Hx Hy; now rewrite byPriority_ltb.
  - now apply ArrayFacts.Forall_sort.
  - apply (ArrayFacts.sort_sorted byPriority ranked).
    + intros x Hx; rewrite byPriority_ltb by assumption; apply FloatFacts.ltb_irrefl.
    + intros x y z Hx Hy Hz; rewrite !byPriority_ltb by assumption.
      now apply FloatFacts.ltb_trans.
    + intros x y z Hx Hy Hz; rewrite !byPriority_ltb by assumption.
      now apply FloatFacts.ltb_cotrans.
    + assumption.
Qed.

Lemma filter_none {A} (l : list A) : List.filter (fun _ => false) l = [].
Proof. induction l; cbn; auto. Qed.

Lemma byPriority_stable records v :
  Forall ranked records ->
  List.filter (fun r => (priority r =? v)%float) (Array.sort byPriority records)
  = List.filter (fun r => (priority r =? v)%float) records.
Proof.
  intros Hnum.
  destruct (PrimFloat.is_nan v) eqn:Hv.
  { rewrite !(filter_ext (fun r => (priority r =? v)%float) (fun _ => false))
      by (intros r; now apply eqb_nan).
    now rewrite !filter_none. }
  assert (Hstable :
    List.filter (ArrayFacts.tied byPriority (mkPriority 0 v)) (Array.sort byPriority records)
    = List.filter (ArrayFacts.tied byPriority (mkPriority 0 v)) records).
  { apply (ArrayFacts.sort_stable byPriority ranked).
    - intros x y z Hx Hy Hz; rewrite !byPriority_ltb by assumption.
      now apply FloatFacts.ltb_cotrans.
    - exact Hv.
    - assumption. }
  assert (Htied : forall r, ranked r ->
            (priority r =? v)%float = ArrayFacts.tied byPriority (mkPriority 0 v) r).
  { intros r Hr; unfold ArrayFacts.tied.
    rewrite !byPriority_ltb by (try assumption; exact Hv); cbn [priority].
    rewrite (FloatFacts.eqb_neither (priority r) v Hr Hv); apply andb_comm. }
  rewrite (filter_ext_in (fun r => (priority r =? v)%float)
             (ArrayFacts.tied byPriority (mkPriority 0 v)) (Array.sort byPriority records)),
    (filter_ext_in (fun r => (priority r =? v)%float)
       (ArrayFacts.tied byPriority (mkPriority 0 v)) records);
    [exact Hstable | |].
  - intros r Hin; apply Htied.
    rewrite Forall_forall in Hnum; now apply Hnum, list_elem_of_In.
  - intros r Hin; apply Htied.
    apply (ArrayFacts.Forall_sort byPriority) in Hnum.
    rewrite Forall_forall in Hnum; now apply Hnum, list_elem_of_In.
Qed.

(** C6: when every entry of the palette is ranked by a number, the record
    [initialize] computes for an entry [(color, count)] holds the priority
    [chroma' * (1 - L * 0.005) * sqrt count], with [chroma'] the chroma
    [sqrt (a * a + b * b)], or 1 when that is zero.  The ranking it stores
    lists the colors of the palette, the records in descending order of
    priority, those of equal priority in the order of iteration.  An empty
    palette gives the empty ranking. *)
Theorem initialize_ranks_by_priority Math_pow rev p o this :
  Reachable Math_pow rev p o this ->
  Forall (Salience.numeric Math_pow) (Palette.iterator rev p) ->
  let records := map (Salience.record Math_pow) (Palette.iterator rev p) in
  exists this1 this' sorted,
    priorities Math_pow (Palette.iterator rev p) this = Normal (records, this1)
    /\ initialize Math_pow rev this = Normal (tt, this')
    /\ sortedColors this' = Some (map color sorted)
    /\ sorted ≡ₚ records
    /\ map color sorted ≡ₚ Palette.getAllColors p
    /\ StronglySorted (fun x y => (priority x <? priority y)%float = false) sorted
    /\ (forall v, List.filter (fun r => (priority r =? v)%float) sorted
                  = List.filter (fun r => (priority r =? v)%float) records)
    /\ (Palette.colors p = [] -> sortedColors this' = Some []).
Proof.
  intros (Hp0 & _ & Hok & _)%Reachable_Inv Hnum records.
  assert (Hrecords : map (priorityOf Math_pow) (Palette.iterator rev p) = records).
  { apply map_ext_in; intros e He%list_elem_of_In; apply priorityOf_record.
    exact (proj1 (proj1 (Forall_forall _ _) Hnum e He)). }
  assert (Hranked : Forall ranked records).
  { apply Forall_forall; intros r (e & -> & He)%list_elem_of_fmap.
    exact (proj2 (proj1 (Forall_forall _ _) Hnum e He)). }
  destruct (priorities_spec Math_pow (Palette.iterator rev p) this Hok) as (this1 & Hrun1 & _).
  destruct (initialize_spec Math_pow rev this Hok) as (this' & Hrun & _ & _ & Hsorted & _).
  rewrite Hp0 in Hsorted; unfold ranking in Hsorted; rewrite Hrecords in Hsorted.
  exists this1, this', (Array.sort byPriority records).
  split; [rewrite <- Hrecords; exact Hrun1 |]; split; [exact Hrun |].
  split; [exact Hsorted |]; split; [apply ArrayFacts.sort_perm |].
  split; [| split; [now apply byPriority_sorted | split]].
  - rewrite ArrayFacts.sort_perm; unfold records, Palette.getAllColors.
    rewrite map_map; cbn [Salience.record color].
    now rewrite (RankingFacts.iterator_perm rev p).
  - intros v; now apply byPriority_stable.
  - intros Hempty; rewrite Hsorted; unfold records.
    assert (Hit : Palette.iterator rev p = []) by (destruct rev; cbn; now rewrite Hempty).
    now rewrite Hit.
Qed.

Lemma initialize_ranks_by_priority_witness :
  Forall (Salience.numeric Math_pow_unreached) (Palette.iterator IterateByCount darkPalette)
  /\ exists this' sorted,
       initialize Math_pow_unreached IterateByCount (new darkPalette DEFAULT_OPTIONS)
       = Normal (tt, this')
       /\ sortedColors this' = Some (map color sorted)
       /\ StronglySorted (fun x y => (priority x <? priority y)%float = false) sorted.
Proof.
  assert (Hnum : Forall (Salience.numeric Math_pow_unreached)
                   (Palette.iterator IterateByCount darkPalette))
    by (repeat constructor; vm_compute; reflexivity).
  split; [exact Hnum |].
  destruct (initialize_ranks_by_priority Math_pow_unreached IterateByCount darkPalette
              DEFAULT_OPTIONS (new darkPalette DEFAULT_OPTIONS)
              (Reachable_new _ _ _ _) Hnum)
    as (_ & this' & sorted & _ & Hrun & Hsorted & _ & _ & Hord & _).
  exists this', sorted; repeat split; assumption.
Defined.

(** ** The short-circuit of the distance is never taken *)

(** The distance without the test on the lightness. *)
Definition euclideanDeltaE (lab1 lab2 : LabColor.t) : float :=
  let deltaL := (LabColor.L lab2 - LabColor.L lab1)%float in
  let deltaA := (LabColor.a lab2 - LabColor.a lab1)%float in
  let deltaB := (LabColor.b lab2 - LabColor.b lab1)%float in
  PrimFloat.sqrt (deltaL * deltaL + deltaA * deltaA + deltaB * deltaB)%float.

(** A lightness of magnitude at most [2 ^ 20]; the conversion of a color
    has one between 0 and 100. *)
Definition moderateColor (Math_pow : float -> float -> float) (c : Z) : Prop :=
  FloatFacts.moderate (LabColor.L (convertToLab Math_pow c)).

Lemma same_bucket_near lab1 lab2 :
  FloatFacts.moderate (LabColor.L lab1) -> FloatFacts.moderate (LabColor.L lab2) ->
  getGridKey lab1 gridSize = getGridKey lab2 gridSize ->
  (50 <? PrimFloat.abs (LabColor.L lab2 - LabColor.L lab1))%float = false.
Proof.
  intros H1 H2 Hkey; unfold getGridKey, gridSize in Hkey.
  injection Hkey as HL _ _.
  now apply FloatFacts.same_cell_near.
Qed.

Lemma calculateDeltaE_same_bucket lab1 lab2 :
  FloatFacts.moderate (LabColor.L lab1) -> FloatFacts.moderate (LabColor.L lab2) ->
  getGridKey lab1 gridSize = getGridKey lab2 gridSize ->
  calculateDeltaE lab1 lab2 = euclideanDeltaE lab1 lab2.
Proof.
  intros H1 H2 Hkey; unfold calculateDeltaE, euclideanDeltaE.
  now rewrite (same_bucket_near lab1 lab2 H1 H2 Hkey).
Qed.

Lemma bucket_elem key labs : forall k i,
  i ∈ bucket key k labs ->
  exists lab, labs !! (i - k)%nat = Some lab /\ getGridKey lab gridSize = key /\ (k <= i)%nat.
Proof.
  induction labs as [| x rest IH]; intros k i Hi; cbn in Hi; [inversion Hi |].
  assert (Hrest : i ∈ bucket key (S k) rest ->
            exists lab, (x :: rest) !! (i - k)%nat = Some lab
                        /\ getGridKey lab gridSize = key /\ (k <= i)%nat).
  { intros (lab & Hlab & Hkey & Hle)%IH; exists lab.
    replace (i - k)%nat with (S (i - S k)) by lia; cbn; repeat split; auto; lia. }
  destruct (decide (getGridKey x gridSize = key)) as [Hk | Hk]; [| auto].
  apply elem_of_cons in Hi as [-> | Hi]; [| auto].
  exists x; rewrite Nat.sub_diag; auto.
Qed.

Lemma merged_ext d1 d2 colorLab labColors maxDelta nearbyIndices this :
  (forall i lab2, i ∈ nearbyIndices -> labColors !! i = Some lab2 ->
                  d1 colorLab lab2 = d2 colorLab lab2) ->
  merged d1 colorLab labColors maxDelta nearbyIndices this
  = merged d2 colorLab labColors maxDelta nearbyIndices this.
Proof.
  induction nearbyIndices as [| i rest IH]; intros Hsame; cbn; [reflexivity |].
  destruct (labColors !! i) as [lab2 |] eqn:Hi; [| reflexivity].
  rewrite (Hsame i lab2) by (auto; left).
  destruct (d2 colorLab lab2 <? maxDelta)%float; [reflexivity |].
  apply IH; intros j lab Hj; apply Hsame; now right.
Qed.

Lemma mergeLoop_euclidean Math_pow actualLimit maxDelta colors : forall st this,
  CacheOk Math_pow this -> MergeInv Math_pow st ->
  Forall (moderateColor Math_pow) (result st) ->
  Forall (moderateColor Math_pow) colors ->
  mergeLoop Math_pow calculateDeltaE actualLimit maxDelta colors st this
  = mergeLoop Math_pow euclideanDeltaE actualLimit maxDelta colors st this.
Proof.
  induction colors as [| c rest IH]; intros st this Hok Hinv Hacc Hcolors; cbn;
    [reflexivity |].
  destruct (actualLimit <=? Z.of_nat (List.length (result st))); [reflexivity |].
  inversion_clear Hcolors as [| ? ? Hc Hrest].
  unfold bind.
  destruct (getLabColor_spec Math_pow c this Hok) as (this1 & -> & (_ & _ & _ & Hok1)).
  destruct Hinv as [Hlabs Hgrid].
  rewrite (merged_ext calculateDeltaE euclideanDeltaE).
  2:{ intros i lab2 Hi Hlab2; rewrite Hgrid in Hi.
      apply bucket_elem in Hi as (lab & Hlab & Hkey & _).
      rewrite Nat.sub_0_r, Hlab2 in Hlab; injection Hlab as <-.
      apply calculateDeltaE_same_bucket; [exact Hc | | now symmetry].
      rewrite Hlabs in Hlab2; apply list_lookup_fmap_Some in Hlab2 as (a & -> & Ha).
      rewrite Forall_forall in Hacc; apply Hacc.
      eapply list_elem_of_lookup_2; eassumption. }
  rewrite Hgrid, (merged_bucket euclideanDeltaE _ maxDelta _ (labColors st) [] this1).
  destruct (existsb _ (labColors st)).
  - apply IH; [assumption | now split | assumption | assumption].
  - apply IH;
      [assumption | exact (MergeInv_accept Math_pow st c (conj Hlabs Hgrid)) | | assumption].
    cbn [result]; apply Forall_app; split; [assumption | constructor; [exact Hc | constructor]].
Qed.

(** C10: on colors of moderate lightness [mergeColors] never takes the
    short-circuit of [calculateDeltaE].  Every index the pass finds under a
    grid key belongs to an accepted color with that key; two colors with
    one key are less than 50 apart in lightness, so that their distance is
    the Euclidean one; and [mergeColors] runs as the variant does that
    calls the Euclidean distance. *)
Theorem mergeColors_euclidean Math_pow rev p o this colors limit maxDelta :
  Reachable Math_pow rev p o this ->
  Forall (moderateColor Math_pow) colors ->
  (forall pre post, colors = pre ++ post ->
     exists st this1,
       mergeLoop Math_pow calculateDeltaE (Z.min (Z.of_nat (List.length colors)) limit)
         maxDelta pre (mkMerge [] [] ∅) this
       = Normal (st, this1)
       /\ forall key i, i ∈ default [] (spatialGrid st !! key) ->
            exists lab, labColors st !! i = Some lab /\ getGridKey lab gridSize = key)
  /\ (forall c1 c2, c1 ∈ colors -> c2 ∈ colors ->
        getGridKey (convertToLab Math_pow c1) gridSize
        = getGridKey (convertToLab Math_pow c2) gridSize ->
        (50 <? PrimFloat.abs (LabColor.L (convertToLab Math_pow c2)
                              - LabColor.L (convertToLab Math_pow c1)))%float = false
        /\ calculateDeltaE (convertToLab Math_pow c1) (convertToLab Math_pow c2)
           = euclideanDeltaE (convertToLab Math_pow c1) (convertToLab Math_pow c2))
  /\ mergeColors Math_pow colors limit maxDelta this
     = mergeColorsWith Math_pow euclideanDeltaE colors limit maxDelta this.
Proof.
  intros (_ & _ & Hok & _)%Reachable_Inv Hmod; split; [| split].
  - intros pre post _.
    destruct (mergeLoop_spec Math_pow calculateDeltaE
                (Z.min (Z.of_nat (List.length colors)) limit) maxDelta pre
                (mkMerge [] [] ∅) this Hok (MergeInv_init Math_pow))
      as (st & this1 & Hloop & _ & [_ Hgrid] & _).
    exists st, this1; split; [exact Hloop |].
    intros key i Hi; rewrite Hgrid in Hi.
    apply bucket_elem in Hi as (lab & Hlab & Hkey & _).
    rewrite Nat.sub_0_r in Hlab; eauto.
  - intros c1 c2 H1 H2 Hkey.
    rewrite Forall_forall in Hmod.
    split; [apply same_bucket_near | apply calculateDeltaE_same_bucket]; auto;
      apply Hmod; assumption.
  - unfold mergeColors, mergeColorsWith.
    destruct (Z.min (Z.of_nat (List.length colors)) limit <=? 1); [reflexivity |].
    unfold bind; rewrite mergeLoop_euclidean;
      [reflexivity | assumption | apply MergeInv_init | constructor | assumption].
Qed.

Lemma mergeColors_euclidean_witness :
  Forall (moderateColor Math_pow_unreached)
    [0x000A00; 0x00000A; 0x0A0000; 0x000000; 0x050505]
  /\ mergeColors Math_pow_unreached [0x000A00; 0x00000A; 0x0A0000; 0x000000; 0x050505] 50 2
       (new darkPalette DEFAULT_OPTIONS)
     = mergeColorsWith Math_pow_unreached euclideanDeltaE
         [0x000A00; 0x00000A; 0x0A0000; 0x000000; 0x050505] 50 2
         (new darkPalette DEFAULT_OPTIONS).
Proof.
  assert (Hmod : Forall (moderateColor Math_pow_unreached)
                   [0x000A00; 0x00000A; 0x0A0000; 0x000000; 0x050505])
    by (repeat constructor; vm_compute; reflexivity).
  split; [exact Hmod |].
  apply (mergeColors_euclidean Math_pow_unreached IterateByCount darkPalette DEFAULT_OPTIONS
           (new darkPalette DEFAULT_OPTIONS) _ 50 2 (Reachable_new _ _ _ _) Hmod).
Defined.

(** * More on the extractor *)

(** ** The order of the extracted colors *)

Lemma select_sublist Math_pow distance actualLimit maxDelta colors : forall accepted,
  exists more,
    select Math_pow distance actualLimit maxDelta colors accepted = accepted ++ more
    /\ sublist more colors.
Proof.
  induction colors as [| c rest IH]; intros accepted; cbn.
  - exists []; split; [now rewrite app_nil_r | constructor].
  - destruct (actualLimit <=? Z.of_nat (List.length accepted)).
    { exists []; split; [now rewrite app_nil_r | apply sublist_nil_l]. }
    destruct (close distance maxDelta _ _).
    + destruct (IH accepted) as (more & -> & Hsub).
      exists more; split; [reflexivity | now constructor].
    + destruct (IH (accepted ++ [c])) as (more & -> & Hsub).
      exists (c :: more); split; [now rewrite <- app_assoc | now constructor].
Qed.

Lemma slice0_sublist {A} (arr : list A) end_ : sublist (Array.slice0 arr end_) arr.
Proof. unfold Array.slice0; destruct (end_ <? 0); apply sublist_take. Qed.

Lemma merge_sublist Math_pow distance colors limit maxDelta :
  sublist (merge Math_pow distance colors limit maxDelta) colors.
Proof.
  unfold merge.
  destruct (Z.min (Z.of_nat (List.length colors)) limit <=? 1).
  - apply slice0_sublist.
  - destruct (select_sublist Math_pow distance (Z.min (Z.of_nat (List.length colors)) limit)
                maxDelta colors []) as (more & -> & Hsub).
    exact Hsub.
Qed.

Lemma merge_head Math_pow distance colors limit maxDelta :
  0 < limit -> head (merge Math_pow distance colors limit maxDelta) = head colors.
Proof.
  intros Hlimit; unfold merge.
  destruct (Z.min (Z.of_nat (List.length colors)) limit <=? 1) eqn:Hsmall.
  - destruct colors as [| c rest]; [unfold Array.slice0; destruct (_ <? 0); now rewrite firstn_nil |].
    apply Z.leb_le in Hsmall; cbn [List.length] in *.
    replace (Z.min (Z.of_nat (S (List.length rest))) limit) with 1 by lia.
    reflexivity.
  - apply Z.leb_gt in Hsmall.
    destruct colors as [| c rest]; [reflexivity |].
    cbn [select]; cbn [List.length].
    destruct (Z.min (Z.of_nat (S (List.length rest))) limit <=? Z.of_nat 0) eqn:Hfull;
      [apply Z.leb_le in Hfull; cbn in Hfull; lia |].
    cbn [map close existsb].
    unfold close; cbn [existsb].
    destruct (select_sublist Math_pow distance
                (Z.min (Z.of_nat (S (List.length rest))) limit) maxDelta rest ([] ++ [c]))
      as (more & -> & _).
    reflexivity.
Qed.

(** X2: the colors that [extract] returns are a sublist of the ranking:
    colors of the ranking, in the order of the ranking.  They are pairwise
    distinct when the palette holds every key once, and for a positive
    count the first of them is the first color of the ranking. *)
Theorem extract_keeps_ranking_order Math_pow rev p o this colorCount :
  Reachable Math_pow rev p o this ->
  exists colors this',
    extract Math_pow rev colorCount this = Normal (colors, this')
    /\ sublist colors (ranking Math_pow rev p)
    /\ (Palette.wf p -> NoDup colors)
    /\ (0 < colorCount -> head colors = head (ranking Math_pow rev p)).
Proof.
  intros Hreach.
  destruct (extract_spec Math_pow rev p o this colorCount (Reachable_Inv _ _ _ _ _ Hreach))
    as (this' & Hrun & _).
  exists (extracted Math_pow rev p colorCount), this'; split; [exact Hrun |].
  assert (Hsub : sublist (extracted Math_pow rev p colorCount) (ranking Math_pow rev p)).
  { unfold extracted; destruct (colorCount =? 0);
      [apply sublist_nil_l | apply merge_sublist]. }
  split; [exact Hsub |]; split.
  - intros Hwf; eapply sublist_NoDup; [| exact Hsub].
    rewrite (RankingFacts.ranking_perm Math_pow rev p); exact Hwf.
  - intros Hpos; unfold extracted.
    destruct (Z.eqb_spec colorCount 0); [lia |].
    now apply merge_head.
Qed.

Lemma extract_keeps_ranking_order_witness :
  exists colors this',
    extract Math_pow_unreached IterateByCount 3 (new darkPalette DEFAULT_OPTIONS)
    = Normal (colors, this')
    /\ sublist colors (ranking Math_pow_unreached IterateByCount darkPalette)
    /\ (Palette.wf darkPalette -> NoDup colors)
    /\ (0 < 3 -> head colors = head (ranking Math_pow_unreached IterateByCount darkPalette)).
Proof.
  apply (extract_keeps_ranking_order Math_pow_unreached IterateByCount darkPalette
           DEFAULT_OPTIONS).
  constructor.
Defined.

(** X3: with a negative count [extract] merges nothing: [Math.min] hands
    the negative count on to [slice], which drops that many colors from the
    end of the ranking. *)
Theorem extract_negative_count Math_pow rev p o this colorCount :
  Reachable Math_pow rev p o this ->
  colorCount < 0 ->
  exists this',
    extract Math_pow rev colorCount this
    = Normal (take (List.length (ranking Math_pow rev p) - Z.to_nat (- colorCount))
                (ranking Math_pow rev p), this').
Proof.
  intros Hreach Hneg.
  destruct (extract_spec Math_pow rev p o this colorCount (Reachable_Inv _ _ _ _ _ Hreach))
    as (this' & Hrun & _).
  exists this'; rewrite Hrun; do 2 f_equal.
  unfold extracted, merge.
  destruct (Z.eqb_spec colorCount 0); [lia |].
  replace (Z.min (Z.of_nat (List.length (ranking Math_pow rev p))) colorCount)
    with colorCount by lia.
  destruct (Z.leb_spec colorCount 1); [| lia].
  unfold Array.slice0.
  destruct (Z.ltb_spec colorCount 0); [| lia].
  f_equal; lia.
Qed.

Lemma extract_negative_count_witness :
  exists this',
    extract Math_pow_unreached IterateByCount (-2) (new darkPalette DEFAULT_OPTIONS)
    = Normal (take (List.length (ranking Math_pow_unreached IterateByCount darkPalette)
                    - Z.to_nat (- -2))
                (ranking Math_pow_unreached IterateByCount darkPalette), this').
Proof.
  apply (extract_negative_count Math_pow_unreached IterateByCount darkPalette DEFAULT_OPTIONS).
  - constructor.
  - lia.
Defined.

(** ** The size of the cache *)

Definition CacheBounded (o : ExtractorOptions) (this : t) : Prop :=
  options this = o
  /\ (useCache o = false -> labCache this = ∅)
  /\ Z.of_nat (size (labCache this)) <= Z.max 1 (maxCacheSize o).

Lemma getLabColor_bounded Math_pow o c this lab this' :
  getLabColor Math_pow c this = Normal (lab, this') ->
  CacheBounded o this -> CacheBounded o this'.
Proof.
  unfold getLabColor, bind, get; intros Hrun (Ho & Hoff & Hsize).
  destruct (useCache (options this)) eqn:Huse; cbn in Hrun.
  - destruct (labCache this !! c) eqn:Hget.
    + inversion Hrun; subst; repeat split; assumption.
    + destruct (Z.leb_spec (maxCacheSize (options this)) (Z.of_nat (size (labCache this))));
        cbn in Hrun; inversion Hrun; subst; unfold CacheBounded; cbn; clear Hrun;
        (split; [reflexivity |]); (split; [congruence |]).
      * rewrite map_size_insert_None by apply lookup_empty.
        rewrite map_size_empty; lia.
      * rewrite map_size_insert_None by assumption; lia.
  - inversion Hrun; subst; repeat split; assumption.
Qed.

Lemma priorities_bounded Math_pow o entries : forall this items this',
  priorities Math_pow entries this = Normal (items, this') ->
  CacheBounded o this -> CacheBounded o this'.
Proof.
  induction entries as [| [c n] rest IH]; intros this items this' Hrun Hb; cbn in Hrun.
  - inversion Hrun; now subst.
  - unfold bind at 1 in Hrun.
    destruct (getLabColor Math_pow c this) as [[lab this1] | e] eqn:Hlab; [| discriminate].
    unfold bind at 1 in Hrun.
    destruct (priorities Math_pow rest this1) as [[items1 this2] | e] eqn:Hrest;
      [| discriminate].
    inversion Hrun; subst.
    eapply IH; [eassumption |]; eapply getLabColor_bounded; eassumption.
Qed.

Lemma merged_state distance colorLab labColors maxDelta nearbyIndices this b this' :
  merged distance colorLab labColors maxDelta nearbyIndices this = Normal (b, this') ->
  this' = this.
Proof.
  induction nearbyIndices as [| i rest IH]; cbn; intros Hrun.
  - now inversion Hrun.
  - destruct (labColors !! i) as [lab2 |]; [| discriminate].
    destruct (distance colorLab lab2 <? maxDelta)%float; [now inversion Hrun | auto].
Qed.

Lemma mergeLoop_bounded Math_pow distance o actualLimit maxDelta colors :
  forall st this st' this',
  mergeLoop Math_pow distance actualLimit maxDelta colors st this = Normal (st', this') ->
  CacheBounded o this -> CacheBounded o this'.
Proof.
  induction colors as [| c rest IH]; intros st this st' this' Hrun Hb; cbn in Hrun.
  - inversion Hrun; now subst.
  - destruct (actualLimit <=? Z.of_nat (List.length (result st)));
      [inversion Hrun; now subst |].
    unfold bind at 1 in Hrun.
    destruct (getLabColor Math_pow c this) as [[lab this1] | e] eqn:Hlab; [| discriminate].
    unfold bind at 1 in Hrun.
    destruct (merged distance lab (labColors st) maxDelta _ this1)
      as [[b this2] | e] eqn:Hmerged; [| discriminate].
    apply merged_state in Hmerged; subst this2.
    apply (getLabColor_bounded _ o) in Hlab; [| assumption].
    destruct b; eapply IH; eassumption.
Qed.

Lemma extract_bounded_cache Math_pow rev o colorCount this colors this' :
  extract Math_pow rev colorCount this = Normal (colors, this') ->
  CacheBounded o this -> CacheBounded o this'.
Proof.
  unfold extract; intros Hrun Hb.
  destruct (colorCount =? 0); [inversion Hrun; now subst |].
  unfold bind at 1, get at 1 in Hrun; unfold bind at 1 in Hrun.
  assert (Hinit : forall u this1,
             match sortedColors this with
             | Some _ => ret tt
             | None => initialize Math_pow rev
             end this = Normal (u, this1) -> CacheBounded o this1).
  { intros u this1 Hinit; destruct (sortedColors this).
    - inversion Hinit; now subst.
    - unfold initialize, bind, get in Hinit.
      destruct (List.length (Palette.iterator rev (palette this)) =? 0)%nat.
      + inversion Hinit; subst; exact Hb.
      + destruct (priorities Math_pow _ this) as [[items this2] | e] eqn:Hitems;
          [| discriminate].
        inversion Hinit; subst.
        eapply priorities_bounded in Hitems; [| eassumption].
        exact Hitems. }
  destruct (match sortedColors this with
            | Some _ => ret tt
            | None => initialize Math_pow rev
            end this) as [[u this1] | e] eqn:Hfirst; [| discriminate].
  specialize (Hinit _ _ eq_refl).
  unfold bind, get in Hrun.
  destruct (sortedColors this1) as [sorted |]; [| discriminate].
  unfold mergeColors, mergeColorsWith in Hrun.
  destruct (Z.min (Z.of_nat (List.length sorted)) colorCount <=? 1);
    [inversion Hrun; now subst |].
  unfold bind in Hrun.
  destruct (mergeLoop Math_pow calculateDeltaE _ _ sorted _ this1)
    as [[st this2] | e] eqn:Hloop; [| discriminate].
  inversion Hrun; subst.
  eapply mergeLoop_bounded; eassumption.
Qed.

(** X4: the cache of an instance stays empty when caching is off, never
    holds more than [max (1, maxCacheSize)] conversions, and holds for a
    color nothing but its conversion. *)
Theorem labCache_bounded Math_pow rev p o this :
  Reachable Math_pow rev p o this ->
  (useCache o = false -> labCache this = ∅)
  /\ Z.of_nat (size (labCache this)) <= Z.max 1 (maxCacheSize o)
  /\ forall c lab, labCache this !! c = Some lab -> lab = convertToLab Math_pow c.
Proof.
  intros Hreach.
  assert (Hb : CacheBounded o this).
  { induction Hreach as [| this k colors this' _ IH Hrun | this this' _ IH Hrun].
    - repeat split; cbn; [rewrite map_size_empty; lia].
    - eapply extract_bounded_cache; eassumption.
    - inversion Hrun; subst; destruct IH as (Ho & _ & _).
      repeat split; cbn; [assumption | rewrite map_size_empty; lia]. }
  destruct Hb as (_ & Hoff & Hsize).
  split; [exact Hoff |]; split; [exact Hsize |].
  apply (Reachable_Inv _ _ _ _ _ Hreach).
Qed.

Definition tightOptions : ExtractorOptions :=
  {| useCache := true; maxCacheSize := 2; batchSize := 1000 |}.

Lemma labCache_bounded_witness :
  exists colors this',
    extract Math_pow_unreached IterateByCount 3 (new darkPalette tightOptions)
    = Normal (colors, this')
    /\ (useCache tightOptions = false -> labCache this' = ∅)
    /\ Z.of_nat (size (labCache this')) <= Z.max 1 (maxCacheSize tightOptions)
    /\ forall c lab, labCache this' !! c = Some lab -> lab = convertToLab Math_pow_unreached c.
Proof.
  destruct (extract Math_pow_unreached IterateByCount 3 (new darkPalette tightOptions))
    as [[colors this'] | e] eqn:Hrun; [| vm_compute in Hrun; discriminate].
  exists colors, this'; split; [reflexivity |].
  apply (labCache_bounded Math_pow_unreached IterateByCount darkPalette tightOptions).
  eapply Reachable_extract; [constructor | exact Hrun].
Defined.

(** * Bytes, buffers and pixels *)

(** An image as the list of its pixels, row after row. *)

Module Pixel.
Record t := mk { r : Byte.byte; g : Byte.byte; b : Byte.byte; a : Byte.byte }.

Definition bytes (px : t) : list Byte.byte := [r px; g px; b px; a px].

Definition alpha (px : t) : Z := Uint8Array.toNumber (a px).

(** The packed color [0xRRGGBB]. *)
Definition color (px : t) : Z :=
  Uint8Array.toNumber (r px) * 65536 + Uint8Array.toNumber (g px) * 256
  + Uint8Array.toNumber (b px).

(** The buffer of an image, row after row. *)
Definition flatten (pixels : list t) : list Byte.byte := concat (map bytes pixels).
End Pixel.

Module BufferFacts.

Lemma toNumber_bounds b : 0 <= Uint8Array.toNumber b <= 255.
Proof.
  unfold Uint8Array.toNumber; pose proof (Byte.to_N_bounded b); lia.
Qed.

Lemma toNumber_ToUint8 z : Uint8Array.toNumber (Uint8Array.ToUint8 z) = z mod 256.
Proof.
  unfold Uint8Array.toNumber, Uint8Array.ToUint8.
  pose proof (Z.mod_pos_bound z 256 ltac:(lia)) as Hz.
  destruct (Byte.of_N (Z.to_N (z mod 256))) as [b |] eqn:Hb; cbn.
  - apply Byte.to_of_N in Hb; rewrite Hb; lia.
  - apply Byte.of_N_None_iff in Hb; lia.
Qed.

Lemma ToUint8_toNumber b : Uint8Array.ToUint8 (Uint8Array.toNumber b) = b.
Proof.
  unfold Uint8Array.ToUint8.
  rewrite Z.mod_small by (pose proof (toNumber_bounds b); lia).
  unfold Uint8Array.toNumber; now rewrite N2Z.id, Byte.of_to_N.
Qed.

(** Bit operations on bytes. *)

Lemma lor_shiftl hi lo k :
  0 <= k -> 0 <= lo < 2 ^ k -> Z.lor (Z.shiftl hi k) lo = hi * 2 ^ k + lo.
Proof.
  intros Hk Hlo.
  rewrite <- Z.lxor_lor, <- Z.add_nocarry_lxor, Z.shiftl_mul_pow2; try lia.
  all: apply Z.bits_inj'; intros n Hn; rewrite Z.land_spec, Z.bits_0.
  all: destruct (Z.lt_ge_cases n k) as [Hlt | Hge];
    [rewrite Z.shiftl_spec_low by assumption; reflexivity |].
  all: destruct (Z.eq_dec lo 0) as [-> | Hne];
    [rewrite Z.bits_0; apply andb_false_r |].
  all: rewrite (Z.bits_above_log2 lo n), andb_false_r; try lia.
  all: apply Z.log2_lt_pow2; try lia.
  all: apply Z.lt_le_trans with (2 ^ k); [lia | apply Z.pow_le_mono_r; lia].
Qed.

Lemma pack_bytes r g b :
  0 <= r <= 255 -> 0 <= g <= 255 -> 0 <= b <= 255 ->
  Palette.pack r g b = r * 65536 + g * 256 + b.
Proof.
  intros Hr Hg Hb; unfold Palette.pack, Number.bor, Number.shl.
  change (16 mod 32) with 16; change (8 mod 32) with 8.
  assert (H31 : 2 ^ 31 = 2147483648) by reflexivity.
  rewrite (ToInt32_small r), (ToInt32_small g), (ToInt32_small b) by lia.
  rewrite !Z.shiftl_mul_pow2 by lia.
  change (2 ^ 16) with 65536; change (2 ^ 8) with 256.
  rewrite (ToInt32_small (r * 65536)), (ToInt32_small (g * 256)) by lia.
  rewrite !(ToInt32_small (r * 65536)), !(ToInt32_small (g * 256)) by lia.
  assert (Hrg : Z.lor (r * 65536) (g * 256) = r * 65536 + g * 256).
  { replace (r * 65536) with (Z.shiftl r 16) by (rewrite Z.shiftl_mul_pow2; lia).
    rewrite (lor_shiftl r (g * 256) 16 ltac:(lia) ltac:(change (2 ^ 16) with 65536; lia)).
    rewrite Z.shiftl_mul_pow2 by lia; reflexivity. }
  rewrite Hrg, !(ToInt32_small (r * 65536 + g * 256)) by lia.
  replace (r * 65536 + g * 256) with (Z.shiftl (r * 256 + g) 8)
    by (rewrite Z.shiftl_mul_pow2; lia).
  rewrite (lor_shiftl _ b 8 ltac:(lia) ltac:(change (2 ^ 8) with 256; lia)).
  rewrite Z.shiftl_mul_pow2 by lia; change (2 ^ 8) with 256.
  apply ToInt32_small; lia.
Qed.

Lemma length_flatten pixels :
  List.length (Pixel.flatten pixels) = (4 * List.length pixels)%nat.
Proof.
  unfold Pixel.flatten; induction pixels as [| px rest IH]; cbn; [reflexivity |].
  cbn in IH; rewrite IH; lia.
Qed.

Lemma lookup_flatten pixels : forall i px,
  pixels !! i = Some px ->
  forall c, (c < 4)%nat -> Pixel.flatten pixels !! (4 * i + c)%nat = Pixel.bytes px !! c.
Proof.
  induction pixels as [| p rest IH]; intros i px Hi c Hc; [discriminate |].
  destruct i as [| i]; cbn in Hi.
  - inversion Hi; subst.
    change (Pixel.flatten (px :: rest)) with (Pixel.bytes px ++ Pixel.flatten rest).
    rewrite lookup_app_l by (cbn; lia); f_equal; lia.
  - change (Pixel.flatten (p :: rest)) with (Pixel.bytes p ++ Pixel.flatten rest).
    rewrite lookup_app_r by (cbn; lia).
    replace (4 * S i + c - List.length (Pixel.bytes p))%nat with (4 * i + c)%nat
      by (cbn; lia).
    now apply IH.
Qed.

Lemma get_flatten pixels i px :
  pixels !! i = Some px ->
  Uint8Array.get (Pixel.flatten pixels) (Z.of_nat i * 4)
  = Some (Uint8Array.toNumber (Pixel.r px))
  /\ Uint8Array.get (Pixel.flatten pixels) (Z.of_nat i * 4 + 1)
     = Some (Uint8Array.toNumber (Pixel.g px))
  /\ Uint8Array.get (Pixel.flatten pixels) (Z.of_nat i * 4 + 2)
     = Some (Uint8Array.toNumber (Pixel.b px))
  /\ Uint8Array.get (Pixel.flatten pixels) (Z.of_nat i * 4 + 3)
     = Some (Pixel.alpha px).
Proof.
  intros Hi; unfold Uint8Array.get, Pixel.alpha.
  pose proof (lookup_flatten pixels i px Hi) as Hget.
  repeat split.
  - destruct (Z.ltb_spec (Z.of_nat i * 4) 0); [lia |].
    replace (Z.to_nat (Z.of_nat i * 4)) with (4 * i + 0)%nat by lia.
    rewrite Hget by lia; reflexivity.
  - destruct (Z.ltb_spec (Z.of_nat i * 4 + 1) 0); [lia |].
    replace (Z.to_nat (Z.of_nat i * 4 + 1)) with (4 * i + 1)%nat by lia.
    rewrite Hget by lia; reflexivity.
  - destruct (Z.ltb_spec (Z.of_nat i * 4 + 2) 0); [lia |].
    replace (Z.to_nat (Z.of_nat i * 4 + 2)) with (4 * i + 2)%nat by lia.
    rewrite Hget by lia; reflexivity.
  - destruct (Z.ltb_spec (Z.of_nat i * 4 + 3) 0); [lia |].
    replace (Z.to_nat (Z.of_nat i * 4 + 3)) with (4 * i + 3)%nat by lia.
    rewrite Hget by lia; reflexivity.
Qed.

(** A loop over the indices of a list is a loop over the list. *)
Lemma foldl_seqZ_lookup {A S} (f : S -> Z -> S) (g : S -> A -> S) (l : list A) :
  (forall s i x, l !! i = Some x -> f s (Z.of_nat i) = g s x) ->
  forall s, foldl f s (seqZ 0 (Z.of_nat (List.length l))) = foldl g s l.
Proof.
  induction l as [| x l IH] using rev_ind; intros Hfg s; [reflexivity |].
  rewrite length_app, Nat.add_1_r, seqZ_S, !foldl_app; cbn.
  rewrite IH.
  - apply Hfg; rewrite lookup_app_r by lia; now rewrite Nat.sub_diag.
  - intros s' i y Hi; apply Hfg; rewrite lookup_app_l; [assumption |].
    now apply lookup_lt_Some in Hi.
Qed.

Lemma strides_pixels n :
  Uint8Array.strides (Z.of_nat (4 * n)) 4 = (fun k => k * 4) <$> seqZ 0 (Z.of_nat n).
Proof.
  unfold Uint8Array.strides; do 2 f_equal.
  replace (Z.of_nat (4 * n) + 4 - 1) with (3 + Z.of_nat n * 4) by lia.
  rewrite Z.div_add by lia; reflexivity.
Qed.

End BufferFacts.

Import BufferFacts.

(** ** The bytes of a number *)

Lemma ToInt32_range z : - 2 ^ 31 <= Number.ToInt32 z < 2 ^ 31.
Proof.
  unfold Number.ToInt32.
  pose proof (Z.mod_pos_bound (z + 2 ^ 31) (2 ^ 32) ltac:(lia)); lia.
Qed.

Lemma ToInt32_fixed z : - 2 ^ 31 <= z < 2 ^ 31 -> Number.ToInt32 z = z.
Proof. intros Hz; unfold Number.ToInt32; rewrite Z.mod_small; lia. Qed.

Lemma band_255 x : Number.band x RGB_MAX = Number.ToInt32 x mod 256.
Proof.
  unfold Number.band, RGB_MAX.
  rewrite (ToInt32_small 255) by lia.
  change 255 with (Z.ones 8); rewrite Z.land_ones by lia.
  change (2 ^ 8) with 256.
  apply ToInt32_small.
  pose proof (Z.mod_pos_bound (Number.ToInt32 x) 256); lia.
Qed.

Lemma sar_div x n : 0 <= n < 32 -> Number.sar x n = Number.ToInt32 x / 2 ^ n.
Proof.
  intros Hn; unfold Number.sar.
  rewrite (Z.mod_small n) by lia.
  apply Z.shiftr_div_pow2; lia.
Qed.

Lemma ToInt32_div x n : 0 <= n -> Number.ToInt32 (Number.ToInt32 x / 2 ^ n) = Number.ToInt32 x / 2 ^ n.
Proof.
  intros Hn; apply ToInt32_fixed.
  pose proof (ToInt32_range x) as Hx.
  assert (Hp : 1 <= 2 ^ n) by (apply (Z.pow_le_mono_r 2 0 n); lia).
  split.
  - apply Z.div_le_lower_bound; [lia |]. 
    assert (2 ^ n * - 2 ^ 31 <= 1 * - 2 ^ 31) by (apply Z.mul_le_mono_nonpos_r; lia).
    lia.
  - apply Z.div_lt_upper_bound; [lia |].
    assert (1 * 2 ^ 31 <= 2 ^ n * 2 ^ 31) by (apply Z.mul_le_mono_nonneg_r; lia).
    lia.
Qed.

(** The bytes of a number used as a color are those of its low 24 bits. *)
Lemma bytes_of_number c :
  Number.band (Number.sar c 16) RGB_MAX = (c mod 16777216) / 65536
  /\ Number.band (Number.sar c 8) RGB_MAX = (c mod 16777216) / 256 mod 256
  /\ Number.band c RGB_MAX = (c mod 16777216) mod 256.
Proof.
  rewrite !band_255, !sar_div, !ToInt32_div by lia.
  change (2 ^ 16) with 65536; change (2 ^ 8) with 256.
  unfold Number.ToInt32.
  change (2 ^ 31) with 2147483648; change (2 ^ 32) with 4294967296.
  repeat split; Z.div_mod_to_equations; lia.
Qed.

Lemma background_bytes backgroundColor :
  Palette.background backgroundColor
  = ((backgroundColor mod 16777216) / 65536,
     (backgroundColor mod 16777216) / 256 mod 256,
     (backgroundColor mod 16777216) mod 256).
Proof.
  unfold Palette.background.
  destruct (bytes_of_number backgroundColor) as (-> & -> & ->); reflexivity.
Qed.

Lemma pack_background backgroundColor :
  (let '(bgR, bgG, bgB) := Palette.background backgroundColor in Palette.pack bgR bgG bgB)
  = backgroundColor mod 16777216.
Proof.
  rewrite background_bytes.
  rewrite pack_bytes; Z.div_mod_to_equations; lia.
Qed.

(** * The distance and the conversion *)

(** X5: the distance is symmetric, bit for bit. *)
Theorem calculateDeltaE_symmetric lab1 lab2 maxDelta :
  calculateDeltaE lab1 lab2 = calculateDeltaE lab2 lab1
  /\ (calculateDeltaE lab1 lab2 <? maxDelta)%float
     = (calculateDeltaE lab2 lab1 <? maxDelta)%float.
Proof. now rewrite (calculateDeltaE_sym lab1 lab2). Qed.

(** X6: the conversion reads the low 24 bits of its argument and nothing
    else. *)
Theorem convertToLab_low_bits Math_pow c :
  convertToLab Math_pow c = convertToLab Math_pow (c mod 16777216).
Proof.
  unfold convertToLab.
  destruct (bytes_of_number c) as (-> & -> & ->).
  destruct (bytes_of_number (c mod 16777216)) as (-> & -> & ->).
  now rewrite !Z.mod_mod by lia.
Qed.

(** * The palette of an image *)

Module PaletteFacts.

(** The sum of the counts. *)
Definition total (entries : list (Z * Z)) : Z := foldr Z.add 0 (map snd entries).

Lemma getColorCount_increment c entries c' :
  Palette.getColorCount (Palette.mk (Palette.increment c entries)) c'
  = Palette.getColorCount (Palette.mk entries) c' + (if Z.eqb c c' then 1 else 0).
Proof.
  unfold Palette.getColorCount; cbn.
  induction entries as [| [k n] rest IH]; cbn.
  - destruct (Z.eqb c c'); reflexivity.
  - destruct (Z.eqb_spec k c) as [-> | Hkc]; cbn.
    + destruct (Z.eqb_spec c c'); lia.
    + destruct (Z.eqb_spec k c') as [-> | Hkc']; [| exact IH].
      destruct (Z.eqb_spec c c'); [congruence | lia].
Qed.

Lemma hasColor_increment c entries c' :
  Palette.hasColor (Palette.mk (Palette.increment c entries)) c'
  = Palette.hasColor (Palette.mk entries) c' || Z.eqb c c'.
Proof.
  unfold Palette.hasColor; cbn.
  induction entries as [| [k n] rest IH]; cbn.
  - now rewrite orb_false_r.
  - destruct (Z.eqb_spec k c) as [-> | Hkc]; cbn.
    + destruct (Z.eqb c c'); cbn; [reflexivity | now rewrite orb_false_r].
    + rewrite IH; now rewrite orb_assoc.
Qed.

Lemma total_increment c entries : total (Palette.increment c entries) = total entries + 1.
Proof.
  unfold total; induction entries as [| [k n] rest IH]; cbn; [reflexivity |].
  destruct (Z.eqb k c); cbn; lia.
Qed.

Lemma keys_increment c entries :
  map fst (Palette.increment c entries)
  = if Palette.hasColor (Palette.mk entries) c then map fst entries
    else map fst entries ++ [c].
Proof.
  unfold Palette.hasColor; cbn.
  induction entries as [| [k n] rest IH]; cbn; [reflexivity |].
  destruct (Z.eqb k c); cbn; [reflexivity |].
  rewrite IH; now destruct (existsb _ rest).
Qed.

Lemma hasColor_elem entries c :
  Palette.hasColor (Palette.mk entries) c = true <-> c ∈ map fst entries.
Proof.
  unfold Palette.hasColor; cbn; rewrite existsb_exists, list_elem_of_fmap; split.
  - intros ([k n] & Hin & Heq%Z.eqb_eq); cbn in Heq; subst k.
    exists (c, n); split; [reflexivity | now apply list_elem_of_In].
  - intros ([k n] & Heq & Hin); cbn in Heq; subst k.
    exists (c, n); split; [now apply list_elem_of_In | apply Z.eqb_refl].
Qed.

(** What a loop that only counts colors keeps true of the entries. *)
Definition Counted (entries : list (Z * Z)) : Prop :=
  NoDup (map fst entries) /\ Forall (fun e => 1 <= snd e) entries.

Lemma Counted_nil : Counted [].
Proof. split; constructor. Qed.

Lemma Counted_increment c entries : Counted entries -> Counted (Palette.increment c entries).
Proof.
  intros [Hkeys Hpos]; split.
  - rewrite keys_increment.
    destruct (Palette.hasColor (Palette.mk entries) c) eqn:Hhas; [assumption |].
    apply NoDup_app; split; [assumption |]; split; [| apply NoDup_singleton].
    intros x Hx ->%list_elem_of_singleton.
    apply hasColor_elem in Hx; congruence.
  - clear Hkeys; induction Hpos as [| [k n] rest Hn Hrest IH]; cbn.
    + repeat constructor; cbn; lia.
    + destruct (Z.eqb k c); constructor; cbn in *; try lia; assumption.
Qed.

Lemma Counted_count entries c :
  Counted entries ->
  (Palette.hasColor (Palette.mk entries) c = true
   <-> 1 <= Palette.getColorCount (Palette.mk entries) c)
  /\ 0 <= Palette.getColorCount (Palette.mk entries) c.
Proof.
  intros [_ Hpos]; unfold Palette.hasColor, Palette.getColorCount; cbn.
  induction Hpos as [| [k n] rest Hn Hrest IH]; cbn.
  - split; [split; [discriminate | lia] | lia].
  - destruct (Z.eqb k c); cbn in *; [| exact IH].
    split; [split; [lia | reflexivity] | lia].
Qed.

Section Loop.
Context {A : Type} (counts : A -> option Z).

(** One turn of a loop that counts the color of [x], or skips [x]. *)
Definition turn (entries : list (Z * Z)) (x : A) : list (Z * Z) :=
  match counts x with
  | Some c => Palette.increment c entries
  | None => entries
  end.

Lemma Counted_turns xs : forall entries, Counted entries -> Counted (foldl turn entries xs).
Proof.
  induction xs as [| x xs IH]; intros entries H; cbn; [assumption |].
  apply IH; unfold turn; destruct (counts x); [now apply Counted_increment | assumption].
Qed.

Lemma getColorCount_turns c xs : forall entries,
  Palette.getColorCount (Palette.mk (foldl turn entries xs)) c
  = Palette.getColorCount (Palette.mk entries) c
    + Z.of_nat (List.length (List.filter (fun x => bool_decide (counts x = Some c)) xs)).
Proof.
  induction xs as [| x xs IH]; intros entries; cbn; [lia |].
  rewrite IH; unfold turn.
  destruct (counts x) as [k |].
  - rewrite getColorCount_increment.
    destruct (Z.eqb_spec k c) as [-> | Hne].
    + rewrite bool_decide_eq_true_2 by reflexivity; cbn [List.length]; lia.
    + rewrite bool_decide_eq_false_2 by congruence; lia.
  - rewrite bool_decide_eq_false_2 by discriminate; lia.
Qed.

Lemma total_turns xs : forall entries,
  total (foldl turn entries xs)
  = total entries + Z.of_nat (List.length (List.filter (fun x => bool_decide (is_Some (counts x))) xs)).
Proof.
  induction xs as [| x xs IH]; intros entries; cbn [foldl List.filter List.length];
    [symmetry; apply Z.add_0_r |].
  rewrite IH; unfold turn.
  destruct (counts x) as [k |].
  - rewrite total_increment, bool_decide_eq_true_2 by eauto; cbn [List.length]; lia.
  - rewrite bool_decide_eq_false_2 by (intros [? ?]; discriminate); lia.
Qed.

End Loop.

(** The two loop bodies are such turns: what a body counts can be read
    off its run on the empty palette. *)

Definition seen (body : list (Z * Z) -> Z -> list (Z * Z)) (i : Z) : option Z :=
  match body [] i with
  | (c, _) :: _ => Some c
  | [] => None
  end.

Lemma countEarlier_turn data backgroundColor entries i :
  Palette.countEarlier data backgroundColor entries i
  = turn (seen (Palette.countEarlier data backgroundColor)) entries i.
Proof.
  unfold Palette.countEarlier, turn, seen.
  destruct (decide _); [| reflexivity].
  destruct backgroundColor as [bg |]; [| reflexivity].
  now destruct (Palette.background bg) as [[bgR bgG] bgB].
Qed.

Lemma countLater_turn data backgroundColor bg entries i :
  Palette.countLater data backgroundColor bg entries i
  = turn (seen (Palette.countLater data backgroundColor bg)) entries i.
Proof.
  destruct bg as [[bgR bgG] bgB].
  unfold Palette.countLater, turn, seen.
  destruct (bool_decide _ && negb _); [reflexivity |].
  destruct (match Uint8Array.get data (i * Palette.RGBA_CHANNELS + 3) with
            | Some z => z <? Palette.ALPHA_OPAQUE
            | None => false
            end);
    destruct backgroundColor; reflexivity.
Qed.

Lemma foldl_ext {S B} (f g : S -> B -> S) (l : list B) :
  (forall s x, f s x = g s x) -> forall s, foldl f s l = foldl g s l.
Proof.
  intros Hfg; induction l as [| x l IH]; intros s; cbn; [reflexivity |].
  now rewrite Hfg, IH.
Qed.

(** Either revision runs a loop of such turns. *)
Lemma fromImageData_turns rev imageData backgroundColor :
  exists (counts : Z -> option Z) (turns : list Z),
    Palette.colors (Palette.fromImageData rev imageData backgroundColor)
    = foldl (turn counts) [] turns
    /\ (backgroundColor <> None ->
        (forall i, is_Some (counts i))
        /\ Z.of_nat (List.length turns)
           = match rev with
             | IterateByCount => (Z.of_nat (List.length (ImageData.data imageData)) + 3) / 4
             | IterateByInsertion =>
                 Z.max 0 (ImageData.width imageData * ImageData.height imageData)
             end).
Proof.
  unfold Palette.fromImageData; destruct rev.
  - eexists _, _; split;
      [cbn; apply foldl_ext; intros; apply countEarlier_turn |].
    intros Hbg; split.
    + intros i; unfold seen, Palette.countEarlier.
      destruct backgroundColor as [bg |]; [| congruence].
      destruct (decide _); [destruct (Palette.background bg) as [[bgR bgG] bgB] |];
        cbn; eauto.
    + unfold Uint8Array.strides, Palette.RGBA_CHANNELS.
      rewrite length_fmap, length_seqZ.
      replace (Z.of_nat (List.length (ImageData.data imageData)) + 4 - 1)
        with (Z.of_nat (List.length (ImageData.data imageData)) + 3) by lia.
      apply Z2Nat.id, Z.div_pos; lia.
  - destruct (Z.eqb_spec (ImageData.width imageData) 0) as [Hw | Hw];
      [| destruct (Z.eqb_spec (ImageData.height imageData) 0) as [Hh | Hh]]; cbn.
    + exists (fun _ => Some 0), []; split; [reflexivity |].
      intros _; split; [eauto | rewrite Hw; reflexivity].
    + exists (fun _ => Some 0), []; split; [reflexivity |].
      intros _; split; [eauto | rewrite Hh, Z.mul_0_r; reflexivity].
    + eexists _, _; split; [apply foldl_ext; intros; apply countLater_turn |].
      intros Hbg; split.
      * intros i; unfold seen, Palette.countLater.
        destruct backgroundColor as [bg |]; [| congruence].
        destruct (Palette.background bg) as [[bgR bgG] bgB].
        rewrite andb_false_r.
        destruct (match Uint8Array.get _ _ with Some z => z <? _ | None => false end);
          cbn; eauto.
      * rewrite length_seqZ; lia.
Qed.

End PaletteFacts.

Import PaletteFacts.

(** X7: whatever the image and the background, the palette that
    [fromImageData] builds, in either revision, holds every color once and
    with a count of at least one; [hasColor], [getAllColors] and
    [getColorCount] agree on which colors it holds. *)
Theorem fromImageData_well_formed rev imageData backgroundColor :
  Palette.wf (Palette.fromImageData rev imageData backgroundColor)
  /\ Forall (fun e => 1 <= snd e)
       (Palette.colors (Palette.fromImageData rev imageData backgroundColor))
  /\ forall c,
       (Palette.hasColor (Palette.fromImageData rev imageData backgroundColor) c = true
        <-> c ∈ Palette.getAllColors (Palette.fromImageData rev imageData backgroundColor))
       /\ (Palette.hasColor (Palette.fromImageData rev imageData backgroundColor) c = true
           <-> 1 <= Palette.getColorCount
                      (Palette.fromImageData rev imageData backgroundColor) c)
       /\ (Palette.hasColor (Palette.fromImageData rev imageData backgroundColor) c = false
           <-> Palette.getColorCount
                 (Palette.fromImageData rev imageData backgroundColor) c = 0).
Proof.
  destruct (fromImageData_turns rev imageData backgroundColor)
    as (counts & turns & Hp & _).
  destruct (Palette.fromImageData rev imageData backgroundColor) as [entries].
  cbn in Hp; subst entries.
  pose proof (Counted_turns counts turns [] Counted_nil) as Hc.
  split; [apply Hc |]; split; [apply Hc |].
  intros c; split; [apply hasColor_elem |].
  destruct (Counted_count _ c Hc) as [Hhas Hnonneg].
  split; [exact Hhas |].
  destruct (Palette.hasColor _ c); split; intros H; try discriminate; try lia.
Qed.

(** X8: with a background color no pixel is dropped: the counts of the palette
    add up to the number of turns of the loop. *)
Theorem fromImageData_background_counts_all rev imageData backgroundColor :
  total (Palette.colors (Palette.fromImageData rev imageData (Some backgroundColor)))
  = match rev with
    | IterateByCount => (Z.of_nat (List.length (ImageData.data imageData)) + 3) / 4
    | IterateByInsertion => Z.max 0 (ImageData.width imageData * ImageData.height imageData)
    end.
Proof.
  destruct (fromImageData_turns rev imageData (Some backgroundColor))
    as (counts & turns & -> & Hall).
  destruct Hall as [Hall <-]; [discriminate |].
  rewrite total_turns; change (total []) with 0; rewrite Z.add_0_l; do 2 f_equal.
  clear - Hall; induction turns as [| i turns IH]; cbn; [reflexivity |].
  rewrite bool_decide_eq_true_2 by apply Hall; now rewrite IH.
Qed.

(** ** The histogram of an image *)

(** The pixels that [fromImageData] counts when it has no background
    color: the earlier revision skips the pixels of alpha 0, the later one
    all but the opaque ones. *)
Definition visible (rev : PaletteRevision) (px : Pixel.t) : bool :=
  match rev with
  | IterateByCount => negb (Pixel.alpha px =? 0)
  | IterateByInsertion => Pixel.alpha px =? 255
  end.

Lemma pack_pixel px :
  Palette.pack (Uint8Array.toNumber (Pixel.r px)) (Uint8Array.toNumber (Pixel.g px))
    (Uint8Array.toNumber (Pixel.b px))
  = Pixel.color px.
Proof. apply pack_bytes; apply toNumber_bounds. Qed.

Lemma alpha_bounds px : 0 <= Pixel.alpha px <= 255.
Proof. apply toNumber_bounds. Qed.

(** The earlier loop as a loop over the pixels. *)
Lemma earlier_pixels backgroundColor pixels :
  Palette.colors
    (Palette.fromImageData IterateByCount
       (ImageData.mk 0 0 (Pixel.flatten pixels)) backgroundColor)
  = foldl
      (turn (fun px =>
               if Pixel.alpha px =? 0
               then (fun bg => bg mod 16777216) <$> backgroundColor
               else Some (Pixel.color px)))
      [] pixels.
Proof.
  cbn; rewrite length_flatten, strides_pixels, foldl_fmap.
  apply foldl_seqZ_lookup; intros entries i px Hi.
  unfold Palette.countEarlier, turn.
  destruct (get_flatten pixels i px Hi) as (Hr & Hg & Hb & Ha).
  rewrite Hr, Hg, Hb, Ha; cbn [Palette.int32Of from_option id].
  rewrite pack_pixel.
  destruct (Z.eqb_spec (Pixel.alpha px) 0) as [H0 | H0].
  - rewrite H0; destruct (decide _); [| congruence].
    destruct backgroundColor as [bg |]; [| reflexivity].
    cbn [fmap option_fmap option_map]; rewrite <- pack_background.
    destruct (Palette.background bg) as [[bgR bgG] bgB]; reflexivity.
  - destruct (decide _); [congruence | reflexivity].
Qed.

Lemma fromImageData_earlier_size width height data backgroundColor :
  Palette.fromImageData IterateByCount (ImageData.mk width height data) backgroundColor
  = Palette.fromImageData IterateByCount (ImageData.mk 0 0 data) backgroundColor.
Proof. reflexivity. Qed.

(** The later loop as a loop over the pixels, when there is no
    background color. *)
Lemma later_pixels width height pixels :
  width * height = Z.of_nat (List.length pixels) ->
  Palette.colors
    (Palette.fromImageData IterateByInsertion
       (ImageData.mk width height (Pixel.flatten pixels)) None)
  = foldl
      (turn (fun px => if Pixel.alpha px =? 255 then Some (Pixel.color px) else None))
      [] pixels.
Proof.
  intros Hsize; unfold Palette.fromImageData; cbn [ImageData.width ImageData.height ImageData.data].
  destruct ((width =? 0) || (height =? 0)) eqn:Hzero.
  - destruct pixels; [reflexivity |].
    apply orb_true_iff in Hzero as [->%Z.eqb_eq | ->%Z.eqb_eq]; cbn in Hsize; lia.
  - rewrite Hsize; cbn [Palette.colors].
    apply foldl_seqZ_lookup; intros entries i px Hi.
    unfold Palette.countLater, turn, Palette.RGBA_CHANNELS, Palette.ALPHA_OPAQUE.
    destruct (get_flatten pixels i px Hi) as (Hr & Hg & Hb & Ha).
    cbv beta iota zeta; rewrite Hr, Hg, Hb, Ha.
    cbn [Palette.int32Of from_option id negb]; rewrite !andb_false_r, andb_true_r.
    pose proof (alpha_bounds px) as Hrange.
    destruct (Z.eqb_spec (Pixel.alpha px) 255) as [H255 | H255].
    + rewrite H255, bool_decide_eq_false_2 by discriminate.
      change (255 <? 255) with false; cbv iota; now rewrite pack_pixel.
    + destruct (bool_decide _); [reflexivity |].
      destruct (Z.ltb_spec (Pixel.alpha px) 255); [reflexivity | lia].
Qed.

Lemma filter_length_ext {A} (f g : A -> bool) (l : list A) :
  (forall x, f x = g x) -> List.length (List.filter f l) = List.length (List.filter g l).
Proof. intros H; now rewrite (List.filter_ext f g H). Qed.

(** X9: without a background color, the count of a color in the palette
    of an image is the number of its visible pixels of that color. *)
Theorem fromImageData_histogram rev width height pixels c :
  width * height = Z.of_nat (List.length pixels) ->
  Palette.getColorCount
    (Palette.fromImageData rev (ImageData.mk width height (Pixel.flatten pixels)) None) c
  = Z.of_nat
      (List.length
         (List.filter (fun px => visible rev px && (Pixel.color px =? c)) pixels)).
Proof.
  intros Hsize.
  destruct (Palette.fromImageData rev _ None) as [entries] eqn:Hrun.
  apply (f_equal Palette.colors) in Hrun; cbn in Hrun; subst entries.
  destruct rev.
  - rewrite fromImageData_earlier_size, earlier_pixels, getColorCount_turns.
    change (Palette.getColorCount {| Palette.colors := [] |} c) with 0.
    rewrite Z.add_0_l; f_equal; apply filter_length_ext; intros px; cbn.
    destruct (Pixel.alpha px =? 0); cbn; [now rewrite bool_decide_eq_false_2 |].
    destruct (Z.eqb_spec (Pixel.color px) c) as [-> | Hne].
    + now rewrite bool_decide_eq_true_2.
    + rewrite bool_decide_eq_false_2; [reflexivity | congruence].
  - rewrite later_pixels, getColorCount_turns by assumption.
    change (Palette.getColorCount {| Palette.colors := [] |} c) with 0.
    rewrite Z.add_0_l; f_equal; apply filter_length_ext; intros px; cbn.
    destruct (Pixel.alpha px =? 255); cbn; [| now rewrite bool_decide_eq_false_2].
    destruct (Z.eqb_spec (Pixel.color px) c) as [-> | Hne].
    + now rewrite bool_decide_eq_true_2.
    + rewrite bool_decide_eq_false_2; [reflexivity | congruence].
Qed.

Definition red : Pixel.t := Pixel.mk Byte.xff Byte.x00 Byte.x00 Byte.xff.
Definition faintBlue : Pixel.t := Pixel.mk Byte.x00 Byte.x00 Byte.xff Byte.x80.
Definition clearGreen : Pixel.t := Pixel.mk Byte.x00 Byte.xff Byte.x00 Byte.x00.

Lemma fromImageData_histogram_witness :
  Palette.getColorCount
    (Palette.fromImageData IterateByInsertion
       (ImageData.mk 2 2 (Pixel.flatten [red; faintBlue; clearGreen; red])) None) 0xFF0000
  = Z.of_nat
      (List.length
         (List.filter (fun px => visible IterateByInsertion px && (Pixel.color px =? 0xFF0000))
            [red; faintBlue; clearGreen; red])).
Proof.
  apply (fromImageData_histogram IterateByInsertion 2 2 [red; faintBlue; clearGreen; red]).
  reflexivity.
Defined.

(** X10: with a background color, the earlier revision counts a pixel of
    alpha 0 as the background color, taken modulo 2^24, and every other
    pixel as its own color. *)
Theorem fromImageData_earlier_background width height pixels backgroundColor c :
  Palette.getColorCount
    (Palette.fromImageData IterateByCount
       (ImageData.mk width height (Pixel.flatten pixels)) (Some backgroundColor)) c
  = Z.of_nat
      (List.length
         (List.filter (fun px => negb (Pixel.alpha px =? 0) && (Pixel.color px =? c)) pixels))
    + (if backgroundColor mod 16777216 =? c
       then Z.of_nat (List.length (List.filter (fun px => Pixel.alpha px =? 0) pixels))
       else 0).
Proof.
  destruct (Palette.fromImageData IterateByCount _ _) as [entries] eqn:Hrun.
  apply (f_equal Palette.colors) in Hrun; cbn [Palette.colors] in Hrun; subst entries.
  rewrite fromImageData_earlier_size, earlier_pixels, getColorCount_turns.
  change (Palette.getColorCount {| Palette.colors := [] |} c) with 0.
  cbn [fmap option_fmap option_map]; rewrite Z.add_0_l.
  induction pixels as [| px rest IH]; cbn; [now destruct (_ =? c) |].
  destruct (Pixel.alpha px =? 0); cbn.
  - destruct (Z.eqb_spec (backgroundColor mod 16777216) c) as [Hc | Hc].
    + rewrite bool_decide_eq_true_2 by congruence; cbn [List.length]; lia.
    + rewrite bool_decide_eq_false_2 by congruence; lia.
  - destruct (Z.eqb_spec (Pixel.color px) c) as [Hc | Hc].
    + rewrite bool_decide_eq_true_2 by congruence; cbn [List.length]; lia.
    + rewrite bool_decide_eq_false_2 by congruence; lia.
Qed.

(** The blend of the later revision, at alpha 0. *)
Definition blendClear (channel bgChannel : Z) : Z :=
  let alphaRatio := PrimFloat.div (Palette.numberOf (Some 0)) (Number.ofZ RGB_MAX) in
  let invAlphaRatio := PrimFloat.sub 1%float alphaRatio in
  Number.floorInteger
    (PrimFloat.add (PrimFloat.mul (Palette.numberOf (Some channel)) alphaRatio)
       (PrimFloat.mul (Number.ofZ bgChannel) invAlphaRatio)).

Lemma blendClear_background channel bgChannel :
  0 <= channel <= 255 -> 0 <= bgChannel <= 255 -> blendClear channel bgChannel = bgChannel.
Proof.
  intros Hc Hb.
  assert (Hall : forallb (fun ch => forallb (fun bg => blendClear ch bg =? bg) (seqZ 0 256))
                   (seqZ 0 256) = true) by (vm_compute; reflexivity).
  rewrite forallb_forall in Hall.
  specialize (Hall channel); rewrite forallb_forall in Hall.
  apply Z.eqb_eq, Hall; apply list_elem_of_In, elem_of_seqZ; lia.
Qed.

Lemma blend_clear channel bgChannel :
  0 <= channel <= 255 -> 0 <= bgChannel <= 255 ->
  Number.floorInteger
    (Palette.numberOf (Some channel) * (Palette.numberOf (Some 0%Z) / Number.ofZ RGB_MAX)
     + Number.ofZ bgChannel * (1 - Palette.numberOf (Some 0%Z) / Number.ofZ RGB_MAX))%float
  = bgChannel.
Proof. exact (blendClear_background channel bgChannel). Qed.

Lemma background_range backgroundColor :
  let '(bgR, bgG, bgB) := Palette.background backgroundColor in
  0 <= bgR <= 255 /\ 0 <= bgG <= 255 /\ 0 <= bgB <= 255.
Proof. rewrite background_bytes; repeat split; Z.div_mod_to_equations; lia. Qed.

(** The later loop as a loop over the pixels, when every pixel is opaque
    or clear. *)
Lemma later_pixels_binary width height pixels backgroundColor :
  width * height = Z.of_nat (List.length pixels) ->
  Forall (fun px => Pixel.alpha px = 0 \/ Pixel.alpha px = 255) pixels ->
  Palette.colors
    (Palette.fromImageData IterateByInsertion
       (ImageData.mk width height (Pixel.flatten pixels)) (Some backgroundColor))
  = foldl
      (turn (fun px =>
               if Pixel.alpha px =? 0 then Some (backgroundColor mod 16777216)
               else Some (Pixel.color px)))
      [] pixels.
Proof.
  intros Hsize Hbinary; unfold Palette.fromImageData;
    cbn [ImageData.width ImageData.height ImageData.data].
  destruct ((width =? 0) || (height =? 0)) eqn:Hzero.
  - destruct pixels; [reflexivity |].
    apply orb_true_iff in Hzero as [->%Z.eqb_eq | ->%Z.eqb_eq]; cbn in Hsize; lia.
  - rewrite Hsize; cbn [Palette.colors].
    apply foldl_seqZ_lookup; intros entries i px Hi.
    pose proof (pack_background backgroundColor) as Hpack.
    pose proof (background_range backgroundColor) as Hbg.
    destruct (Palette.background backgroundColor) as [[bgR bgG] bgB].
    destruct Hbg as (HbgR & HbgG & HbgB).
    unfold Palette.countLater, turn, Palette.RGBA_CHANNELS, Palette.ALPHA_OPAQUE.
    destruct (get_flatten pixels i px Hi) as (Hr & Hg & Hb & Ha).
    cbv beta iota zeta; rewrite Hr, Hg, Hb, Ha.
    cbn [Palette.int32Of from_option id negb]; rewrite andb_false_r, andb_true_r.
    rewrite Forall_forall in Hbinary.
    destruct (Hbinary px) as [H0 | H255];
      [eapply list_elem_of_lookup_2; eassumption | |].
    + rewrite H0; change (0 <? 255) with true; change (0 =? 0) with true; cbv iota.
      rewrite !blend_clear by (assumption || apply toNumber_bounds).
      now rewrite Hpack.
    + rewrite H255; change (255 <? 255) with false; change (255 =? 0) with false.
      cbv iota; now rewrite pack_pixel.
Qed.

Lemma foldl_turn_ext {A} (f g : A -> option Z) (l : list A) :
  Forall (fun x => f x = g x) l ->
  forall entries, foldl (turn f) entries l = foldl (turn g) entries l.
Proof.
  induction 1 as [| x l Hx _ IH]; intros entries; cbn; [reflexivity |].
  unfold turn at 2 4; now rewrite Hx, IH.
Qed.

(** X11: on an image whose pixels are all opaque or clear, the two revisions of
    [fromImageData] build the same palette, with or without a background
    color. *)
Theorem fromImageData_revisions_agree width height pixels backgroundColor :
  width * height = Z.of_nat (List.length pixels) ->
  Forall (fun px => Pixel.alpha px = 0 \/ Pixel.alpha px = 255) pixels ->
  Palette.fromImageData IterateByInsertion
    (ImageData.mk width height (Pixel.flatten pixels)) backgroundColor
  = Palette.fromImageData IterateByCount
      (ImageData.mk width height (Pixel.flatten pixels)) backgroundColor.
Proof.
  intros Hsize Hbinary.
  assert (Hcolors : forall p q, Palette.colors p = Palette.colors q -> p = q)
    by (intros [p] [q]; cbn; congruence).
  apply Hcolors.
  rewrite (fromImageData_earlier_size width height), earlier_pixels.
  destruct backgroundColor as [bg |].
  - rewrite later_pixels_binary by assumption; reflexivity.
  - rewrite later_pixels by assumption.
    apply foldl_turn_ext.
    eapply Forall_impl; [exact Hbinary |].
    intros px [H | H]; rewrite H; reflexivity.
Qed.

Lemma fromImageData_revisions_agree_witness :
  Palette.fromImageData IterateByInsertion
    (ImageData.mk 3 1 (Pixel.flatten [red; clearGreen; red])) (Some 0xFFFFFF)
  = Palette.fromImageData IterateByCount
      (ImageData.mk 3 1 (Pixel.flatten [red; clearGreen; red])) (Some 0xFFFFFF).
Proof.
  apply (fromImageData_revisions_agree 3 1 [red; clearGreen; red] (Some 0xFFFFFF)).
  - reflexivity.
  - repeat (apply Forall_cons; split; [first [left; reflexivity | right; reflexivity] |]).
    apply Forall_nil; exact I.
Defined.

(** ** The keys of a palette are colors *)

Lemma keys_turns {A} (counts : A -> option Z) (Q : Z -> Prop) xs : forall entries,
  (forall x c, counts x = Some c -> Q c) ->
  Forall Q (map fst entries) -> Forall Q (map fst (foldl (turn counts) entries xs)).
Proof.
  induction xs as [| x xs IH]; intros entries Hcounts Hentries; cbn [foldl]; [assumption |].
  apply IH; [assumption |]; unfold turn.
  destruct (counts x) as [c |] eqn:Hx; [| assumption].
  rewrite keys_increment; destruct (Palette.hasColor _ c); [assumption |].
  apply Forall_app; split; [assumption |]; repeat constructor; eauto.
Qed.

Lemma int32Of_get data index : 0 <= Palette.int32Of (Uint8Array.get data index) <= 255.
Proof.
  unfold Uint8Array.get; destruct (index <? 0); [cbn; lia |].
  destruct (data !! Z.to_nat index); cbn; [apply toNumber_bounds | lia].
Qed.

Lemma pack_range r g b :
  0 <= r <= 255 -> 0 <= g <= 255 -> 0 <= b <= 255 -> 0 <= Palette.pack r g b <= 0xFFFFFF.
Proof. intros; rewrite pack_bytes by assumption; lia. Qed.

(** The blend of the later revision stays a byte: over all alphas,
    channels and backgrounds the blended number lies in [0, 256). *)
Definition bytesAsNumbers : list float := map Number.ofZ (seqZ 0 256).

Definition blendInRange (alpha channel bgChannel : float) : bool :=
  let alphaRatio := (alpha / 255)%float in
  let invAlphaRatio := (1 - alphaRatio)%float in
  let blended := (channel * alphaRatio + bgChannel * invAlphaRatio)%float in
  (0 <=? blended)%float && (blended <? 256)%float.

Lemma blendInRange_all :
  forallb
    (fun alpha =>
       forallb
         (fun channel =>
            forallb (fun bgChannel => blendInRange alpha channel bgChannel) bytesAsNumbers)
         bytesAsNumbers)
    bytesAsNumbers
  = true.
Proof. vm_compute; reflexivity. Qed.

Lemma forallb_cube {A} (f : A -> A -> A -> bool) (l : list A) :
  forallb (fun x => forallb (fun y => forallb (fun z => f x y z) l) l) l = true ->
  forall x y z, In x l -> In y l -> In z l -> f x y z = true.
Proof.
  intros H x y z Hx Hy Hz.
  rewrite forallb_forall in H; specialize (H x Hx).
  rewrite forallb_forall in H; specialize (H y Hy).
  rewrite forallb_forall in H; exact (H z Hz).
Qed.

Lemma byte_as_number z : 0 <= z <= 255 -> In (Number.ofZ z) bytesAsNumbers.
Proof. intros Hz; apply in_map, list_elem_of_In, elem_of_seqZ; lia. Qed.

Lemma floorInteger_byte v :
  (0 <=? v)%float = true -> (v <? 256)%float = true -> 0 <= Number.floorInteger v <= 255.
Proof.
  rewrite FloatAxioms.leb_spec, FloatAxioms.ltb_spec.
  unfold Number.floorInteger, Number.floorText.
  pose proof (Prim2SF_valid v) as Hvalid.
  change (Prim2SF 0) with (S754_zero false).
  change (Prim2SF 256) with (S754_finite false 4503599627370496 (-44)).
  destruct (Prim2SF v) as [s | s | | s m e]; try lia.
  intros Hle Hlt; destruct s; [discriminate |].
  apply FloatFacts.valid_canonical in Hvalid as [Hcanon _].
  apply (FloatFacts.SFltb_before _ _ (1, e, Z.pos m) (1, -44, 4503599627370496)) in Hlt;
    [| reflexivity | reflexivity].
  pose proof (FloatFacts.digits_bounds m) as [_ Hm].
  assert (Hdigits : Z.pos (digits2_pos m) <= 53) by lia.
  assert (He : e <= -44) by (cbn in Hlt; lia).
  cbn [cond_Zopp]; rewrite <- (Z.opp_involutive e), Z.shiftl_opp_r, Z.shiftr_div_pow2 by lia.
  assert (Hpow : 0 < 2 ^ (- e)) by (apply Z.pow_pos_nonneg; lia).
  split; [apply Z.div_pos; lia |].
  apply Z.lt_succ_r, Z.div_lt_upper_bound; [assumption |].
  change (Z.succ 255) with (2 ^ 8).
  destruct (Z.eq_dec e (-44)) as [-> | Hne].
  - cbn in Hlt |- *; lia.
  - apply Z.lt_le_trans with (2 ^ 53).
    + apply Z.lt_le_trans with (2 ^ Z.pos (digits2_pos m)); [assumption |].
      apply Z.pow_le_mono_r; lia.
    + rewrite <- Z.pow_add_r by lia; apply Z.pow_le_mono_r; lia.
Qed.

Lemma blend_byte alpha channel bgChannel :
  0 <= alpha <= 255 -> 0 <= channel <= 255 -> 0 <= bgChannel <= 255 ->
  0 <= Number.floorInteger
         (Number.ofZ channel * (Number.ofZ alpha / Number.ofZ RGB_MAX)
          + Number.ofZ bgChannel * (1 - Number.ofZ alpha / Number.ofZ RGB_MAX))%float
    <= 255.
Proof.
  intros Ha Hc Hb.
  assert (H255 : Number.ofZ RGB_MAX = 255%float) by (vm_compute; reflexivity).
  rewrite H255.
  pose proof (forallb_cube blendInRange bytesAsNumbers blendInRange_all
                _ _ _ (byte_as_number alpha Ha) (byte_as_number channel Hc)
                (byte_as_number bgChannel Hb)) as Hall.
  unfold blendInRange in Hall; apply andb_true_iff in Hall as [Hle Hlt].
  apply floorInteger_byte; assumption.
Qed.

Lemma get_byte data index z : Uint8Array.get data index = Some z -> 0 <= z <= 255.
Proof.
  unfold Uint8Array.get; destruct (index <? 0); [discriminate |].
  destruct (data !! Z.to_nat index); [| discriminate].
  intros [= <-]; apply toNumber_bounds.
Qed.

Lemma get_before data index offset z :
  0 <= index -> 0 <= offset ->
  Uint8Array.get data (index + offset) = Some z ->
  exists v, Uint8Array.get data index = Some v.
Proof.
  intros Hi Ho; unfold Uint8Array.get.
  destruct (Z.ltb_spec (index + offset) 0); [lia |].
  destruct (Z.ltb_spec index 0); [lia |].
  destruct (data !! Z.to_nat (index + offset)) as [last |] eqn:Hget; [| discriminate].
  apply lookup_lt_Some in Hget; intros _.
  destruct (lookup_lt_is_Some_2 data (Z.to_nat index) ltac:(lia)) as [first ->]; cbn; eauto.
Qed.

Lemma fromImageData_keys rev imageData backgroundColor :
  Forall (fun c => 0 <= c <= 0xFFFFFF)
    (Palette.getAllColors (Palette.fromImageData rev imageData backgroundColor)).
Proof.
  unfold Palette.getAllColors, Palette.fromImageData.
  set (data := ImageData.data imageData).
  destruct rev.
  - cbn [Palette.colors].
    rewrite (foldl_ext _ _ _ (countEarlier_turn _ backgroundColor)).
    apply keys_turns; [| constructor].
    intros i c; unfold seen, Palette.countEarlier.
    destruct (decide _).
    + destruct backgroundColor as [bg |]; [| discriminate].
      pose proof (background_range bg) as Hbg.
      destruct (Palette.background bg) as [[bgR bgG] bgB]; cbn.
      intros [= <-]; now apply pack_range.
    + cbn; intros [= <-]; apply pack_range; apply int32Of_get.
  - destruct (_ || _); [constructor |]; cbn [Palette.colors].
    rewrite (foldl_ext _ _ _ (countLater_turn _ backgroundColor _)).
    apply keys_turns; [| constructor].
    intros i c; unfold seen, Palette.countLater, Palette.RGBA_CHANNELS, Palette.ALPHA_OPAQUE.
    assert (Hbg : let '(bgR, bgG, bgB) :=
                    match backgroundColor with
                    | Some backgroundColor => Palette.background backgroundColor
                    | None => (0, 0, 0)
                    end in
                  0 <= bgR <= 255 /\ 0 <= bgG <= 255 /\ 0 <= bgB <= 255).
    { destruct backgroundColor as [bg |]; [apply background_range | cbn; lia]. }
    destruct (match backgroundColor with
              | Some backgroundColor => Palette.background backgroundColor
              | None => (0, 0, 0)
              end) as [[bgR bgG] bgB].
    destruct Hbg as (HbgR & HbgG & HbgB).
    destruct (bool_decide _ && _); [discriminate |].
    destruct (Uint8Array.get data (i * 4 + 3)) as [alpha |] eqn:Halpha.
    + destruct (Z.ltb_spec alpha 255) as [Hbelow | Hopaque]; cbn [andb].
      * destruct backgroundColor as [bg |]; [| discriminate].
        cbv beta iota zeta.
        assert (Hi : 0 <= i * 4).
        { unfold Uint8Array.get in Halpha.
          destruct (Z.ltb_spec (i * 4 + 3) 0); [discriminate | lia]. }
        destruct (get_before data (i * 4) 3 alpha Hi ltac:(lia) Halpha) as (r & Hr).
        destruct (get_before data (i * 4 + 1) 2 alpha ltac:(lia) ltac:(lia)) as (g & Hg);
          [now rewrite <- Z.add_assoc |].
        destruct (get_before data (i * 4 + 2) 1 alpha ltac:(lia) ltac:(lia)) as (b & Hb);
          [now rewrite <- Z.add_assoc |].
        rewrite Hr, Hg, Hb; cbn [Palette.numberOf Palette.increment].
        apply get_byte in Halpha, Hr, Hg, Hb.
        intros [= <-]; apply pack_range; apply blend_byte; lia.
      * cbn; intros [= <-]; apply pack_range; apply int32Of_get.
    + cbn; intros [= <-]; apply pack_range; apply int32Of_get.
Qed.

(** X19: every key of a palette that [fromImageData] builds, in either
    revision and whatever the buffer and the background, is a packed color
    of 24 bits. *)
Theorem fromImageData_colors_24bit rev imageData backgroundColor :
  Forall (fun c => 0 <= c <= 0xFFFFFF)
    (Palette.getAllColors (Palette.fromImageData rev imageData backgroundColor)).
Proof. apply fromImageData_keys. Qed.

(** X22: an extractor over the palette of an image returns pairwise
    distinct packed colors of 24 bits, whatever the image, the background,
    the options and the count. *)
Theorem extract_from_image Math_pow rev imageData backgroundColor o this colorCount :
  Reachable Math_pow rev (Palette.fromImageData rev imageData backgroundColor) o this ->
  exists colors this',
    extract Math_pow rev colorCount this = Normal (colors, this')
    /\ Forall (fun c => 0 <= c <= 0xFFFFFF) colors
    /\ NoDup colors.
Proof.
  intros Hreach.
  set (p := Palette.fromImageData rev imageData backgroundColor) in *.
  destruct (extract_spec Math_pow rev p o this colorCount (Reachable_Inv _ _ _ _ _ Hreach))
    as (this' & Hrun & _).
  exists (extracted Math_pow rev p colorCount), this'; split; [exact Hrun |].
  assert (Hsub : sublist (extracted Math_pow rev p colorCount) (ranking Math_pow rev p)).
  { unfold extracted; destruct (colorCount =? 0);
      [apply sublist_nil_l | apply merge_sublist]. }
  split.
  - apply Forall_forall; intros c Hc.
    pose proof (fromImageData_keys rev imageData backgroundColor) as Hkeys.
    rewrite Forall_forall in Hkeys; apply Hkeys; fold p.
    rewrite <- (RankingFacts.ranking_perm Math_pow rev p).
    eapply elem_of_sublist; eassumption.
  - eapply sublist_NoDup; [| exact Hsub].
    rewrite (RankingFacts.ranking_perm Math_pow rev p).
    destruct (fromImageData_turns rev imageData backgroundColor)
      as (counts & turns & Hp & _).
    unfold Palette.getAllColors; fold p in Hp; rewrite Hp.
    apply (Counted_turns counts turns [] Counted_nil).
Qed.

Lemma extract_from_image_witness :
  exists colors this',
    extract Math_pow_unreached IterateByInsertion 2
      (new (Palette.fromImageData IterateByInsertion
              (ImageData.mk 2 1 (Pixel.flatten [red; faintBlue])) None) DEFAULT_OPTIONS)
    = Normal (colors, this')
    /\ Forall (fun c => 0 <= c <= 0xFFFFFF) colors
    /\ NoDup colors.
Proof.
  apply (extract_from_image Math_pow_unreached IterateByInsertion
           (ImageData.mk 2 1 (Pixel.flatten [red; faintBlue])) None DEFAULT_OPTIONS).
  constructor.
Defined.

(** * The iterator *)

(** X12: the iterator of the earlier revision yields the entries by
    decreasing count, entries of equal count in their order of insertion;
    the iterator of the later revision yields them in their order of
    insertion. *)
Theorem iterator_order rev p :
  Palette.iterator rev p ≡ₚ Palette.colors p
  /\ (rev = IterateByCount ->
      StronglySorted (fun x y => snd y <= snd x) (Palette.iterator rev p)
      /\ forall n, List.filter (fun e => snd e =? n) (Palette.iterator rev p)
                   = List.filter (fun e => snd e =? n) (Palette.colors p))
  /\ (rev = IterateByInsertion -> Palette.iterator rev p = Palette.colors p).
Proof.
  split; [apply RankingFacts.iterator_perm |]; split; intros ->; [| reflexivity].
  set (after := fun x y : Z * Z => 0 <? snd y - snd x).
  change (Palette.iterator IterateByCount p) with (Array.sort after (Palette.colors p)).
  split.
  - assert (H : StronglySorted (fun x y => after x y = false)
                  (Array.sort after (Palette.colors p))).
    { apply (ArrayFacts.sort_sorted after (fun _ => True)); unfold after.
      - intros x _; apply Z.ltb_ge; lia.
      - intros x y z _ _ _; rewrite !Z.ltb_lt; lia.
      - intros x y z _ _ _; rewrite !Z.ltb_lt; lia.
      - apply Forall_forall; auto. }
    induction H as [| x rest _ IH Hx]; constructor; [assumption |].
    eapply Forall_impl; [exact Hx |].
    unfold after; intros y Hy; apply Z.ltb_ge in Hy; lia.
  - intros n.
    assert (Hstable :
      List.filter (ArrayFacts.tied after (0, n)) (Array.sort after (Palette.colors p))
      = List.filter (ArrayFacts.tied after (0, n)) (Palette.colors p)).
    { apply (ArrayFacts.sort_stable after (fun _ => True)); unfold after.
      - intros x y z _ _ _; rewrite !Z.ltb_lt; lia.
      - exact I.
      - apply Forall_forall; auto. }
    assert (Htied : forall e, (snd e =? n) = ArrayFacts.tied after (0, n) e).
    { intros e; unfold ArrayFacts.tied, after; cbn.
      destruct (Z.eqb_spec (snd e) n), (Z.ltb_spec 0 (snd e - n)),
        (Z.ltb_spec 0 (n - snd e)); try reflexivity; lia. }
    rewrite !(filter_ext _ _ Htied); exact Hstable.
Qed.

(** * The images of the decoder *)

Module DecoderFacts.

Lemma length_set data index value :
  List.length (Uint8Array.set data index value) = List.length data.
Proof. unfold Uint8Array.set; destruct (index <? 0); [reflexivity | apply length_insert]. Qed.

Lemma get_in_range data index :
  0 <= index < Z.of_nat (List.length data) ->
  exists v, Uint8Array.get data index = Some v /\ 0 <= v <= 255.
Proof.
  intros Hi; unfold Uint8Array.get.
  destruct (Z.ltb_spec index 0); [lia |].
  destruct (lookup_lt_is_Some_2 data (Z.to_nat index) ltac:(lia)) as [b Hb].
  rewrite Hb; exists (Uint8Array.toNumber b); split; [reflexivity | apply toNumber_bounds].
Qed.

(** The pixel of the coordinates lies in the buffer of a checked image. *)
Lemma index_in_range width height x y :
  0 <= x < width -> 0 <= y < height ->
  0 <= y * width + x < width * height.
Proof.
  intros Hx Hy.
  assert (0 <= y * width) by (apply Z.mul_nonneg_nonneg; lia).
  assert ((y + 1) * width <= height * width) by (apply Z.mul_le_mono_nonneg_r; lia).
  lia.
Qed.

(** One turn of the loop of [createSolidImage], on the first pixel that
    is still blank. *)
Lemma solid_turn (done : list Byte.byte) k x0 x1 x2 x3 todo r g b a :
  List.length done = (4 * k)%nat ->
  (let i := Z.of_nat k * 4 in
   Uint8Array.set
     (Uint8Array.set
        (Uint8Array.set (Uint8Array.set (done ++ x0 :: x1 :: x2 :: x3 :: todo) i r) (i + 1) g)
        (i + 2) b)
     (i + 3) a)
  = done ++ Uint8Array.ToUint8 r :: Uint8Array.ToUint8 g :: Uint8Array.ToUint8 b
       :: Uint8Array.ToUint8 a :: todo.
Proof.
  intros Hdone; cbv zeta; unfold Uint8Array.set.
  destruct (Z.ltb_spec (Z.of_nat k * 4) 0); [lia |].
  destruct (Z.ltb_spec (Z.of_nat k * 4 + 1) 0); [lia |].
  destruct (Z.ltb_spec (Z.of_nat k * 4 + 2) 0); [lia |].
  destruct (Z.ltb_spec (Z.of_nat k * 4 + 3) 0); [lia |].
  replace (Z.to_nat (Z.of_nat k * 4)) with (List.length done + 0)%nat by lia.
  replace (Z.to_nat (Z.of_nat k * 4 + 1)) with (List.length done + 1)%nat by lia.
  replace (Z.to_nat (Z.of_nat k * 4 + 2)) with (List.length done + 2)%nat by lia.
  replace (Z.to_nat (Z.of_nat k * 4 + 3)) with (List.length done + 3)%nat by lia.
  rewrite !insert_app_r; reflexivity.
Qed.

Lemma flatten_snoc pixels px :
  Pixel.flatten (pixels ++ [px]) = Pixel.flatten pixels ++ Pixel.bytes px.
Proof.
  unfold Pixel.flatten; rewrite map_app, concat_app; reflexivity.
Qed.

Lemma solid_turns r g b a n : forall k, (k <= n)%nat ->
  foldl
    (fun data i =>
       Uint8Array.set
         (Uint8Array.set (Uint8Array.set (Uint8Array.set data i r) (i + 1) g) (i + 2) b)
         (i + 3) a)
    (replicate (4 * n) Byte.x00) ((fun k => k * 4) <$> seqZ 0 (Z.of_nat k))
  = Pixel.flatten
      (replicate k
         (Pixel.mk (Uint8Array.ToUint8 r) (Uint8Array.ToUint8 g) (Uint8Array.ToUint8 b)
            (Uint8Array.ToUint8 a)))
    ++ replicate (4 * (n - k)) Byte.x00.
Proof.
  induction k as [| k IH]; intros Hk.
  - cbn [seqZ]; rewrite Nat.sub_0_r; reflexivity.
  - rewrite replicate_S_end, flatten_snoc, <- app_assoc.
    rewrite seqZ_S, fmap_app, foldl_app, IH by lia; cbn [fmap list_fmap foldl].
    replace (4 * (n - k))%nat with (S (S (S (S (4 * (n - S k)))))) by lia.
    cbn [replicate]; rewrite Z.add_0_l.
    apply (solid_turn _ k); rewrite length_flatten, length_replicate; lia.
Qed.

Lemma createSolidImage_pixels width height r g b a :
  0 <= width * height ->
  ImageDecoder.createSolidImage width height r g b a
  = inr (ImageData.mk width height
           (Pixel.flatten
              (replicate (Z.to_nat (width * height))
                 (Pixel.mk (Uint8Array.ToUint8 r) (Uint8Array.ToUint8 g)
                    (Uint8Array.ToUint8 b) (Uint8Array.ToUint8 a))))).
Proof.
  intros Hsize; unfold ImageDecoder.createSolidImage, Uint8Array.new, ImageDecoder.RGBA_CHANNELS.
  destruct (Z.ltb_spec (width * height * 4) 0); [lia |].
  do 2 f_equal.
  replace (Z.to_nat (width * height * 4)) with (4 * Z.to_nat (width * height))%nat by lia.
  rewrite length_replicate, strides_pixels.
  rewrite (solid_turns r g b a _ _ (Nat.le_refl _)), Nat.sub_diag; cbn [replicate Nat.mul].
  apply app_nil_r.
Qed.

End DecoderFacts.

Import DecoderFacts.

(** X13: on an image that [fromRawData] has checked, [getPixel] throws
    exactly when the coordinates are outside of the image, and inside of it
    returns four bytes, none of them [undefined]. *)
Theorem getPixel_checked width height data imageData x y :
  ImageDecoder.fromRawData width height data = Normal imageData ->
  (0 <= x < width /\ 0 <= y < height ->
   exists r g b a,
     ImageDecoder.getPixel imageData x y = inr (Some r, Some g, Some b, Some a)
     /\ 0 <= r <= 255 /\ 0 <= g <= 255 /\ 0 <= b <= 255 /\ 0 <= a <= 255)
  /\ (~ (0 <= x < width /\ 0 <= y < height) ->
      ImageDecoder.getPixel imageData x y = inl (Error_CoordinatesOutOfBounds x y)).
Proof.
  unfold ImageDecoder.fromRawData, ImageDecoder.RGBA_CHANNELS.
  destruct (Z.eqb_spec (Z.of_nat (List.length data)) (width * height * 4)) as [Hlen | Hlen];
    cbn [negb]; [| discriminate].
  intros [= <-]; unfold ImageDecoder.getPixel, ImageDecoder.RGBA_CHANNELS;
    cbn [ImageData.width ImageData.height ImageData.data].
  split.
  - intros [Hx Hy].
    destruct (Z.ltb_spec x 0); [lia |]; destruct (Z.ltb_spec y 0); [lia |].
    destruct (Z.leb_spec width x); [lia |]; destruct (Z.leb_spec height y); [lia |].
    cbn [orb].
    pose proof (index_in_range width height x y Hx Hy) as Hi.
    destruct (get_in_range data ((y * width + x) * 4) ltac:(lia)) as (r & -> & Hr).
    destruct (get_in_range data ((y * width + x) * 4 + 1) ltac:(lia)) as (g & -> & Hg).
    destruct (get_in_range data ((y * width + x) * 4 + 2) ltac:(lia)) as (b & -> & Hb).
    destruct (get_in_range data ((y * width + x) * 4 + 3) ltac:(lia)) as (a & -> & Ha).
    exists r, g, b, a; auto.
  - intros Hout.
    destruct (Z.ltb_spec x 0); [reflexivity |]; destruct (Z.ltb_spec y 0); [reflexivity |].
    destruct (Z.leb_spec width x); [reflexivity |].
    destruct (Z.leb_spec height y); [reflexivity | lia].
Qed.

(** X14: [createSolidImage] with a non-negative number of pixels returns an
    image that [fromRawData] accepts and in which [getPixel] reads the
    given channels, each modulo 256, at every coordinate; it throws for a
    negative number of pixels. *)
Theorem createSolidImage_round_trip width height r g b a :
  (0 <= width * height ->
   exists imageData,
     ImageDecoder.createSolidImage width height r g b a = inr imageData
     /\ ImageDecoder.fromRawData width height (ImageData.data imageData) = Normal imageData
     /\ forall x y, 0 <= x < width -> 0 <= y < height ->
        ImageDecoder.getPixel imageData x y
        = inr (Some (r mod 256), Some (g mod 256), Some (b mod 256), Some (a mod 256)))
  /\ (width * height < 0 ->
      ImageDecoder.createSolidImage width height r g b a
      = inl (RangeError_InvalidTypedArrayLength (width * height * 4))).
Proof.
  split.
  - intros Hsize; eexists; split; [now apply createSolidImage_pixels |]; split.
    + unfold ImageDecoder.fromRawData, ImageDecoder.RGBA_CHANNELS; cbn [ImageData.data].
      rewrite length_flatten, length_replicate.
      destruct (Z.eqb_spec (Z.of_nat (4 * Z.to_nat (width * height))) (width * height * 4));
        [reflexivity | lia].
    + intros x y Hx Hy; unfold ImageDecoder.getPixel, ImageDecoder.RGBA_CHANNELS;
        cbn [ImageData.width ImageData.height ImageData.data].
      destruct (Z.ltb_spec x 0); [lia |]; destruct (Z.ltb_spec y 0); [lia |].
      destruct (Z.leb_spec width x); [lia |]; destruct (Z.leb_spec height y); [lia |].
      cbn [orb].
      pose proof (index_in_range width height x y Hx Hy) as Hi.
      replace (y * width + x) with (Z.of_nat (Z.to_nat (y * width + x))) by lia.
      set (px := Pixel.mk (Uint8Array.ToUint8 r) (Uint8Array.ToUint8 g)
                   (Uint8Array.ToUint8 b) (Uint8Array.ToUint8 a)).
      destruct (get_flatten (replicate (Z.to_nat (width * height)) px)
                  (Z.to_nat (y * width + x)) px) as (-> & -> & -> & ->);
        [apply lookup_replicate_2; lia |].
      unfold Pixel.alpha, px; cbn [Pixel.r Pixel.g Pixel.b Pixel.a].
      now rewrite !toNumber_ToUint8.
  - intros Hneg; unfold ImageDecoder.createSolidImage, Uint8Array.new, ImageDecoder.RGBA_CHANNELS.
    destruct (Z.ltb_spec (width * height * 4) 0); [reflexivity | lia].
Qed.

Lemma getPixel_checked_witness :
  (0 <= 1 < 2 /\ 0 <= 0 < 1 ->
   exists r g b a,
     ImageDecoder.getPixel (ImageData.mk 2 1 (Pixel.flatten [red; faintBlue])) 1 0
     = inr (Some r, Some g, Some b, Some a)
     /\ 0 <= r <= 255 /\ 0 <= g <= 255 /\ 0 <= b <= 255 /\ 0 <= a <= 255)
  /\ (~ (0 <= 1 < 2 /\ 0 <= 0 < 1) ->
      ImageDecoder.getPixel (ImageData.mk 2 1 (Pixel.flatten [red; faintBlue])) 1 0
      = inl (Error_CoordinatesOutOfBounds 1 0)).
Proof.
  apply (getPixel_checked 2 1 (Pixel.flatten [red; faintBlue])); reflexivity.
Defined.

(** ** A palette of one color *)

Lemma turns_same {A} (counts : A -> option Z) (x : A) c n : forall k,
  counts x = Some c ->
  foldl (turn counts) [(c, k)] (replicate n x) = [(c, k + Z.of_nat n)].
Proof.
  induction n as [| n IH]; intros k Hx; cbn [replicate foldl].
  - now rewrite Z.add_0_r.
  - unfold turn at 2; rewrite Hx; cbn [Palette.increment]; rewrite Z.eqb_refl.
    rewrite IH by assumption; do 2 f_equal; lia.
Qed.

Lemma turns_skipped {A} (counts : A -> option Z) (x : A) n entries :
  counts x = None -> foldl (turn counts) entries (replicate n x) = entries.
Proof.
  intros Hx; induction n as [| n IH]; cbn [replicate foldl]; [reflexivity |].
  unfold turn at 2; now rewrite Hx.
Qed.

(** X15: [fromSolidColor] on a non-empty opaque image builds the palette
    of the one color, counted once per pixel; when the alpha is below 255
    or the image is empty the palette is empty. *)
Theorem fromSolidColor_palette width height r g b a :
  0 <= width * height ->
  Palette.fromSolidColor width height r g b a
  = inr (Palette.mk
           (if (0 <? width * height) && (a mod 256 =? 255)
            then [(r mod 256 * 65536 + g mod 256 * 256 + b mod 256, width * height)]
            else [])).
Proof.
  intros Hsize; unfold Palette.fromSolidColor.
  rewrite createSolidImage_pixels by assumption; f_equal.
  set (px := Pixel.mk _ _ _ _).
  assert (Hcolors : forall p q, Palette.colors p = Palette.colors q -> p = q)
    by (intros [p] [q]; cbn; congruence).
  apply Hcolors; rewrite later_pixels by (rewrite length_replicate; lia).
  cbn [Palette.colors].
  assert (Halpha : Pixel.alpha px = a mod 256) by apply toNumber_ToUint8.
  assert (Hcolor : Pixel.color px = r mod 256 * 65536 + g mod 256 * 256 + b mod 256)
    by (unfold Pixel.color, px; cbn [Pixel.r Pixel.g Pixel.b]; now rewrite !toNumber_ToUint8).
  rewrite <- Halpha, <- Hcolor.
  destruct (Z.ltb_spec 0 (width * height)) as [Hpos | Hzero]; cbn [andb].
  - destruct (Pixel.alpha px =? 255) eqn:Hopaque.
    + destruct (Z.to_nat (width * height)) as [| n] eqn:Hn; [lia |].
      cbn [replicate foldl]; unfold turn at 2; rewrite Hopaque.
      cbn [Palette.increment].
      rewrite (turns_same _ px (Pixel.color px)) by now rewrite Hopaque.
      do 2 f_equal; lia.
    + apply turns_skipped; now rewrite Hopaque.
  - replace (Z.to_nat (width * height)) with 0%nat by lia; reflexivity.
Qed.

Lemma fromSolidColor_palette_witness :
  Palette.fromSolidColor 3 3 255 0 0 255
  = inr (Palette.mk
           (if (0 <? 3 * 3) && (255 mod 256 =? 255)
            then [(255 mod 256 * 65536 + 0 mod 256 * 256 + 0 mod 256, 3 * 3)]
            else [])).
Proof. apply (fromSolidColor_palette 3 3 255 0 0 255); lia. Defined.

Lemma ranking_single Math_pow rev c n :
  ranking Math_pow rev (Palette.mk [(c, n)]) = [c].
Proof. destruct rev; reflexivity. Qed.

(** X16: an extractor over the palette of a non-empty opaque solid image
    returns the color of the image, and nothing else, for every positive
    count. *)
Theorem extract_solid_color Math_pow rev width height r g b p o this colorCount :
  0 < width * height -> 0 < colorCount ->
  Palette.fromSolidColor width height r g b 255 = inr p ->
  Reachable Math_pow rev p o this ->
  exists this',
    extract Math_pow rev colorCount this
    = Normal ([r mod 256 * 65536 + g mod 256 * 256 + b mod 256], this').
Proof.
  intros Hsize Hcount Hp Hreach.
  rewrite fromSolidColor_palette in Hp by lia.
  destruct (Z.ltb_spec 0 (width * height)); [| lia].
  change ((true && (255 mod 256 =? 255))) with true in Hp; cbv iota in Hp.
  injection Hp as <-.
  destruct (extract_spec Math_pow rev _ o this colorCount (Reachable_Inv _ _ _ _ _ Hreach))
    as (this' & Hrun & _).
  exists this'; rewrite Hrun; do 2 f_equal.
  unfold extracted, merge; rewrite ranking_single.
  destruct (Z.eqb_spec colorCount 0); [lia |].
  cbn [List.length]; replace (Z.min (Z.of_nat 1) colorCount) with 1 by lia.
  reflexivity.
Qed.

Lemma extract_solid_color_witness :
  exists this',
    extract Math_pow_unreached IterateByInsertion 5
      (new (Palette.mk [(0x0A0000, 9)]) DEFAULT_OPTIONS)
    = Normal ([10 mod 256 * 65536 + 0 mod 256 * 256 + 0 mod 256], this').
Proof.
  apply (extract_solid_color Math_pow_unreached IterateByInsertion 3 3 10 0 0
           (Palette.mk [(0x0A0000, 9)]) DEFAULT_OPTIONS).
  - lia.
  - lia.
  - reflexivity.
  - constructor.
Defined.

(** ** The test image *)

Module TestImageFacts.

(** The four writes of one turn of the inner loop. *)
Definition written (r g b index : Z) (data : list Byte.byte) : list Byte.byte :=
  Uint8Array.set
    (Uint8Array.set (Uint8Array.set (Uint8Array.set data index r) (index + 1) g)
       (index + 2) b)
    (index + 3) 255.

(** The channels that [createTestImage] computes for a pixel. *)
Definition channel (width height x y : Z) (c : nat) : Z :=
  match c with
  | 0%nat =>
      Number.floorInteger (Number.ofZ x / Number.ofZ width * Number.ofZ 255)%float
  | 1%nat =>
      Number.floorInteger (Number.ofZ y / Number.ofZ height * Number.ofZ 255)%float
  | 2%nat =>
      Number.floorInteger
        (Number.ofZ (x + y) / Number.ofZ (width + height) * Number.ofZ 255)%float
  | _ => 255
  end.

Lemma set_other data index value position :
  Z.of_nat position <> index ->
  Uint8Array.set data index value !! position = data !! position.
Proof.
  intros Hne; unfold Uint8Array.set.
  destruct (Z.ltb_spec index 0); [reflexivity |].
  apply list_lookup_insert_ne; lia.
Qed.

Lemma set_same data index value :
  0 <= index < Z.of_nat (List.length data) ->
  Uint8Array.set data index value !! Z.to_nat index = Some (Uint8Array.ToUint8 value).
Proof.
  intros Hi; unfold Uint8Array.set.
  destruct (Z.ltb_spec index 0); [lia |].
  apply list_lookup_insert_eq; lia.
Qed.

Lemma length_written r g b index data :
  List.length (written r g b index data) = List.length data.
Proof. unfold written; now rewrite !length_set. Qed.

Lemma written_other r g b index data position :
  ~ (index <= Z.of_nat position <= index + 3) ->
  written r g b index data !! position = data !! position.
Proof. intros Hout; unfold written; rewrite !set_other by lia; reflexivity. Qed.

Lemma written_at r g b q data c :
  (4 * q + 3 < List.length data)%nat -> (c < 4)%nat ->
  written r g b (Z.of_nat q * 4) data !! (4 * q + c)%nat
  = Some (Uint8Array.ToUint8 (match c with 0%nat => r | 1%nat => g | 2%nat => b | _ => 255 end)).
Proof.
  intros Hq Hc; unfold written.
  destruct c as [| [| [| [| c]]]]; [| | | | lia].
  - rewrite !set_other by lia.
    replace (4 * q + 0)%nat with (Z.to_nat (Z.of_nat q * 4)) by lia.
    apply set_same; lia.
  - rewrite !set_other by lia.
    replace (4 * q + 1)%nat with (Z.to_nat (Z.of_nat q * 4 + 1)) by lia.
    apply set_same; rewrite !length_set; lia.
  - rewrite !set_other by lia.
    replace (4 * q + 2)%nat with (Z.to_nat (Z.of_nat q * 4 + 2)) by lia.
    apply set_same; rewrite !length_set; lia.
  - replace (4 * q + 3)%nat with (Z.to_nat (Z.of_nat q * 4 + 3)) by lia.
    apply set_same; rewrite !length_set; lia.
Qed.

(** A loop establishes what one of its turns establishes and the others
    keep. *)
Lemma foldl_keeps {S B} (f : S -> B -> S) (Q : S -> Prop) (l : list B) :
  (forall s y, y ∈ l -> Q s -> Q (f s y)) -> forall s, Q s -> Q (foldl f s l).
Proof.
  induction l as [| y l IH]; intros HQ s Hs; cbn; [assumption |].
  apply IH; [intros s' y' Hy'; apply HQ; now right | apply HQ; [left | assumption]].
Qed.

Lemma foldl_establishes {S B} (f : S -> B -> S) (R Q : S -> Prop) (x : B) (l : list B) :
  (forall s y, y ∈ l -> R s -> R (f s y)) ->
  (forall s y, y ∈ l -> Q s -> Q (f s y)) ->
  (forall s, R s -> Q (f s x)) ->
  x ∈ l -> forall s, R s -> Q (foldl f s l).
Proof.
  intros HR HQ Hx Hin.
  apply list_elem_of_split in Hin as (l1 & l2 & ->); intros s Hs.
  rewrite foldl_app; cbn [foldl].
  apply foldl_keeps.
  - intros s' y Hy; apply HQ; rewrite elem_of_app; right; now right.
  - apply Hx, (foldl_keeps f R); [| assumption].
    intros s' y Hy; apply HR; rewrite elem_of_app; now left.
Qed.

(** Two pixels of a row-major image share an index only if they are the
    same pixel. *)
Lemma index_injective width x y x' y' :
  0 <= x < width -> 0 <= x' < width ->
  y' * width + x' = y * width + x -> y' = y /\ x' = x.
Proof.
  intros Hx Hx' Heq.
  assert (Hy : y' = y).
  { assert (Hd' : (x' + y' * width) / width = y')
      by (rewrite Z.div_add, Z.div_small by lia; lia).
    assert (Hd : (x + y * width) / width = y)
      by (rewrite Z.div_add, Z.div_small by lia; lia).
    rewrite <- Hd', <- Hd; f_equal; lia. }
  subst y'; split; [reflexivity | lia].
Qed.

(** The buffer that [createTestImage] fills. *)
Lemma createTestImage_data width height :
  0 <= width -> 0 <= height ->
  exists data,
    ImageDecoder.createTestImage width height = inr (ImageData.mk width height data)
    /\ Z.of_nat (List.length data) = width * height * 4
    /\ forall x y c, 0 <= x < width -> 0 <= y < height -> (c < 4)%nat ->
       Uint8Array.get data ((y * width + x) * 4 + Z.of_nat c)
       = Some (channel width height x y c mod 256).
Proof.
  intros Hw Hh; unfold ImageDecoder.createTestImage, Uint8Array.new, ImageDecoder.RGBA_CHANNELS,
    ImageDecoder.MAX_RGB_VALUE.
  assert (0 <= width * height) by (apply Z.mul_nonneg_nonneg; lia).
  destruct (Z.ltb_spec (width * height * 4) 0); [lia |].
  eexists; split; [reflexivity |].
  match goal with
  | |- context [foldl (fun data y => foldl (@?body y) data (seqZ 0 width))] =>
      set (row := body)
  end.
  set (N := Z.to_nat (width * height * 4)).
  set (sized := fun data : list Byte.byte => List.length data = N).
  assert (Hrow : forall y x data,
             row y data x
             = written (channel width height x y 0) (channel width height x y 1)
                 (channel width height x y 2) ((y * width + x) * 4) data)
    by reflexivity.
  assert (Hsized : forall y x data, sized data -> sized (row y data x)).
  { intros y x data Hdata; unfold sized; now rewrite Hrow, length_written. }
  assert (Hrows : forall y data, sized data -> sized (foldl (row y) data (seqZ 0 width))).
  { intros y data; apply (foldl_keeps (row y) sized); auto. }
  split.
  - transitivity (Z.of_nat N); [| lia]; f_equal.
    apply (foldl_keeps _ sized); [intros; now apply Hrows | apply length_replicate].
  - intros x y c Hx Hy Hc.
    pose proof (index_in_range width height x y Hx Hy) as Hq.
    set (q := Z.to_nat (y * width + x)).
    set (holds := fun data : list Byte.byte =>
           sized data
           /\ data !! (4 * q + c)%nat
              = Some (Uint8Array.ToUint8 (channel width height x y c))).
    assert (Hkeep : forall y' x' data, 0 <= y' -> 0 <= x' < width ->
              holds data -> holds (row y' data x')).
    { intros y' x' data Hy' Hx' [Hdata Hget]; split; [now apply Hsized |].
      rewrite Hrow.
      destruct (Z.eq_dec (y' * width + x') (y * width + x)) as [Heq | Hne].
      - destruct (index_injective width x y x' y' Hx Hx' Heq) as [-> ->].
        replace (y * width + x) with (Z.of_nat q) by lia.
        rewrite written_at by (unfold sized in Hdata; lia).
        now destruct c as [| [| [| [| c]]]].
      - assert (0 <= y' * width) by (apply Z.mul_nonneg_nonneg; lia).
        rewrite written_other by lia; exact Hget. }
    assert (Hset : forall data, sized data -> holds (row y data x)).
    { intros data Hdata; split; [now apply Hsized |].
      rewrite Hrow; replace (y * width + x) with (Z.of_nat q) by lia.
      rewrite written_at by (unfold sized in Hdata; lia).
      now destruct c as [| [| [| [| c]]]]. }
    assert (Hfinal : holds (foldl (fun data y => foldl (row y) data (seqZ 0 width))
                              (replicate N Byte.x00) (seqZ 0 height))).
    { apply (foldl_establishes _ sized holds y).
      - intros data y' _; apply Hrows.
      - intros data y' Hy'%elem_of_seqZ.
        apply (foldl_keeps (row y') holds).
        intros data' x' Hx'%elem_of_seqZ; apply Hkeep; lia.
      - intros data Hdata.
        apply (foldl_establishes (row y) sized holds x).
        + intros data' x' _; apply Hsized.
        + intros data' x' Hx'%elem_of_seqZ; apply Hkeep; lia.
        + apply Hset.
        + apply elem_of_seqZ; lia.
        + exact Hdata.
      - apply elem_of_seqZ; lia.
      - apply length_replicate. }
    destruct Hfinal as [_ Hget].
    unfold Uint8Array.get.
    destruct (Z.ltb_spec ((y * width + x) * 4 + Z.of_nat c) 0); [lia |].
    replace (Z.to_nat ((y * width + x) * 4 + Z.of_nat c)) with (4 * q + c)%nat by lia.
    change (Uint8Array.toNumber
              <$> foldl (fun data y => foldl (row y) data (seqZ 0 width))
                    (replicate N Byte.x00) (seqZ 0 height) !! (4 * q + c)%nat
            = Some (channel width height x y c mod 256)).
    now rewrite Hget; cbn; rewrite toNumber_ToUint8.
Qed.

End TestImageFacts.

Import TestImageFacts.

(** X17: [createTestImage] with non-negative dimensions returns an image
    that [fromRawData] accepts and in which the pixel at [(x, y)] holds the
    three gradients [floor (x / width * 255)], [floor (y / height * 255)]
    and [floor ((x + y) / (width + height) * 255)], computed in doubles and
    stored as bytes, and the alpha 255. *)
Theorem createTestImage_pixels width height :
  0 <= width -> 0 <= height ->
  exists imageData,
    ImageDecoder.createTestImage width height = inr imageData
    /\ ImageDecoder.fromRawData width height (ImageData.data imageData) = Normal imageData
    /\ forall x y, 0 <= x < width -> 0 <= y < height ->
       ImageDecoder.getPixel imageData x y
       = inr (Some (Number.floorInteger
                      (Number.ofZ x / Number.ofZ width * Number.ofZ 255)%float mod 256),
              Some (Number.floorInteger
                      (Number.ofZ y / Number.ofZ height * Number.ofZ 255)%float mod 256),
              Some (Number.floorInteger
                      (Number.ofZ (x + y) / Number.ofZ (width + height)
                       * Number.ofZ 255)%float mod 256),
              Some 255).
Proof.
  intros Hw Hh.
  destruct (createTestImage_data width height Hw Hh) as (data & Hrun & Hlen & Hget).
  eexists; split; [exact Hrun |]; split.
  - unfold ImageDecoder.fromRawData, ImageDecoder.RGBA_CHANNELS; cbn [ImageData.data].
    destruct (Z.eqb_spec (Z.of_nat (List.length data)) (width * height * 4));
      [reflexivity | lia].
  - intros x y Hx Hy; unfold ImageDecoder.getPixel, ImageDecoder.RGBA_CHANNELS;
      cbn [ImageData.width ImageData.height ImageData.data].
    destruct (Z.ltb_spec x 0); [lia |]; destruct (Z.ltb_spec y 0); [lia |].
    destruct (Z.leb_spec width x); [lia |]; destruct (Z.leb_spec height y); [lia |].
    cbn [orb].
    pose proof (Hget x y 0%nat Hx Hy ltac:(lia)) as Hred.
    pose proof (Hget x y 1%nat Hx Hy ltac:(lia)) as Hgreen.
    pose proof (Hget x y 2%nat Hx Hy ltac:(lia)) as Hblue.
    pose proof (Hget x y 3%nat Hx Hy ltac:(lia)) as Halpha.
    rewrite Z.add_0_r in Hred.
    change (Z.of_nat 1) with 1 in Hgreen; change (Z.of_nat 2) with 2 in Hblue;
      change (Z.of_nat 3) with 3 in Halpha.
    rewrite Hred, Hgreen, Hblue, Halpha; reflexivity.
Qed.

Lemma createTestImage_pixels_witness :
  exists imageData,
    ImageDecoder.createTestImage 2 2 = inr imageData
    /\ ImageDecoder.fromRawData 2 2 (ImageData.data imageData) = Normal imageData
    /\ forall x y, 0 <= x < 2 -> 0 <= y < 2 ->
       ImageDecoder.getPixel imageData x y
       = inr (Some (Number.floorInteger
                      (Number.ofZ x / Number.ofZ 2 * Number.ofZ 255)%float mod 256),
              Some (Number.floorInteger
                      (Number.ofZ y / Number.ofZ 2 * Number.ofZ 255)%float mod 256),
              Some (Number.floorInteger
                      (Number.ofZ (x + y) / Number.ofZ (2 + 2)
                       * Number.ofZ 255)%float mod 256),
              Some 255).
Proof. apply (createTestImage_pixels 2 2); lia. Defined.

Lemma countLater_opaque data backgroundColor bg i :
  Uint8Array.get data (i * 4 + 3) = Some 255 ->
  is_Some (seen (Palette.countLater data backgroundColor bg) i).
Proof.
  intros Ha; destruct bg as [[bgR bgG] bgB].
  unfold seen, Palette.countLater, Palette.RGBA_CHANNELS, Palette.ALPHA_OPAQUE.
  rewrite Ha; cbn [bool_decide decide_rel andb]; cbv beta iota zeta.
  rewrite bool_decide_eq_false_2 by discriminate.
  change (255 <? 255) with false; cbn [andb]; cbv iota; cbn; eauto.
Qed.

(** X18: [fromTestImage] counts every pixel of the test image, with or
    without a background color. *)
Theorem fromTestImage_counts_every_pixel width height backgroundColor :
  0 <= width -> 0 <= height ->
  exists p,
    Palette.fromTestImage width height backgroundColor = inr p
    /\ total (Palette.colors p) = width * height.
Proof.
  intros Hw Hh; unfold Palette.fromTestImage.
  destruct (createTestImage_data width height Hw Hh) as (data & -> & Hlen & Hget).
  eexists; split; [reflexivity |].
  assert (Halpha : forall i, 0 <= i < width * height ->
            Uint8Array.get data (i * 4 + 3) = Some 255).
  { intros i Hi.
    assert (Hwpos : 0 < width) by (destruct (Z.eq_dec width 0); [subst; lia | lia]).
    pose proof (Z.div_mod i width ltac:(lia)) as Hdiv.
    pose proof (Z.mod_pos_bound i width Hwpos) as Hmod.
    replace i with (i / width * width + i mod width) at 1 by lia.
    apply (Hget (i mod width) (i / width) 3%nat); [lia | | lia].
    split; [apply Z.div_pos; lia | apply Z.div_lt_upper_bound; lia]. }
  unfold Palette.fromImageData; cbn [ImageData.width ImageData.height ImageData.data].
  destruct (Z.eqb_spec width 0) as [-> | Hw0]; [reflexivity |].
  destruct (Z.eqb_spec height 0) as [-> | Hh0]; [now rewrite Z.mul_0_r |].
  cbn [orb Palette.colors].
  rewrite (foldl_ext _ _ _ (countLater_turn data backgroundColor _)), total_turns.
  change (total []) with 0; rewrite Z.add_0_l.
  assert (Hall : forall l, Forall (fun i => 0 <= i < width * height) l ->
            List.filter
              (fun i => bool_decide (is_Some (seen (Palette.countLater data backgroundColor
                 match backgroundColor with
                 | Some backgroundColor => Palette.background backgroundColor
                 | None => (0, 0, 0)
                 end) i))) l = l).
  { induction 1 as [| i l Hi _ IH]; cbn [List.filter]; [reflexivity |].
    rewrite bool_decide_eq_true_2 by (apply countLater_opaque, Halpha, Hi).
    now rewrite IH. }
  rewrite Hall by (apply Forall_seqZ; intros; lia).
  rewrite length_seqZ.
  assert (0 <= width * height) by (apply Z.mul_nonneg_nonneg; lia); lia.
Qed.

Lemma fromTestImage_counts_every_pixel_witness :
  exists p,
    Palette.fromTestImage 10 10 None = inr p
    /\ total (Palette.colors p) = 10 * 10.
Proof. apply (fromTestImage_counts_every_pixel 10 10 None); lia. Defined.

(** * Colors and their channels *)

Lemma fromRgb_pack r g b : Color.fromRgb (RgbColor.mk r g b) = Palette.pack r g b.
Proof.
  unfold Color.fromRgb, Palette.pack, Color.RED_SHIFT, Color.GREEN_SHIFT.
  cbn [RgbColor.r RgbColor.g RgbColor.b]; reflexivity.
Qed.

(** X20: [toRgb] splits the low 24 bits of a number into three bytes and
    [fromRgb] packs three bytes again: [fromRgb (toRgb color)] is [color]
    modulo 2^24 and [toRgb (fromRgb rgb)] is [rgb] when its channels are
    bytes. *)
Theorem toRgb_fromRgb_round_trip :
  (forall color,
     Color.fromRgb (Color.toRgb color) = color mod 16777216
     /\ 0 <= RgbColor.r (Color.toRgb color) <= 255
     /\ 0 <= RgbColor.g (Color.toRgb color) <= 255
     /\ 0 <= RgbColor.b (Color.toRgb color) <= 255)
  /\ (forall r g b,
        0 <= r <= 255 -> 0 <= g <= 255 -> 0 <= b <= 255 ->
        Color.toRgb (Color.fromRgb (RgbColor.mk r g b)) = RgbColor.mk r g b).
Proof.
  split.
  - intros color; unfold Color.toRgb, Color.RED_SHIFT, Color.GREEN_SHIFT.
    destruct (bytes_of_number color) as (-> & -> & ->); cbn [RgbColor.r RgbColor.g RgbColor.b].
    split; [| repeat split; Z.div_mod_to_equations; lia].
    rewrite fromRgb_pack, pack_bytes; Z.div_mod_to_equations; lia.
  - intros r g b Hr Hg Hb.
    rewrite fromRgb_pack, pack_bytes by assumption.
    unfold Color.toRgb, Color.RED_SHIFT, Color.GREEN_SHIFT.
    destruct (bytes_of_number (r * 65536 + g * 256 + b)) as (-> & -> & ->).
    f_equal; Z.div_mod_to_equations; lia.
Qed.

(** * The most used colors, without a positive limit *)

(** X21: [getMostUsedColors] without a limit returns all entries sorted by
    count, largest first, entries of equal count in their order of
    insertion; with a negative limit [slice] drops that many entries from
    the end of this list. *)
Theorem getMostUsedColors_unlimited p :
  exists ranked,
    ranked ≡ₚ entriesOf p
    /\ StronglySorted (fun x y => PaletteEntry.count y <= PaletteEntry.count x) ranked
    /\ (forall n, List.filter (fun e => PaletteEntry.count e =? n) ranked
                  = List.filter (fun e => PaletteEntry.count e =? n) (entriesOf p))
    /\ Palette.getMostUsedColors p None = ranked
    /\ forall K, K < 0 ->
       Palette.getMostUsedColors p (Some K)
       = take (List.length ranked - Z.to_nat (- K)) ranked.
Proof.
  exists (Array.sort byCount (entriesOf p)).
  split; [apply ArrayFacts.sort_perm |].
  split; [apply byCount_sorted |].
  split; [apply byCount_stable |].
  split; [reflexivity |].
  intros K HK; unfold Palette.getMostUsedColors, Array.slice0.
  rewrite (proj2 (Z.eqb_neq K 0)), (proj2 (Z.ltb_lt K 0)) by lia.
  change (firstn ?n ?l) with (take n l); f_equal.
  unfold entriesOf, byCount; lia.
Qed.

(** ** Colors as text *)

Module HexFacts.
Import NumberText.

(** An upper-case hexadecimal digit. *)
Definition isHex (u : Z) : Prop := 48 <= u <= 57 \/ 65 <= u <= 70.

Lemma upper_digit d :
  0 <= d < 16 ->
  exists u, JSString.toUpperCase [digit d] = [u] /\ isHex u /\ digitValue u = Some d.
Proof.
  intros Hd; unfold JSString.toUpperCase, digit, isHex, digitValue; cbn [map].
  destruct (Z.ltb_spec d 10).
  - exists (48 + d); repeat split; [| lia |].
    + destruct (Z.leb_spec 97 (48 + d)); [lia | reflexivity].
    + destruct (Z.leb_spec 48 (48 + d)), (Z.leb_spec (48 + d) 57); try lia.
      cbn; f_equal; lia.
  - exists (55 + d); repeat split; [| lia |].
    + destruct (Z.leb_spec 97 (87 + d)), (Z.leb_spec (87 + d) 122); try lia.
      cbn; f_equal; lia.
    + destruct (Z.leb_spec 48 (55 + d)), (Z.leb_spec (55 + d) 57),
        (Z.leb_spec 97 (55 + d)), (Z.leb_spec 65 (55 + d)), (Z.leb_spec (55 + d) 90);
        try lia; cbn; f_equal; lia.
Qed.

(** The digits of a positive number, upper-cased, are hexadecimal digits
    that read back as the number. *)
Lemma read_digits fuel : forall n acc,
  0 < n < 2 ^ Z.of_nat fuel ->
  exists ds,
    JSString.toUpperCase (digits fuel 16 n acc) = ds ++ JSString.toUpperCase acc
    /\ Forall isHex ds /\ ds <> []
    /\ 16 ^ (Z.of_nat (List.length ds) - 1) <= n
    /\ forall rest value count,
         readDigits 16 (ds ++ rest) value count
         = readDigits 16 rest (value * 16 ^ Z.of_nat (List.length ds) + n)
             (count + List.length ds).
Proof.
  induction fuel as [| fuel IH]; intros n acc Hn; [cbn in Hn; lia |].
  cbn [digits]; destruct (Z.ltb_spec n 16) as [Hsmall | Hbig].
  - destruct (upper_digit n ltac:(lia)) as (u & Hu & Hhex & Hval).
    exists [u]; split; [| split; [| split; [| split]]].
    + change (digit n :: acc) with ([digit n] ++ acc).
      unfold JSString.toUpperCase in *; now rewrite map_app, Hu.
    + now constructor.
    + discriminate.
    + cbn; lia.
    + intros rest value count; cbn [app readDigits List.length]; rewrite Hval.
      destruct (Z.ltb_spec n 16); [| lia].
      change (16 ^ Z.of_nat 1) with 16; f_equal; lia.
  - assert (Hq : 0 < n / 16 < 2 ^ Z.of_nat fuel).
    { rewrite Nat2Z.inj_succ, Z.pow_succ_r in Hn by lia.
      split; [apply Z.div_str_pos; lia | apply Z.div_lt_upper_bound; lia]. }
    destruct (IH (n / 16) (digit (n mod 16) :: acc) Hq)
      as (ds & Hds & Hhex & Hne & Hlow & Hread).
    destruct (upper_digit (n mod 16) (Z.mod_pos_bound n 16 ltac:(lia)))
      as (u & Hu & Hhexu & Hval).
    exists (ds ++ [u]); split; [| split; [| split; [| split]]].
    + rewrite Hds.
      change (digit (n mod 16) :: acc) with ([digit (n mod 16)] ++ acc).
      unfold JSString.toUpperCase in *; now rewrite map_app, Hu, <- app_assoc.
    + apply Forall_app; split; [assumption | now constructor].
    + now destruct ds.
    + rewrite length_app; cbn [List.length].
      replace (Z.of_nat (List.length ds + 1) - 1)
        with (Z.succ (Z.of_nat (List.length ds) - 1)) by lia.
      assert (0 <= Z.of_nat (List.length ds) - 1) by (destruct ds; [congruence | cbn; lia]).
      rewrite Z.pow_succ_r by assumption.
      pose proof (Z.div_mod n 16 ltac:(lia)); pose proof (Z.mod_pos_bound n 16 ltac:(lia)).
      lia.
    + intros rest value count; rewrite <- app_assoc, Hread; cbn [app readDigits]; rewrite Hval.
      destruct (Z.ltb_spec (n mod 16) 16);
        [| pose proof (Z.mod_pos_bound n 16 ltac:(lia)); lia].
      rewrite length_app; cbn [List.length].
      rewrite Nat2Z.inj_add, Z.pow_add_r by lia; change (16 ^ Z.of_nat 1) with 16.
      pose proof (Z.div_mod n 16 ltac:(lia)).
      f_equal; lia.
Qed.

Lemma read_zeros m : forall rest count,
  readDigits 16 (replicate m 48 ++ rest) 0 count = readDigits 16 rest 0 (count + m).
Proof.
  induction m as [| m IH]; intros rest count; cbn [replicate app readDigits].
  - f_equal; lia.
  - change (digitValue 48) with (Some 0); change (0 <? 16) with true; cbv iota.
    rewrite IH; f_equal; lia.
Qed.

(** On hexadecimal digits [parseInt] has nothing to skip. *)
Lemma parseInt16_digits s :
  Forall isHex s ->
  parseInt16 s
  = (let '(value, count) := readDigits 16 s 0 0 in
     if Nat.eqb count 0 then None else Some value).
Proof.
  intros Hs; unfold parseInt16.
  assert (Htrim : trimStart s = s).
  { destruct Hs as [| u rest Hu _]; [reflexivity |]; cbn.
    unfold isWhiteSpace; rewrite bool_decide_eq_false_2; [reflexivity |].
    unfold isHex in Hu; rewrite !elem_of_cons, elem_of_nil; lia. }
  rewrite Htrim.
  destruct Hs as [| u rest Hu Hrest]; [reflexivity |].
  unfold isHex in Hu.
  destruct (Z.eqb_spec u 45); [lia |]; destruct (Z.eqb_spec u 43); [lia |].
  assert (Hprefix : match u :: rest with
                    | u0 :: v :: rest0 =>
                        if (u0 =? 48) && ((v =? 120) || (v =? 88)) then rest0 else u :: rest
                    | _ => u :: rest
                    end = u :: rest).
  { destruct Hrest as [| v rest' Hv _]; [reflexivity |].
    unfold isHex in Hv.
    destruct (Z.eqb_spec v 120); [lia |]; destruct (Z.eqb_spec v 88); [lia |].
    now rewrite andb_false_r. }
  rewrite Hprefix.
  destruct (readDigits 16 (u :: rest) 0 0) as [value count].
  destruct (count =? 0)%nat; [reflexivity | f_equal; lia].
Qed.

Lemma removeFirst_digits s : Forall isHex s -> JSString.removeFirst 35 s = s.
Proof.
  induction 1 as [| u rest Hu _ IH]; cbn; [reflexivity |].
  unfold isHex in Hu; destruct (Z.eqb_spec u 35); [lia | now rewrite IH].
Qed.

(** The text of a non-negative number in upper-case hexadecimal digits. *)
Lemma toHex_digits color :
  0 <= color ->
  exists s,
    JSString.padStart (JSString.toUpperCase (toString color 16)) 6 48 = s
    /\ Forall isHex s
    /\ (color <= 0xFFFFFF -> List.length s = 6%nat)
    /\ parseInt16 s = Some color.
Proof.
  intros Hcolor; eexists; split; [reflexivity |].
  unfold toString; destruct (Z.ltb_spec color 0); [lia |].
  assert (Hzero : isHex 48) by (left; lia).
  destruct (Z.eqb_spec color 0) as [-> | Hpos].
  - change (JSString.padStart (JSString.toUpperCase [48]) 6 48) with [48; 48; 48; 48; 48; 48].
    split; [| split; reflexivity].
    repeat (apply Forall_cons; split; [assumption |]); apply Forall_nil; exact I.
  - assert (Hfuel : 0 < color < 2 ^ Z.of_nat (S (Z.to_nat (Z.log2 color)))).
    { pose proof (Z.log2_nonneg color); rewrite Nat2Z.inj_succ, Z2Nat.id by assumption.
      pose proof (Z.log2_spec color ltac:(lia)); lia. }
    destruct (read_digits _ color [] Hfuel) as (ds & Hds & Hhex & Hne & Hlow & Hread).
    rewrite Hds, app_nil_r; unfold JSString.padStart.
    set (m := Z.to_nat (6 - Z.of_nat (List.length ds))).
    assert (Hall : Forall isHex (replicate m 48 ++ ds)).
    { apply Forall_app; split; [| assumption].
      apply Forall_forall; intros u [-> _]%elem_of_replicate; assumption. }
    split; [exact Hall |]; split.
    + intros Hmax; rewrite length_app, length_replicate; subst m.
      assert (Z.of_nat (List.length ds) - 1 < 6); [| lia].
      apply (Z.pow_lt_mono_r_iff 16); [lia | lia |].
      change (16 ^ 6) with 16777216; lia.
    + rewrite parseInt16_digits by assumption.
      rewrite read_zeros, <- (app_nil_r ds), Hread; cbn [readDigits].
      rewrite Z.mul_0_l, Z.add_0_l.
      destruct (0 + m + List.length ds)%nat eqn:Hcount; [| reflexivity].
      destruct ds; [congruence | cbn in Hcount; lia].
Qed.

End HexFacts.

Import HexFacts.

(** X23: on a non-negative integer below 2^53, [toHex] writes upper-case hexadecimal
    digits, six of them up to [0xFFFFFF], after the hash if it is asked
    for, and [fromHex] reads the number back. *)
Theorem toHex_fromHex_round_trip color includeHash :
  0 <= color < 2 ^ 53 ->
  Color.fromHex (Color.toHex color includeHash) = Some color
  /\ exists digits,
       Color.toHex color includeHash = (if includeHash then [35] else []) ++ digits
       /\ Forall isHex digits
       /\ (color <= 0xFFFFFF -> List.length digits = 6%nat).
Proof.
  intros [Hcolor _]; unfold Color.fromHex, Color.toHex, Color.HEX_RADIX, Color.HEX_PAD_LENGTH.
  destruct (toHex_digits color Hcolor) as (s & -> & Hhex & Hlen & Hparse).
  split.
  - destruct includeHash; cbn [JSString.removeFirst].
    + change (35 =? 35) with true; cbv iota; exact Hparse.
    + now rewrite removeFirst_digits.
  - exists s; split; [now destruct includeHash | split; assumption].
Qed.

Lemma toHex_fromHex_round_trip_witness :
  Color.fromHex (Color.toHex 0xFF5733 true) = Some 0xFF5733
  /\ exists digits,
       Color.toHex 0xFF5733 true = (if true then [35] else []) ++ digits
       /\ Forall isHex digits
       /\ (0xFF5733 <= 0xFFFFFF -> List.length digits = 6%nat).
Proof.
  apply (toHex_fromHex_round_trip 0xFF5733 true).
  split; [lia | reflexivity].
Defined.

(** ** The dominant color *)

Lemma priority_mk c v : priority (mkPriority c v) = v.
Proof. reflexivity. Qed.

Lemma ranked_records Math_pow rev p :
  Forall (Salience.numeric Math_pow) (Palette.colors p) ->
  Forall ranked (map (priorityOf Math_pow) (Palette.iterator rev p))
  /\ forall e, e ∈ Palette.colors p -> priorityOf Math_pow e = Salience.record Math_pow e.
Proof.
  intros Hnum.
  assert (Hrecord : forall e, e ∈ Palette.colors p ->
            priorityOf Math_pow e = Salience.record Math_pow e).
  { intros e He; apply priorityOf_record.
    rewrite Forall_forall in Hnum; exact (proj1 (Hnum e He)). }
  split; [| exact Hrecord].
  apply Forall_forall; intros r (e & -> & He)%list_elem_of_fmap.
  rewrite (RankingFacts.iterator_perm rev p) in He.
  unfold ranked; rewrite Hrecord by assumption.
  unfold Salience.record; rewrite priority_mk.
  rewrite Forall_forall in Hnum; exact (proj2 (Hnum e He)).
Qed.

Lemma extracted_one Math_pow rev p top rest :
  Array.sort byPriority (map (priorityOf Math_pow) (Palette.iterator rev p)) = top :: rest ->
  extracted Math_pow rev p 1 = [color top].
Proof.
  intros Hsort.
  unfold extracted, merge, ranking; rewrite Hsort; cbn [map List.length Z.eqb].
  replace (Z.min (Z.of_nat (S (List.length (map color rest)))) 1) with 1 by lia.
  reflexivity.
Qed.

(** X24: [extract] with its default count of one returns the dominant
    color: the one color it returns is the color of an entry of the
    palette, and when the entries are ranked by numbers no entry of the
    palette has a priority above the priority of that entry. *)
Theorem extract_dominant Math_pow rev p o this :
  Reachable Math_pow rev p o this ->
  Forall (Salience.numeric Math_pow) (Palette.colors p) ->
  Palette.colors p <> [] ->
  exists entry this',
    extract Math_pow rev 1 this = Normal ([fst entry], this')
    /\ entry ∈ Palette.colors p
    /\ forall other, other ∈ Palette.colors p ->
       (Salience.priority Math_pow (fst entry) (snd entry)
        <? Salience.priority Math_pow (fst other) (snd other))%float = false.
Proof.
  intros Hreach Hnum Hne.
  destruct (ranked_records Math_pow rev p Hnum) as [Hranked Hrecord].
  destruct (Array.sort byPriority (map (priorityOf Math_pow) (Palette.iterator rev p)))
    as [| top rest] eqn:Hsort.
  { apply ArrayFacts.sort_nil_inv, map_eq_nil in Hsort.
    destruct (Palette.colors p) as [| e es] eqn:Hcolors; [congruence |].
    assert (He : e ∈ Palette.iterator rev p)
      by (rewrite (RankingFacts.iterator_perm rev p), Hcolors; left).
    rewrite Hsort in He; inversion He. }
  pose proof (byPriority_sorted _ Hranked) as Hsorted; rewrite Hsort in Hsorted.
  pose proof (ArrayFacts.sort_perm byPriority
                (map (priorityOf Math_pow) (Palette.iterator rev p))) as Hperm.
  rewrite Hsort in Hperm.
  assert (Htop : top ∈ map (priorityOf Math_pow) (Palette.iterator rev p))
    by (rewrite <- Hperm; left).
  apply list_elem_of_fmap in Htop as (entry & Htop & He).
  rewrite (RankingFacts.iterator_perm rev p) in He.
  rewrite Hrecord in Htop by assumption.
  destruct (extract_spec Math_pow rev p o this 1 (Reachable_Inv _ _ _ _ _ Hreach))
    as (this' & Hrun & _).
  rewrite (extracted_one Math_pow rev p top rest Hsort) in Hrun.
  exists entry, this'; split; [| split; [exact He |]].
  - rewrite Hrun, Htop; reflexivity.
  - intros other Hother.
    assert (Hin : Salience.record Math_pow other ∈ top :: rest).
    { rewrite <- (Hrecord _ Hother), Hperm; apply list_elem_of_fmap.
      exists other; split; [reflexivity |].
      now rewrite (RankingFacts.iterator_perm rev p). }
    inversion Hsorted as [| ? ? _ Hrest]; subst.
    apply elem_of_cons in Hin as [Hin | Hin].
    + unfold Salience.record in Hin; injection Hin as _ Hp.
      rewrite Hp; apply FloatFacts.ltb_irrefl.
    + rewrite Forall_forall in Hrest; specialize (Hrest _ Hin).
      unfold Salience.record in Hrest; rewrite !priority_mk in Hrest.
      exact Hrest.
Qed.

Lemma extract_dominant_witness :
  exists entry this',
    extract Math_pow_unreached IterateByCount 1 (new darkPalette DEFAULT_OPTIONS)
    = Normal ([fst entry], this')
    /\ entry ∈ Palette.colors darkPalette
    /\ forall other, other ∈ Palette.colors darkPalette ->
       (Salience.priority Math_pow_unreached (fst entry) (snd entry)
        <? Salience.priority Math_pow_unreached (fst other) (snd other))%float = false.
Proof.
  apply (extract_dominant Math_pow_unreached IterateByCount darkPalette DEFAULT_OPTIONS).
  - constructor.
  - repeat (apply Forall_cons; split; [split; vm_compute; reflexivity |]).
    apply Forall_nil; exact I.
  - discriminate.
Defined.
